(** * MacBook inventory: grouping, catalog content and Shopify reconciliation

    A shallow embedding of [server.js]: the content generator
    ([createAdvancedSEOTitle], [createSEOOptimizedHandle], the price
    functions, [createAdvancedProductDescription]), the grouping fold
    [createProductGroups], the variant aggregation [createAdvancedVariants]
    and the reconciler ([findExistingProductAdvanced],
    [updateExistingProductAdvanced], [createNewProductAdvanced] and the loop
    of [POST /api/sync-shopify]); with them the statistics that
    [createProductGroups] returns, [createAdvancedSEODescription], and the
    two functions that read the store before the loop
    ([getAllExistingProductsAdvanced], [setupCollectionsAdvanced]).

    Conventions.
    - A JavaScript string is a [string]: a sequence of 8-bit code units (the
      Latin-1 range of UTF-16).
    - A JavaScript object used as a map is an association list in insertion
      order, as [Object.keys] enumerates it; a lookup that misses the own
      properties continues in [Object.prototype], as [obj[key]] does.
    - A number that is an integer or [NaN] is an [option Z] ([None] is [NaN]).
    - Network calls are explicit: every HTTP request is appended to a trace
      and its outcome is read from a list of responses. *)

From Stdlib Require Import String Ascii List ZArith Lia Bool Permutation.
From Stdlib Require Import PrimFloat Uint63 SpecFloat FloatOps.
Import ListNotations.

Set Warnings "-inexact-float".

Local Open Scope string_scope.
Local Open Scope Z_scope.

(** ** JavaScript strings *)

Module JS.

Definition dquote : string := String (ascii_of_nat 34) EmptyString.

Definition code (c : ascii) : nat := nat_of_ascii c.

Definition between (lo hi : nat) (c : ascii) : bool :=
  (Nat.leb lo (code c) && Nat.leb (code c) hi)%bool.

(** [\s] on the code units below 256. *)
Definition isSpace (c : ascii) : bool :=
  (between 9 13 c || Nat.eqb (code c) 32 || Nat.eqb (code c) 160)%bool.

Definition isDigit (c : ascii) : bool := between 48 57 c.
Definition isLowerAZ (c : ascii) : bool := between 97 122 c.
Definition isUpperAZ (c : ascii) : bool := between 65 90 c.
Definition isHyphen (c : ascii) : bool := Nat.eqb (code c) 45.

(** [String.prototype.toLowerCase]: A-Z and the Latin-1 capitals. *)
Definition lowerChar (c : ascii) : ascii :=
  if (isUpperAZ c || (between 192 222 c && negb (Nat.eqb (code c) 215)))%bool
  then ascii_of_nat (code c + 32) else c.

(** [String.prototype.toUpperCase]: a-z and the Latin-1 small letters whose
    capital is one code unit below 256.  The sharp s (whose capital is SS),
    the micro sign and y with diaeresis are kept as they are; no statement
    below depends on them. *)
Definition upperChar (c : ascii) : ascii :=
  if (isLowerAZ c || (between 224 254 c && negb (Nat.eqb (code c) 247)))%bool
  then ascii_of_nat (code c - 32) else c.

Fixpoint mapChars (f : ascii -> ascii) (s : string) : string :=
  match s with
  | EmptyString => EmptyString
  | String c t => String (f c) (mapChars f t)
  end.

Definition toLowerCase : string -> string := mapChars lowerChar.
Definition toUpperCase : string -> string := mapChars upperChar.

(** A string is truthy when it is not empty. *)
Definition truthy (s : string) : bool :=
  match s with EmptyString => false | String _ _ => true end.

(** [a || b] on strings. *)
Definition orElse (a b : string) : string := if truthy a then a else b.

Fixpoint includes (s pat : string) : bool :=
  (String.prefix pat s ||
   match s with
   | EmptyString => false
   | String _ t => includes t pat
   end)%bool.

(** [s.substring(0, n)] *)
Fixpoint take (n : nat) (s : string) : string :=
  match n, s with
  | S k, String c t => String c (take k t)
  | _, _ => EmptyString
  end.

(** [s.substring(n)] *)
Fixpoint drop (n : nat) (s : string) : string :=
  match n, s with
  | S k, String _ t => drop k t
  | _, _ => s
  end.

Fixpoint dropWhile (p : ascii -> bool) (s : string) : string :=
  match s with
  | String c t => if p c then dropWhile p t else s
  | EmptyString => EmptyString
  end.

Fixpoint takeWhile (p : ascii -> bool) (s : string) : string :=
  match s with
  | String c t => if p c then String c (takeWhile p t) else EmptyString
  | EmptyString => EmptyString
  end.

Definition startsWith (p : ascii -> bool) (s : string) : bool :=
  match s with String c _ => p c | EmptyString => false end.

Fixpoint lastChar (s : string) : option ascii :=
  match s with
  | EmptyString => None
  | String c EmptyString => Some c
  | String _ t => lastChar t
  end.

Definition endsWith (p : ascii -> bool) (s : string) : bool :=
  match lastChar s with Some c => p c | None => false end.

Fixpoint dropLast (s : string) : string :=
  match s with
  | EmptyString => EmptyString
  | String c EmptyString => EmptyString
  | String c t => String c (dropLast t)
  end.

Fixpoint rev_onto (s acc : string) : string :=
  match s with
  | EmptyString => acc
  | String c t => rev_onto t (String c acc)
  end.

(** [String.prototype.trim] *)
Definition trim (s : string) : string :=
  let t := dropWhile isSpace s in
  rev_onto (dropWhile isSpace (rev_onto t EmptyString)) EmptyString.

(** [s.replace(pat, rep)] with a string pattern: the first occurrence. *)
Fixpoint replaceFirst (pat rep s : string) : string :=
  if String.prefix pat s then rep ++ drop (String.length pat) s
  else match s with
       | EmptyString => EmptyString
       | String c t => String c (replaceFirst pat rep t)
       end.

(** [s.replace(/[^...]/g, '')]: keep the code units that satisfy [keep]. *)
Fixpoint filterChars (keep : ascii -> bool) (s : string) : string :=
  match s with
  | EmptyString => EmptyString
  | String c t =>
      if keep c then String c (filterChars keep t) else filterChars keep t
  end.

(** [s.replace(/X+/g, rep)] for a character class X: every maximal run of
    [p] becomes one [rep]. *)
Fixpoint replaceRuns (p : ascii -> bool) (rep : ascii) (s : string) : string :=
  match s with
  | EmptyString => EmptyString
  | String c t =>
      if p c
      then if startsWith p t then replaceRuns p rep t
           else String rep (replaceRuns p rep t)
      else String c (replaceRuns p rep t)
  end.

(** [s.replace(/apple\s+/g, '')] *)
Fixpoint removeAppleSpaces (fuel : nat) (s : string) : string :=
  match fuel with
  | O => s
  | S f =>
      match s with
      | EmptyString => EmptyString
      | String c t =>
          if (String.prefix "apple" s && startsWith isSpace (drop 5 s))%bool
          then removeAppleSpaces f (dropWhile isSpace (drop 5 s))
          else String c (removeAppleSpaces f t)
      end
  end.

(** [s.replace(/\s+chip/g, '')] *)
Fixpoint removeSpacesChip (fuel : nat) (s : string) : string :=
  match fuel with
  | O => s
  | S f =>
      match s with
      | EmptyString => EmptyString
      | String c t =>
          if (isSpace c && String.prefix "chip" (dropWhile isSpace s))%bool
          then removeSpacesChip f (drop 4 (dropWhile isSpace s))
          else String c (removeSpacesChip f t)
      end
  end.

(** [s.replace(/^-|-$/g, '')] *)
Definition stripEdgeHyphens (s : string) : string :=
  let t := if startsWith isHyphen s then drop 1 s else s in
  if endsWith isHyphen t then dropLast t else t.

(** [parts.filter(Boolean).join(sep)] *)
Definition joinTruthy (sep : string) (parts : list string) : string :=
  match filter truthy parts with
  | [] => EmptyString
  | p :: ps => fold_left (fun acc q => acc ++ sep ++ q) ps p
  end.

Fixpoint allChars (p : ascii -> bool) (s : string) : bool :=
  match s with
  | EmptyString => true
  | String c t => (p c && allChars p t)%bool
  end.

(** No two adjacent code units both satisfy [p]. *)
Fixpoint noAdjacent (p : ascii -> bool) (s : string) : bool :=
  match s with
  | EmptyString => true
  | String c t => (negb (p c && startsWith p t) && noAdjacent p t)%bool
  end.

Fixpoint repeatChar (c : ascii) (n : nat) : string :=
  match n with O => EmptyString | S k => String c (repeatChar c k) end.

(** *** Property lookup

    [table[key]] on an object literal: an own property, or a property
    inherited from [Object.prototype] (an object or a function, truthy), or
    [undefined]. *)

Definition objectPrototypeKeys : list string :=
  [ "constructor"; "__proto__"; "hasOwnProperty"; "isPrototypeOf";
    "propertyIsEnumerable"; "toLocaleString"; "toString"; "valueOf";
    "__defineGetter__"; "__defineSetter__"; "__lookupGetter__";
    "__lookupSetter__" ].

Inductive prop (A : Type) : Type :=
| Own (a : A)
| Inherited (key : string)
| Undefined.
Arguments Own {A} a.
Arguments Inherited {A} key.
Arguments Undefined {A}.

Fixpoint assoc {A : Type} (k : string) (o : list (string * A)) : option A :=
  match o with
  | [] => None
  | (k', v) :: t => if String.eqb k k' then Some v else assoc k t
  end.

Definition getProp {A : Type} (o : list (string * A)) (k : string) : prop A :=
  match assoc k o with
  | Some v => Own v
  | None =>
      if existsb (String.eqb k) objectPrototypeKeys then Inherited k
      else Undefined
  end.

(** *** Numbers read from strings *)

Definition digitVal (c : ascii) : Z := Z.of_nat (code c) - 48.

Definition hexVal (c : ascii) : option Z :=
  if isDigit c then Some (Z.of_nat (code c) - 48)
  else if between 97 102 c then Some (Z.of_nat (code c) - 87)
  else if between 65 70 c then Some (Z.of_nat (code c) - 55)
  else None.

Fixpoint digitsValue (acc : Z) (s : string) : Z :=
  match s with
  | EmptyString => acc
  | String c t => digitsValue (10 * acc + digitVal c) t
  end.

Fixpoint hexValue (acc : option Z) (s : string) : option Z :=
  match s with
  | EmptyString => acc
  | String c t =>
      match hexVal c with
      | Some d => hexValue (Some (16 * match acc with Some a => a | None => 0 end + d)) t
      | None => acc
      end
  end.

Definition isSign (c : ascii) : bool :=
  (Nat.eqb (code c) 43 || Nat.eqb (code c) 45)%bool.

Definition signOf (s : string) : Z * string :=
  match s with
  | String c t =>
      if Nat.eqb (code c) 45 then (-1, t)
      else if Nat.eqb (code c) 43 then (1, t)
      else (1, s)
  | EmptyString => (1, s)
  end.

(** [parseInt(s)] without a radix: leading white space, a sign, [0x] for
    base 16, then the longest run of digits; [None] is [NaN].  The value is
    the mathematical one: rounding it to a double does not change how it
    compares with an integer below 2^53. *)
Definition parseInt (s : string) : option Z :=
  let (sg, r) := signOf (dropWhile isSpace s) in
  if (String.prefix "0x" r || String.prefix "0X" r)%bool
  then option_map (Z.mul sg) (hexValue None (drop 2 r))
  else
    let ds := takeWhile isDigit r in
    if truthy ds then Some (sg * digitsValue 0 ds) else None.

(** The decimal literal that [parseFloat] reads: the value is
    [sign * mantissa * 10 ^ exponent]. *)
Inductive decimal : Type :=
| DNaN
| DInfinity (sign : Z)
| DFinite (sign : Z) (mantissa : Z) (exponent : Z).

Definition isE (c : ascii) : bool :=
  (Nat.eqb (code c) 101 || Nat.eqb (code c) 69)%bool.

Definition isDot (c : ascii) : bool := Nat.eqb (code c) 46.

Definition exponentPart (s : string) : Z :=
  match s with
  | String e t =>
      if isE e then
        let (sg, u) := signOf t in
        let ds := takeWhile isDigit u in
        if truthy ds then sg * digitsValue 0 ds else 0
      else 0
  | EmptyString => 0
  end.

Definition parseFloat (s : string) : decimal :=
  let (sg, r) := signOf (dropWhile isSpace s) in
  if String.prefix "Infinity" r then DInfinity sg
  else
    let ip := takeWhile isDigit r in
    let r1 := dropWhile isDigit r in
    let fp := if startsWith isDot r1 then takeWhile isDigit (drop 1 r1)
              else EmptyString in
    let r2 := if startsWith isDot r1 then dropWhile isDigit (drop 1 r1)
              else r1 in
    if (truthy ip || truthy fp)%bool
    then DFinite sg (digitsValue 0 (ip ++ fp))
           (exponentPart r2 - Z.of_nat (String.length fp))
    else DNaN.

(** [parseFloat(s) >= n] for n = 15 or 16.  The literal is rounded to the
    nearest double first; the doubles just below 15 and 16 are 2^-49 apart
    and both 15 and 16 have an even significand, so the rounded value
    reaches [n] exactly when the literal reaches [n - 2^-50]. *)
Definition decimal_ge (d : decimal) (n : Z) : bool :=
  match d with
  | DNaN => false
  | DInfinity sg => 0 <? sg
  | DFinite sg m e =>
      if sg <? 0 then false
      else if 0 <=? e then n * 2 ^ 50 - 1 <=? m * 10 ^ e * 2 ^ 50
      else (n * 2 ^ 50 - 1) * 10 ^ (- e) <=? m * 2 ^ 50
  end.

(** [Math.round] of a double: the integer nearest to it, ties towards
    +infinity; [None] for [NaN] and the infinities. *)
Definition Math_round (x : float) : option Z :=
  match Prim2SF x with
  | S754_zero _ => Some 0
  | S754_finite s m e =>
      let n := if s then Z.neg m else Z.pos m in
      Some (if 0 <=? e then n * 2 ^ e
            else (2 * n + 2 ^ (- e)) / 2 ^ (- e + 1))
  | S754_infinity _ => None
  | S754_nan => None
  end.

(** An integer below 2^63 as a double. *)
Definition ofZ (z : Z) : float := PrimFloat.of_uint63 (Uint63.of_Z z).

End JS.

Import JS.

(** ** Data model *)

(** A spec: the fields of a classification ([analyzeProductAdvanced]'s
    result) as texts, also the spec part of a product group. *)
Record ProductInfo : Type := mkProductInfo {
  productType : string;
  displaySize : string;
  processor : string;
  storage : string;
  memory : string;
  year : string;
  modelNumber : string;
  category : string;
  deviceFamily : string
}.

(** ** Catalog content generator *)

(** [createAdvancedGroupingKey] *)
Definition isKeyChar (c : ascii) : bool :=
  (isLowerAZ c || isUpperAZ c || isDigit c || Nat.eqb (code c) 95)%bool.

Definition createAdvancedGroupingKey (p : ProductInfo) : string :=
  filterChars isKeyChar
    (joinTruthy "_"
       [ productType p; displaySize p; processor p; storage p; memory p;
         year p ]).

(** [createAdvancedSEOTitle] *)
Definition createAdvancedSEOTitle (p : ProductInfo) : string :=
  let title := "Refurbished " ++ productType p in
  let title :=
    if truthy (displaySize p) then title ++ " " ++ displaySize p else title in
  let title :=
    if truthy (processor p) then
      let cleanProcessor :=
        replaceFirst " Chip" ""
          (replaceFirst " chip" "" (replaceFirst "Apple " "" (processor p))) in
      title ++ " " ++ cleanProcessor
    else title in
  let title := if truthy (year p) then title ++ " " ++ year p else title in
  let specs :=
    ((if truthy (storage p) then [storage p] else []) ++
     (if truthy (memory p) then [memory p] else []))%list in
  let title :=
    match specs with
    | [] => title
    | _ => title ++ " " ++ String.concat " " specs
    end in
  if Nat.ltb 60 (String.length title) then take 57 title ++ "..." else title.

(** [createSEOOptimizedHandle] *)
Definition isHandleChar (c : ascii) : bool :=
  (isLowerAZ c || isDigit c || isHyphen c)%bool.

Definition isDigitOrDot (c : ascii) : bool := (isDigit c || isDot c)%bool.

Definition handleComponents (p : ProductInfo) : list string :=
  [ "refurbished";
    replaceRuns isSpace "-" (toLowerCase (productType p));
    filterChars isDigitOrDot (displaySize p);
    (let l := toLowerCase (processor p) in
     let a := removeAppleSpaces (String.length l) l in
     let c := removeSpacesChip (String.length a) a in
     replaceRuns isSpace "-" c);
    year p;
    toLowerCase (storage p);
    toLowerCase (memory p) ].

Definition createSEOOptimizedHandle (p : ProductInfo) : string :=
  take 255
    (stripEdgeHyphens
       (replaceRuns isHyphen "-"
          (filterChars isHandleChar (joinTruthy "-" (handleComponents p))))).

(** [calculateRetailPrice] *)
Definition retailPrices : list (string * Z) :=
  [ ("MacBook Pro", 2799); ("MacBook Air", 1599); ("MacBook", 1999);
    ("iPad Pro", 1399); ("iPad Air", 899); ("iPad", 579); ("iPad Mini", 699);
    ("iPhone 15", 1129); ("iPhone 14", 999); ("iPhone 13", 849);
    ("iPhone 12", 699); ("iPhone 11", 579); ("iPhone SE", 579);
    ("iPhone", 849); ("iMac", 1799); ("Mac Studio", 2799); ("Mac Mini", 899);
    ("AirPods", 229); ("Magic Mouse", 129); ("Magic Keyboard", 229);
    ("Apple Accessory", 129) ].

(** [n >= k] where [n] may be [NaN]. *)
Definition geNum (n : option Z) (k : Z) : bool :=
  match n with Some v => k <=? v | None => false end.

Definition storageAdjustment (p : ProductInfo) : Z :=
  if truthy (storage p) then
    let storageNum := parseInt (storage p) in
    if geNum storageNum 2000 then 1000
    else if geNum storageNum 1000 then 500
    else if geNum storageNum 512 then 300
    else 0
  else 0.

Definition memoryAdjustment (p : ProductInfo) : Z :=
  if truthy (memory p) then
    let memoryNum := parseInt (memory p) in
    if geNum memoryNum 64 then 1400
    else if geNum memoryNum 32 then 800
    else if geNum memoryNum 16 then 500
    else 0
  else 0.

Definition processorAdjustment (p : ProductInfo) : Z :=
  if includes (processor p) "Max" then 1000
  else if includes (processor p) "Pro" then 500
  else if includes (processor p) "Ultra" then 1500
  else 0.

Definition displayAdjustment (p : ProductInfo) : Z :=
  if truthy (displaySize p) then
    let size := parseFloat (displaySize p) in
    if decimal_ge size 16 then 300
    else if decimal_ge size 15 then 200
    else 0
  else 0.

(** The base price is a number unless the product type names a property
    inherited from [Object.prototype]: then [basePrice] is an object, every
    [+=] concatenates text and [Math.round] yields [NaN]. *)
Definition calculateRetailPrice (p : ProductInfo) : option Z :=
  match getProp retailPrices (productType p) with
  | Inherited _ => None
  | Own basePrice =>
      Some (basePrice + storageAdjustment p + memoryAdjustment p
            + processorAdjustment p + displayAdjustment p)
  | Undefined =>
      Some (999 + storageAdjustment p + memoryAdjustment p
            + processorAdjustment p + displayAdjustment p)
  end.

(** [calculateVariantPrice]: the multiplication is the double-precision
    one. *)
Definition conditionMultipliers : list (string * float) :=
  [ ("A", 0.70%float); ("B", 0.68%float); ("C", 0.66%float);
    ("D", 0.61%float) ].

Definition calculateVariantPrice (p : ProductInfo) (condition : string)
  : option Z :=
  match calculateRetailPrice p with
  | None => None
  | Some retailPrice =>
      match getProp conditionMultipliers condition with
      | Own m => Math_round (PrimFloat.mul (ofZ retailPrice) m)
      | Inherited _ => None
      | Undefined => Math_round (PrimFloat.mul (ofZ retailPrice) 0.70%float)
      end
  end.

(** [calculateComparePrice] *)
Definition calculateComparePrice (p : ProductInfo) (condition : string)
  : option Z :=
  calculateRetailPrice p.

(** [calculateAdvancedPricing] *)
Definition basePrices : list (string * Z) :=
  [ ("MacBook Pro", 2299); ("MacBook Air", 1399); ("MacBook", 1599);
    ("iPad Pro", 1149); ("iPad Air", 779); ("iPad", 449); ("iPad Mini", 649);
    ("iPhone", 899); ("iMac", 1699); ("Mac Studio", 2499); ("Mac Mini", 799);
    ("AirPods", 199); ("Magic Mouse", 99); ("Magic Keyboard", 199);
    ("Apple Accessory", 99) ].

Definition calculateAdvancedPricing (p : ProductInfo) : option Z :=
  let adj :=
    (if truthy (storage p) then
       let storageNum := parseInt (storage p) in
       if geNum storageNum 2000 then 800
       else if geNum storageNum 1000 then 400
       else if geNum storageNum 512 then 200
       else 0
     else 0)
    + (if truthy (memory p) then
         let memoryNum := parseInt (memory p) in
         if geNum memoryNum 64 then 1000
         else if geNum memoryNum 32 then 600
         else if geNum memoryNum 16 then 400
         else 0
       else 0)
    + (if includes (processor p) "Max" then 800
       else if includes (processor p) "Pro" then 400
       else if includes (processor p) "Ultra" then 1200
       else 0) in
  match getProp basePrices (productType p) with
  | Inherited _ => None
  | Own basePrice => Some (basePrice + adj)
  | Undefined => Some (999 + adj)
  end.


(** [createAdvancedCollections] *)
Definition decimal_pos (d : decimal) : bool :=
  match d with
  | DNaN => false
  | DInfinity sg => 0 <? sg
  | DFinite sg m e =>
      (* above half of the least positive double, 2^-1075 *)
      if sg <? 0 then false
      else if 0 <=? e then 0 <? m
      else 10 ^ (- e) <? m * 2 ^ 1075
  end.

Fixpoint dedupe (seen : list string) (l : list string) : list string :=
  match l with
  | [] => []
  | x :: t =>
      if existsb (String.eqb x) seen then dedupe seen t
      else x :: dedupe (x :: seen) t
  end.

Definition createAdvancedCollections (p : ProductInfo) : list string :=
  dedupe []
    ([productType p; category p]
     ++ (if truthy (deviceFamily p) then [deviceFamily p] else [])
     ++ (if truthy (processor p) then
           if includes (processor p) "M3" then ["M3 Chip Devices"]
           else if includes (processor p) "M2" then ["M2 Chip Devices"]
           else if includes (processor p) "M1" then ["M1 Chip Devices"]
           else if includes (processor p) "Intel" then ["Intel Mac"]
           else []
         else [])
     ++ (if truthy (year p) then [(year p ++ " Models")%string] else [])
     ++ (if truthy (displaySize p) then
           let size := parseFloat (displaySize p) in
           if decimal_ge size 15 then ["Large Screen"]
           else if decimal_ge size 13 then ["Standard Screen"]
           else if decimal_pos size then ["Compact"]
           else []
         else [])
     ++ ["Certified Refurbished"; "Apple"])%list.

(** [createAdvancedTags]; [productInfo.keyboardLayout] is not a field of the
    classification, so the keyboard tags are never added. *)
Definition isWordChar (c : ascii) : bool :=
  (isLowerAZ c || isUpperAZ c || isDigit c || Nat.eqb (code c) 95)%bool.

Definition createAdvancedTags (p : ProductInfo) : list string :=
  (["refurbished"; "apple"; "certified"]
   ++ [replaceRuns isSpace "-" (toLowerCase (productType p))]
   ++ (if truthy (processor p) then
         [replaceRuns isSpace "-" (toLowerCase (processor p))]
         ++ (if includes (processor p) "M4" then ["m4-chip"]
             else if includes (processor p) "M3" then ["m3-chip"]
             else if includes (processor p) "M2" then ["m2-chip"]
             else if includes (processor p) "M1" then ["m1-chip"]
             else [])
         ++ (if includes (processor p) "Ultra" then ["ultra-chip"]
             else if includes (processor p) "Max" then ["max-chip"]
             else if includes (processor p) "Pro" then ["pro-chip"]
             else [])
         ++ (if (includes (processor p) "M1" || includes (processor p) "M2"
                 || includes (processor p) "M3" || includes (processor p) "M4")%bool
             then ["apple-silicon"]
             else if includes (processor p) "Intel" then ["intel"]
             else [])
       else [])
   ++ (if truthy (storage p) then [toLowerCase (storage p)] else [])
   ++ (if truthy (memory p)
       then [replaceFirst "gb" "gb-ram" (toLowerCase (memory p))] else [])
   ++ (if truthy (displaySize p)
       then [filterChars isWordChar (toLowerCase (displaySize p))] else [])
   ++ (if truthy (year p) then [year p] else [])
   ++ (if truthy (deviceFamily p)
       then [replaceRuns isSpace "-" (toLowerCase (deviceFamily p))] else [])
   ++ [toLowerCase (category p)]
   ++ ["canada"; "canadian"; "macbook-depot"])%list.

(** ** Variant attributes of a row *)

(** A spreadsheet row: a string-keyed mapping of strings.  A missing column
    reads as [undefined], which every use below replaces by a default with
    [||] exactly as it replaces the empty string. *)
Definition Row : Type := list (string * string).

Definition field (item : Row) (k : string) : string :=
  match assoc k item with Some v => v | None => EmptyString end.

(** A value that is a string, or an object reached through the prototype
    chain ([Object.prototype] itself for [__proto__], one of its functions
    otherwise). *)
Inductive value : Type :=
| VString (s : string)
| VObject (key : string).

(** [`${v}`] *)
Definition toStringValue (v : value) : string :=
  match v with
  | VString s => s
  | VObject k =>
      if String.eqb k "__proto__" then "[object Object]"
      else "function "
           ++ (if String.eqb k "constructor" then "Object" else k)
           ++ "() { [native code] }"
  end.

(** [cleanColor] *)
Definition colorMap : list (string * string) :=
  [ ("space grey", "Space Gray"); ("space gray", "Space Gray");
    ("spacegrey", "Space Gray"); ("spacegray", "Space Gray");
    ("silver", "Silver"); ("gold", "Gold"); ("rose gold", "Rose Gold");
    ("midnight", "Midnight"); ("starlight", "Starlight");
    ("default", "Space Gray") ].

Definition cleanColor (color : string) : value :=
  if negb (truthy color) then VString "Space Gray"
  else
    let cleanedColor := trim (toLowerCase color) in
    match getProp colorMap cleanedColor with
    | Own c => VString c
    | Inherited k => VObject k
    | Undefined => VString (trim color)
    end.

(** Condition grades. *)
Inductive Grade : Type := A | B | C | D.

Definition gradeName (g : Grade) : string :=
  match g with A => "A" | B => "B" | C => "C" | D => "D" end.

Definition Grade_eqb (g h : Grade) : bool :=
  match g, h with
  | A, A | B, B | C, C | D, D => true
  | _, _ => false
  end.

(** [cleanCondition]: the first of the letters A-D in the upper-cased
    text. *)
Fixpoint firstGrade (s : string) : option Grade :=
  match s with
  | EmptyString => None
  | String c t =>
      match code c with
      | 65%nat => Some A
      | 66%nat => Some B
      | 67%nat => Some C
      | 68%nat => Some D
      | _ => firstGrade t
      end
  end.

Definition cleanCondition (condition : string) : Grade :=
  if negb (truthy condition) then A
  else match firstGrade (trim (toUpperCase condition)) with
       | Some g => g
       | None => A
       end.

(** [determineKeyboardLayout].  The second needle is the text of the source
    file, whose first code units are f r a n, then 195 and 167. *)
Definition francaisNeedle : string :=
  "fran" ++ String (ascii_of_nat 195) (String (ascii_of_nat 167) "ais").

Definition determineKeyboardLayout (item : Row) : string :=
  let allText :=
    toLowerCase (field item "Model" ++ " " ++ field item "Comments" ++ " "
                 ++ field item "Processor") in
  if (includes allText "french" || includes allText francaisNeedle
      || includes allText "fr-ca" || includes allText "canadian french")%bool
  then "French Canadian" else "English".

(** [createAdvancedSKU]; [None] is the [TypeError] raised by
    [color.substring] when the colour is not a string. *)
Definition createAdvancedSKU (p : ProductInfo) (color : value)
    (condition : Grade) (keyboardLayout : string) : option string :=
  match color with
  | VObject _ => None
  | VString c =>
      Some (joinTruthy "-"
        [ toUpperCase (take 4 (filterChars (fun x => negb (isSpace x)) (productType p)));
          (if truthy (displaySize p)
           then take 2 (filterChars isDigit (displaySize p)) else EmptyString);
          (if truthy (processor p)
           then toUpperCase (take 3 (filterChars (fun x => negb (isSpace x)) (processor p)))
           else EmptyString);
          (if truthy (storage p) then filterChars isDigit (storage p)
           else EmptyString);
          toUpperCase (take 2 c);
          toUpperCase (gradeName condition);
          (if String.eqb keyboardLayout "French Canadian" then "FR" else "EN") ])
  end.

(** [getAdvancedConditionDescription] *)
Definition getAdvancedConditionDescription (g : Grade) : string :=
  match g with
  | A => "Excellent condition - Like new appearance with minimal wear. Perfect for professionals who want the best."
  | B => "Very good condition - Light cosmetic wear but excellent functionality. Great balance of value and quality."
  | C => "Good condition - Visible wear but fully functional. Ideal for budget-conscious buyers who want reliability."
  | D => "Fair condition - Heavy wear but guaranteed functionality. Maximum savings for those who prioritize price."
  end.

(** ** Product groups *)

(** One serialized unit.  [dateAdded] (the clock) is not modelled. *)
Record StockItem : Type := mkStockItem {
  stockId : string;
  serialNumber : string;
  comments : string;
  condition : Grade;
  color : value;
  keyboardLayout : string;
  originalData : Row
}.

Record VariantBucket : Type := mkVariantBucket {
  vColor : value;
  vCondition : Grade;
  vKeyboardLayout : string;
  conditionDescription : string;
  quantity : Z;
  vStockItems : list StockItem;
  sku : string;
  price : option Z;
  compareAtPrice : option Z
}.

(** A JavaScript object used as a map, in insertion order. *)
Definition Obj (V : Type) : Type := list (string * V).

(** [o[k] = v] *)
Fixpoint setProp {V : Type} (k : string) (v : V) (o : Obj V) : Obj V :=
  match o with
  | [] => [(k, v)]
  | (k', v') :: t =>
      if String.eqb k k' then (k, v) :: t else (k', v') :: setProp k v t
  end.

(** A product group.  [info] holds the spec fields copied from the
    classification of the row that created the group.  The two description
    texts are rewritten when the fold is over and are modelled on their own
    below; [shopifyProductId] is [null] and [lastUpdated] is the clock. *)
Record ProductGroup : Type := mkProductGroup {
  info : ProductInfo;
  seoTitle : string;
  seoHandle : string;
  basePrice : option Z;
  retailPrice : option Z;
  collections : list string;
  tags : list string;
  totalUnits : Z;
  variants : Obj VariantBucket;
  stockItems : list StockItem
}.

Definition newGroup (productInfo : ProductInfo) : ProductGroup :=
  {| info := productInfo;
     seoTitle := createAdvancedSEOTitle productInfo;
     seoHandle := createSEOOptimizedHandle productInfo;
     basePrice := calculateAdvancedPricing productInfo;
     retailPrice := calculateRetailPrice productInfo;
     collections := createAdvancedCollections productInfo;
     tags := createAdvancedTags productInfo;
     totalUnits := 0;
     variants := [];
     stockItems := [] |}.

(** The literal that initialises a variant; [None] when building it
    throws. *)
Definition newVariant (productInfo : ProductInfo) (color : value)
    (condition : Grade) (keyboardLayout : string) : option VariantBucket :=
  match createAdvancedSKU productInfo color condition keyboardLayout with
  | None => None
  | Some sku =>
      Some {| vColor := color;
              vCondition := condition;
              vKeyboardLayout := keyboardLayout;
              conditionDescription := getAdvancedConditionDescription condition;
              quantity := 0;
              vStockItems := [];
              sku := sku;
              price := calculateVariantPrice productInfo (gradeName condition);
              compareAtPrice :=
                calculateComparePrice productInfo (gradeName condition) |}
  end.

(** [bucket.stockItems.push(item); bucket.quantity++] *)
Definition addToBucket (item : StockItem) (b : VariantBucket) : VariantBucket :=
  {| vColor := vColor b;
     vCondition := vCondition b;
     vKeyboardLayout := vKeyboardLayout b;
     conditionDescription := conditionDescription b;
     quantity := quantity b + 1;
     vStockItems := vStockItems b ++ [item];
     sku := sku b;
     price := price b;
     compareAtPrice := compareAtPrice b |}.

(** The four updates that close the loop body: the bucket gets the unit and
    its count, then the group gets the unit and its count. *)
Definition addToGroup (variantKey : string) (b : VariantBucket)
    (item : StockItem) (g : ProductGroup) : ProductGroup :=
  {| info := info g;
     seoTitle := seoTitle g;
     seoHandle := seoHandle g;
     basePrice := basePrice g;
     retailPrice := retailPrice g;
     collections := collections g;
     tags := tags g;
     totalUnits := totalUnits g + 1;
     variants := setProp variantKey (addToBucket item b) (variants g);
     stockItems := stockItems g ++ [item] |}.

Definition variantKeyOf (color : value) (condition : Grade)
    (keyboardLayout : string) : string :=
  toStringValue color ++ "-" ++ gradeName condition ++ "-" ++ keyboardLayout.

Definition rowColor (item : Row) : value :=
  cleanColor (orElse (field item "Color")
                (orElse (field item "color") "Space Gray")).

Definition rowCondition (item : Row) : Grade :=
  cleanCondition (orElse (field item "Condition")
                    (orElse (field item "condition") "A")).

Definition rowStockItem (item : Row) : StockItem :=
  {| stockId := orElse (field item "Stock") (field item "stock");
     serialNumber :=
       orElse (field item "Serial Number")
         (orElse (field item "serial") (field item "Serial"));
     comments := orElse (field item "Comments") (field item "comments");
     condition := rowCondition item;
     color := rowColor item;
     keyboardLayout := determineKeyboardLayout item;
     originalData := item |}.

Section Grouping.

(** The row classifier, [analyzeProductAdvanced] with what the loop can use
    of its result: [None] when the row is not recognised (it returns
    [null]), when classifying it throws, or when its result cannot be made
    a group (see [groupableSpec]); the loop body skips the row in all these
    cases before it has changed anything. *)
Variable analyzeProductAdvanced : Row -> option ProductInfo.

(** The body of [appleProducts.forEach] in [createProductGroups], with its
    [try]/[catch]: an exception ends the body and keeps what was written
    before it. *)
Definition processItem (productGroups : Obj ProductGroup) (item : Row)
  : Obj ProductGroup :=
  match analyzeProductAdvanced item with
  | None => productGroups
  | Some productInfo =>
      let groupKey := createAdvancedGroupingKey productInfo in
      match getProp productGroups groupKey with
      | Inherited _ =>
          (* truthy, so no group is created; its [.variants] is undefined
             and indexing it throws *)
          productGroups
      | found =>
          let group :=
            match found with Own g => g | _ => newGroup productInfo end in
          let productGroups1 :=
            match found with
            | Own _ => productGroups
            | _ => setProp groupKey group productGroups
            end in
          let color := rowColor item in
          let condition := rowCondition item in
          let keyboardLayout := determineKeyboardLayout item in
          let variantKey := variantKeyOf color condition keyboardLayout in
          let stockItem := rowStockItem item in
          match getProp (variants group) variantKey with
          | Inherited _ => productGroups1
          | Own bucket =>
              setProp groupKey (addToGroup variantKey bucket stockItem group)
                productGroups1
          | Undefined =>
              match newVariant productInfo color condition keyboardLayout with
              | None => productGroups1
              | Some bucket =>
                  setProp groupKey
                    (addToGroup variantKey bucket stockItem group)
                    productGroups1
              end
          end
      end
  end.

(** [createProductGroups(appleProducts).productGroups] *)
Definition createProductGroups (appleProducts : list Row) : Obj ProductGroup :=
  fold_left processItem appleProducts [].

End Grouping.

(** *** The statistics of [createProductGroups] *)

(** An entry of [categories]: a count, or the text that [+ 1] makes of a
    value that is not a number. *)
Inductive tally : Type :=
| Count (n : Z)
| Text (s : string).

(** [categories[productType] = (categories[productType] || 0) + 1].  A value
    found in [Object.prototype] is truthy and not a number: the sum is its
    text followed by 1, kept as an own property, except under [__proto__],
    where an assignment of a text changes nothing. *)
Definition countCategory (categories : Obj tally) (productType : string)
  : Obj tally :=
  match getProp categories productType with
  | Own (Count n) => setProp productType (Count (n + 1)) categories
  | Own (Text s) => setProp productType (Text (s ++ "1")) categories
  | Inherited k =>
      if String.eqb k "__proto__" then categories
      else setProp productType (Text (toStringValue (VObject k) ++ "1"))
             categories
  | Undefined => setProp productType (Count 1) categories
  end.

Section GroupingStatistics.

Variable analyzeProductAdvanced : Row -> option ProductInfo.

(** The body of [appleProducts.forEach] again, with the map of categories
    that it counts in once the unit is in its group. *)
Definition processItemCounting (state : Obj ProductGroup * Obj tally)
    (item : Row) : Obj ProductGroup * Obj tally :=
  let (productGroups, categories) := state in
  match analyzeProductAdvanced item with
  | None => state
  | Some productInfo =>
      let groupKey := createAdvancedGroupingKey productInfo in
      match getProp productGroups groupKey with
      | Inherited _ => state
      | found =>
          let group :=
            match found with Own g => g | _ => newGroup productInfo end in
          let productGroups1 :=
            match found with
            | Own _ => productGroups
            | _ => setProp groupKey group productGroups
            end in
          let color := rowColor item in
          let condition := rowCondition item in
          let keyboardLayout := determineKeyboardLayout item in
          let variantKey := variantKeyOf color condition keyboardLayout in
          let stockItem := rowStockItem item in
          let counted (bucket : VariantBucket) :=
            (setProp groupKey (addToGroup variantKey bucket stockItem group)
               productGroups1,
             countCategory categories (productType productInfo)) in
          match getProp (variants group) variantKey with
          | Inherited _ => (productGroups1, categories)
          | Own bucket => counted bucket
          | Undefined =>
              match newVariant productInfo color condition keyboardLayout with
              | None => (productGroups1, categories)
              | Some bucket => counted bucket
              end
          end
      end
  end.

(** What [createProductGroups] returns.  The two descriptions that it
    writes again into every group after the loop are texts of the groups
    that this record of a group does not hold. *)
Record GroupingResult : Type := mkGroupingResult {
  productGroups : Obj ProductGroup;
  categories : Obj tally;
  totalItems : Z;
  groupCount : Z;
  totalUniqueUnits : Z
}.

Definition createProductGroupsResult (appleProducts : list Row)
  : GroupingResult :=
  let (productGroups, categories) :=
    fold_left processItemCounting appleProducts ([], []) in
  {| productGroups := productGroups;
     categories := categories;
     totalItems := Z.of_nat (length appleProducts);
     groupCount := Z.of_nat (length productGroups);
     totalUniqueUnits :=
       fold_left (fun sum kg => sum + totalUnits (snd kg)) productGroups 0 |}.

End GroupingStatistics.

(** ** [Array.prototype.sort]

    The engine's sort for an array below 64 elements: it finds the run that
    starts the array (reversing it when it descends) and inserts the other
    elements one by one at the position a binary search gives.  The compare
    function may answer differently from one call to the next, so [less]
    receives the number of calls made before: [less n a b] tells whether the
    call [comparefn(a, b)], the n-th one, returns a negative number.  Beyond
    63 elements the engine sorts several such runs and merges them; that
    part is not modelled. *)

Section ArraySort.

Context {T : Type}.
Variable less : nat -> T -> T -> bool.

Fixpoint extendRun (descending : bool) (previous : T) (rest : list T)
    (n runLength : nat) : nat * nat :=
  match rest with
  | [] => (runLength, n)
  | current :: rest' =>
      let lt := less n current previous in
      if (if descending then negb lt else lt)
      then (runLength, S n)
      else extendRun descending current rest' (S n) (S runLength)
  end.

Definition countAndMakeRun (l : list T) (n : nat) : list T * nat * nat :=
  match l with
  | low :: next :: rest =>
      let descending := less n next low in
      let (runLength, n') := extendRun descending next rest (S n) 2 in
      let run := firstn runLength l in
      (((if descending then rev run else run) ++ skipn runLength l)%list,
       runLength, n')
  | _ => (l, length l, n)
  end.

Fixpoint binarySearch (fuel : nat) (pivot : T) (work : list T)
    (left right n : nat) : nat * nat :=
  match fuel with
  | O => (left, n)
  | S f =>
      if Nat.ltb left right then
        let mid := (left + (right - left) / 2)%nat in
        match nth_error work mid with
        | Some x =>
            if less n pivot x
            then binarySearch f pivot work left mid (S n)
            else binarySearch f pivot work (S mid) right (S n)
        | None => (left, n)
        end
      else (left, n)
  end.

Fixpoint binaryInsertionSort (sorted rest : list T) (n : nat) : list T * nat :=
  match rest with
  | [] => (sorted, n)
  | pivot :: rest' =>
      let (left, n') :=
        binarySearch (S (length sorted)) pivot sorted 0 (length sorted) n in
      binaryInsertionSort
        (firstn left sorted ++ pivot :: skipn left sorted)%list rest' n'
  end.

(** The sorted array and the number of calls of the compare function. *)
Definition arraySort (l : list T) (n : nat) : list T * nat :=
  match l with
  | [] | [_] => (l, n)
  | _ =>
      let '(work, runLength, n') := countAndMakeRun l n in
      binaryInsertionSort (firstn runLength work) (skipn runLength work) n'
  end.

End ArraySort.

(** ** The reconciler

    The sync endpoint reads the product groups from the request body: the
    JSON text of the groups above.  Its records hold what the reconciler
    reads, with the types of the spec's data model (text fields are strings,
    counts are integers, [totalUnits] may be absent). *)

Module Sync.

Record StockItem : Type := mkStockItem {
  stockId : string;
  serialNumber : string;
  condition : string;
  color : string;
  keyboardLayout : string
}.

Record VariantBucket : Type := mkVariantBucket {
  vColor : string;
  vCondition : string;
  vKeyboardLayout : string;
  quantity : Z
}.

Record Image : Type := mkImage {
  url : string;
  filename : string
}.

Record ImageAvailability : Type := mkImageAvailability {
  hasImages : bool;
  bestMatch : option (list Image)
}.

Record ProductGroup : Type := mkProductGroup {
  info : ProductInfo;
  seoTitle : string;
  productDescription : string;
  seoDescription : string;
  tags : list string;
  collections : list string;
  basePrice : Z;
  totalUnits : option Z;
  variants : Obj VariantBucket;
  stockItems : list StockItem;
  imageAvailability : option ImageAvailability
}.

(** *** [createAdvancedVariants] *)

(** An entry of [variantMap]. *)
Record Aggregate : Type := mkAggregate {
  aColor : string;
  aCondition : string;
  aKeyboardLayout : string;
  aQuantity : Z;
  aStockItems : list StockItem;
  skus : list string;
  barcodes : list string
}.

(** A variant in the form the catalog API takes.  [price] is the number
    whose text is sent ([None] is [NaN]); [compare_at_price] and [barcode]
    may be absent.  The constant fields (inventory policy, weight, shipping
    and tax flags) are left out. *)
Record Variant : Type := mkVariant {
  title : string;
  option1 : string;
  option2 : string;
  option3 : string;
  inventory_quantity : Z;
  sku : string;
  barcode : option string;
  price : option Z;
  compare_at_price : option Z
}.

Definition hasIds (stockItem : StockItem) : bool :=
  (truthy (stockId stockItem) && truthy (serialNumber stockItem))%bool.

Definition variantKey (stockItem : StockItem) : string :=
  color stockItem ++ "|" ++ condition stockItem ++ "|"
  ++ keyboardLayout stockItem.

(** The body of [productGroup.stockItems.forEach].  The key holds two bars,
    so [variantMap[variantKey]] never reaches an inherited property. *)
Definition aggregate (variantMap : Obj Aggregate) (stockItem : StockItem)
  : Obj Aggregate :=
  if negb (hasIds stockItem) then variantMap
  else
    let key := variantKey stockItem in
    let entry :=
      match assoc key variantMap with
      | Some e => e
      | None =>
          {| aColor := color stockItem;
             aCondition := condition stockItem;
             aKeyboardLayout := keyboardLayout stockItem;
             aQuantity := 0;
             aStockItems := [];
             skus := [];
             barcodes := [] |}
      end in
    setProp key
      {| aColor := aColor entry;
         aCondition := aCondition entry;
         aKeyboardLayout := aKeyboardLayout entry;
         aQuantity := aQuantity entry + 1;
         aStockItems := (aStockItems entry ++ [stockItem])%list;
         skus := (skus entry ++ [stockId stockItem])%list;
         barcodes := (barcodes entry ++ [serialNumber stockItem])%list |}
      variantMap.

Definition gtNum (a b : option Z) : bool :=
  match a, b with
  | Some x, Some y => y <? x
  | _, _ => false
  end.

Definition toShopifyVariant (productGroup : ProductGroup) (e : Aggregate)
  : Variant :=
  let price := calculateVariantPrice (info productGroup) (aCondition e) in
  let compareAtPrice :=
    calculateComparePrice (info productGroup) (aCondition e) in
  {| title := aColor e ++ " - Grade " ++ aCondition e ++ " - "
              ++ aKeyboardLayout e;
     option1 := aColor e;
     option2 := "Grade " ++ aCondition e;
     option3 := aKeyboardLayout e;
     inventory_quantity := aQuantity e;
     sku := String.concat "-" (skus e);
     barcode := hd_error (barcodes e);
     price := price;
     compare_at_price :=
       if gtNum compareAtPrice price then compareAtPrice else None |}.

(** [createVariantSKU] *)
(** [s.slice(-n)] *)
Definition lastN (n : nat) (s : string) : string :=
  drop (String.length s - n) s.

Definition createVariantSKU (productGroup : ProductGroup)
    (color condition keyboardLayout stockId : string) : string :=
  let p := info productGroup in
  joinTruthy "-"
    [ (if truthy (productType p)
       then toUpperCase
              (take 4 (filterChars (fun x => negb (isSpace x)) (productType p)))
       else "PROD");
      (if truthy (displaySize p)
       then take 2 (filterChars isDigit (displaySize p)) else EmptyString);
      (if truthy (processor p)
       then toUpperCase
              (take 3 (filterChars (fun x => negb (isSpace x)) (processor p)))
       else EmptyString);
      (if truthy (storage p) then filterChars isDigit (storage p)
       else EmptyString);
      (if truthy color then toUpperCase (take 2 color) else "SG");
      (if truthy condition then toUpperCase condition else "A");
      (if String.eqb keyboardLayout "French Canadian" then "FR" else "EN");
      (if truthy stockId then lastN 4 stockId else EmptyString) ].

Definition defaultVariant (productGroup : ProductGroup) : Variant :=
  {| title := "Default - Grade A - English";
     option1 := "Space Gray";
     option2 := "Grade A";
     option3 := "English";
     inventory_quantity :=
       match totalUnits productGroup with Some n => n | None => 0 end;
     sku := createVariantSKU productGroup "Space Gray" "A" "English" "";
     barcode := None;
     price := Some (basePrice productGroup);
     compare_at_price := None |}.

Section Variants.

(** [String.prototype.localeCompare]: the collation of the host's locale. *)
Variable localeCompare : string -> string -> Z.

Definition compareVariants (a b : Variant) : Z :=
  if negb (String.eqb (option1 a) (option1 b))
  then localeCompare (option1 a) (option1 b)
  else if negb (String.eqb (option2 a) (option2 b))
  then localeCompare (option2 a) (option2 b)
  else localeCompare (option3 a) (option3 b).

Definition createAdvancedVariants (productGroup : ProductGroup)
  : list Variant :=
  let variantMap := fold_left aggregate (stockItems productGroup) [] in
  let variants := map (fun kv => toShopifyVariant productGroup (snd kv))
                    variantMap in
  let sorted :=
    fst (arraySort (fun _ a b => compareVariants a b <? 0) variants 0) in
  match sorted with
  | [] => [defaultVariant productGroup]
  | _ => sorted
  end.

End Variants.

(** *** The catalog API

    A remote product as [GET products.json] returns it. *)

Record RemoteVariant : Type := mkRemoteVariant {
  rvId : Z;
  rvOption1 : option string;
  rvOption2 : option string;
  rvOption3 : option string;
  rvInventoryQuantity : option Z
}.

Record RemoteProduct : Type := mkRemoteProduct {
  rpId : Z;
  rpTitle : string;
  rpVariants : list RemoteVariant
}.

(** The body of [POST products.json]. *)
Record ProductData : Type := mkProductData {
  pdTitle : string;
  pdBodyHtml : string;
  pdProductType : string;
  pdHandle : string;
  pdColorOptions : list string;
  pdConditionOptions : list string;
  pdKeyboardOptions : list string;
  pdVariants : list Variant;
  pdTags : string;
  pdSeoDescription : string
}.

Inductive request : Type :=
| PutProduct (productId : Z) (title body_html tags seo_description : string)
| PutVariant (variantId : Z) (inventory_quantity : Z) (price : option Z)
    (compare_at_price : option Z) (sku : string)
| PostVariant (productId : Z) (v : Variant)
| PostProduct (data : ProductData)
| PostImage (productId : Z) (src filename : string)
| PostCollect (productId : Z) (collectionId : option Z).

(** What a request gets: a success whose body names an entity [id], a
    response that is not [ok], or no response (the promise is rejected). *)
Inductive response : Type :=
| Ok (id : Z)
| Status (code : Z)
| Rejected.

Inductive error : Type :=
| ProductUpdateFailed (code : Z)
| VariantUpdateFailed (code : Z)
| VariantCreationFailed (code : Z)
| ProductCreateFailed (code : Z)
| FetchFailed.

(** A computation that sends requests: from the requests sent so far to the
    requests sent after it, with its value or the error it throws. *)
Definition Run (X : Type) : Type :=
  list request -> list request * (X + error).

Definition ret {X : Type} (x : X) : Run X := fun trace => (trace, inl x).

Definition throw {X : Type} (e : error) : Run X := fun trace => (trace, inr e).

Definition bind {X Y : Type} (m : Run X) (k : X -> Run Y) : Run Y :=
  fun trace =>
    match m trace with
    | (trace', inl x) => k x trace'
    | (trace', inr e) => (trace', inr e)
    end.

(** [try { m } catch (e) { handler(e) }] *)
Definition catch {X : Type} (m : Run X) (handler : error -> Run X) : Run X :=
  fun trace =>
    match m trace with
    | (trace', inl x) => (trace', inl x)
    | (trace', inr e) => handler e trace'
    end.

Notation "x <- m ;; k" := (bind m (fun x => k))
  (at level 61, m at next level, right associativity).

Section Reconciler.

Variable localeCompare : string -> string -> Z.

(** The store: the response to the n-th request of the run. *)
Variable net : nat -> response.

(** [await fetch(...)] *)
Definition fetch (r : request) : Run response :=
  fun trace =>
    ((trace ++ [r])%list,
     match net (length trace) with
     | Rejected => inr FetchFailed
     | resp => inl resp
     end).

(** [findExistingProductAdvanced] *)
Definition findExistingProductAdvanced (existingProducts : list RemoteProduct)
    (productGroup : ProductGroup) : option RemoteProduct :=
  let searchTitle := toLowerCase (seoTitle productGroup) in
  find (fun product => String.eqb (toLowerCase (rpTitle product)) searchTitle)
    existingProducts.

Definition optionIs (o : option string) (s : string) : bool :=
  match o with Some t => String.eqb t s | None => false end.

Definition sameOptions (newVariant : Variant) (v : RemoteVariant) : bool :=
  (optionIs (rvOption1 v) (option1 newVariant)
   && optionIs (rvOption2 v) (option2 newVariant)
   && optionIs (rvOption3 v) (option3 newVariant))%bool.

(** [existingVariant.inventory_quantity || 0] *)
Definition currentInventory (v : RemoteVariant) : Z :=
  match rvInventoryQuantity v with Some q => q | None => 0 end.

(** The loop over [newVariants] in [updateExistingProductAdvanced]: the
    counts of variants updated and created so far are carried along. *)
Fixpoint updateVariants (existingProduct : RemoteProduct)
    (newVariants : list Variant) (variantsUpdated variantsCreated : Z)
  : Run (Z * Z) :=
  match newVariants with
  | [] => ret (variantsUpdated, variantsCreated)
  | newVariant :: rest =>
      match find (sameOptions newVariant) (rpVariants existingProduct) with
      | Some existingVariant =>
          let newInventory :=
            currentInventory existingVariant + inventory_quantity newVariant in
          resp <- fetch (PutVariant (rvId existingVariant) newInventory
                           (price newVariant) (compare_at_price newVariant)
                           (sku newVariant)) ;;
          match resp with
          | Ok _ =>
              updateVariants existingProduct rest (variantsUpdated + 1)
                variantsCreated
          | Status code => throw (VariantUpdateFailed code)
          | Rejected => throw FetchFailed
          end
      | None =>
          resp <- fetch (PostVariant (rpId existingProduct) newVariant) ;;
          match resp with
          | Ok _ =>
              updateVariants existingProduct rest variantsUpdated
                (variantsCreated + 1)
          | Status code => throw (VariantCreationFailed code)
          | Rejected => throw FetchFailed
          end
      end
  end.

Record UpdateResult : Type := mkUpdateResult {
  urVariantsUpdated : Z;
  urStockItemsProcessed : option Z
}.

(** [updateExistingProductAdvanced] *)
Definition updateExistingProductAdvanced (existingProduct : RemoteProduct)
    (productGroup : ProductGroup) : Run UpdateResult :=
  resp <- fetch (PutProduct (rpId existingProduct) (seoTitle productGroup)
                   (productDescription productGroup)
                   (String.concat ", " (tags productGroup))
                   (seoDescription productGroup)) ;;
  match resp with
  | Status code => throw (ProductUpdateFailed code)
  | Rejected => throw FetchFailed
  | Ok _ =>
      let newVariants := createAdvancedVariants localeCompare productGroup in
      counts <- updateVariants existingProduct newVariants 0 0 ;;
      ret {| urVariantsUpdated := fst counts;
             urStockItemsProcessed := totalUnits productGroup |}
  end.

(** [uploadProductImages]: at most eight images, one request each; a
    failure of one request is logged and the loop goes on. *)
Fixpoint uploadImages (productId : Z) (images : list Image) (uploaded : Z)
  : Run Z :=
  match images with
  | [] => ret uploaded
  | image :: rest =>
      n <- catch
             (resp <- fetch (PostImage productId (url image) (filename image)) ;;
              match resp with
              | Ok _ => ret (uploaded + 1)
              | _ => ret uploaded
              end)
             (fun _ => ret uploaded) ;;
      uploadImages productId rest n
  end.

Definition uploadProductImages (productId : Z) (bestMatch : option (list Image))
  : Run Z :=
  match bestMatch with
  | None => ret 0
  | Some images => uploadImages productId (firstn 8 images) 0
  end.

(** [addProductToCollectionsAdvanced]; [collectionsMap] maps the lower-cased
    name of a collection to its id.  An id that is 0 is falsy, as a missing
    one: nothing is sent for it.  An id found through the prototype chain is
    a function, which is truthy and has no JSON text: the request is sent
    without a collection id. *)
Fixpoint addProductToCollectionsAdvanced (productId : Z)
    (collectionNames : list string) (collectionsMap : Obj Z) : Run unit :=
  match collectionNames with
  | [] => ret tt
  | collectionName :: rest =>
      let collect (collectionId : option Z) :=
        _ <- catch (_ <- fetch (PostCollect productId collectionId) ;; ret tt)
               (fun _ => ret tt) ;;
        addProductToCollectionsAdvanced productId rest collectionsMap in
      match getProp collectionsMap (toLowerCase collectionName) with
      | Own collectionId =>
          if Z.eqb collectionId 0
          then addProductToCollectionsAdvanced productId rest collectionsMap
          else collect (Some collectionId)
      | Inherited _ => collect None
      | Undefined =>
          addProductToCollectionsAdvanced productId rest collectionsMap
      end
  end.

Record CreateResult : Type := mkCreateResult {
  crProductId : Z;
  crVariantsCreated : Z;
  crStockItemsProcessed : option Z
}.

(** [[...new Set(xs)]] *)
Definition distinct (xs : list string) : list string := dedupe [] xs.

Definition productDataOf (productGroup : ProductGroup) : ProductData :=
  let variants := createAdvancedVariants localeCompare productGroup in
  {| pdTitle := seoTitle productGroup;
     pdBodyHtml := productDescription productGroup;
     pdProductType := productType (info productGroup);
     pdHandle := createSEOOptimizedHandle (info productGroup);
     pdColorOptions := distinct (map option1 variants);
     pdConditionOptions := distinct (map option2 variants);
     pdKeyboardOptions := distinct (map option3 variants);
     pdVariants := variants;
     pdTags := String.concat ", " (tags productGroup);
     pdSeoDescription := seoDescription productGroup |}.

(** [createNewProductAdvanced] *)
Definition createNewProductAdvanced (productGroup : ProductGroup)
    (collectionsMap : Obj Z) : Run CreateResult :=
  let productData := productDataOf productGroup in
  resp <- fetch (PostProduct productData) ;;
  match resp with
  | Status code => throw (ProductCreateFailed code)
  | Rejected => throw FetchFailed
  | Ok productId =>
      _ <- match imageAvailability productGroup with
           | Some availability =>
               if hasImages availability
               then uploadProductImages productId (bestMatch availability)
               else ret 0
           | None => ret 0
           end ;;
      _ <- addProductToCollectionsAdvanced productId
             (collections productGroup) collectionsMap ;;
      ret {| crProductId := productId;
             crVariantsCreated := Z.of_nat (length (pdVariants productData));
             crStockItemsProcessed := totalUnits productGroup |}
  end.

(** *** The sync loop *)

Inductive detail : Type :=
| Updated (title : string) (variantsUpdated : Z) (items : option Z)
| UpdateFailedSkipped (title : string) (e : error)
| Created (title : string) (variantsCreated : Z) (items : option Z)
| CreateFailed (title : string) (e : error)
| ErrorWith (title : string) (e : error).

(** A sum of numbers one of which may be [undefined] (the sum is then
    [NaN]). *)
Definition addNum (a b : option Z) : option Z :=
  match a, b with
  | Some x, Some y => Some (x + y)
  | _, _ => None
  end.

Record Results : Type := mkResults {
  created : Z;
  updated : Z;
  errors : Z;
  skipped : Z;
  details : list detail;
  variantsCreated : Z;
  variantsUpdated : Z;
  stockItemsProcessed : option Z
}.

Definition noResults : Results :=
  {| created := 0; updated := 0; errors := 0; skipped := 0; details := [];
     variantsCreated := 0; variantsUpdated := 0;
     stockItemsProcessed := Some 0 |}.

Definition recordUpdated (r : Results) (g : ProductGroup) (u : UpdateResult)
  : Results :=
  {| created := created r;
     updated := updated r + 1;
     errors := errors r;
     skipped := skipped r;
     details := (details r
                 ++ [Updated (seoTitle g) (urVariantsUpdated u)
                       (urStockItemsProcessed u)])%list;
     variantsCreated := variantsCreated r;
     variantsUpdated := variantsUpdated r + urVariantsUpdated u;
     stockItemsProcessed :=
       addNum (stockItemsProcessed r) (urStockItemsProcessed u) |}.

Definition recordCreated (r : Results) (g : ProductGroup) (c : CreateResult)
  : Results :=
  {| created := created r + 1;
     updated := updated r;
     errors := errors r;
     skipped := skipped r;
     details := (details r
                 ++ [Created (seoTitle g) (crVariantsCreated c)
                       (crStockItemsProcessed c)])%list;
     variantsCreated := variantsCreated r + crVariantsCreated c;
     variantsUpdated := variantsUpdated r;
     stockItemsProcessed :=
       addNum (stockItemsProcessed r) (crStockItemsProcessed c) |}.

Definition recordError (r : Results) (d : detail) : Results :=
  {| created := created r;
     updated := updated r;
     errors := errors r + 1;
     skipped := skipped r;
     details := (details r ++ [d])%list;
     variantsCreated := variantsCreated r;
     variantsUpdated := variantsUpdated r;
     stockItemsProcessed := stockItemsProcessed r |}.

Variable existingProducts : list RemoteProduct.
Variable collectionsMap : Obj Z.

(** The body of the loop over the product groups in
    [POST /api/sync-shopify]. *)
Definition syncGroup (results : Results) (productGroup : ProductGroup)
  : Run Results :=
  catch
    (match findExistingProductAdvanced existingProducts productGroup with
     | Some existingProduct =>
         catch
           (updateResult <-
              updateExistingProductAdvanced existingProduct productGroup ;;
            ret (recordUpdated results productGroup updateResult))
           (fun updateError =>
              (* not retried as a create *)
              ret (recordError results
                     (UpdateFailedSkipped (seoTitle productGroup) updateError)))
     | None =>
         catch
           (createResult <-
              createNewProductAdvanced productGroup collectionsMap ;;
            ret (recordCreated results productGroup createResult))
           (fun createError =>
              ret (recordError results
                     (CreateFailed (seoTitle productGroup) createError)))
     end)
    (fun e => ret (recordError results (ErrorWith (seoTitle productGroup) e))).

Fixpoint syncGroups (productGroups : list ProductGroup) (results : Results)
  : Run Results :=
  match productGroups with
  | [] => ret results
  | productGroup :: rest =>
      results' <- syncGroup results productGroup ;;
      syncGroups rest results'
  end.

End Reconciler.

End Sync.

(** ** Before the loop: the products and the collections of the store

    [getAllExistingProductsAdvanced] and [setupCollectionsAdvanced] read the
    store before the loop starts.  Their requests and the answers they get
    are of their own kinds. *)

Module Setup.

Record Collection : Type := mkCollection {
  cId : Z;
  cTitle : string
}.

(** The JSON body of an answer: the fields that the two functions read,
    each of which may be absent. *)
Record Body : Type := mkBody {
  products : option (list Sync.RemoteProduct);
  custom_collections : option (list Collection);
  custom_collection : option Z
}.

Inductive call : Type :=
| GetProducts (pageInfo : option string)
| GetCollections
| PostCollection (title handle : string).

(** An answer: [ok] with its body and its [Link] header, not [ok], or none
    (the promise is rejected). *)
Inductive reply : Type :=
| Answer (body : Body) (link : option string)
| NotOk (code : Z)
| NoReply.

Inductive failure : Type :=
| FetchProductsFailed (code : Z)
| FetchCollectionsFailed (code : Z)
| NoAnswer.

(** *** The [Link] header *)

Definition isGt (c : ascii) : bool := Nat.eqb (code c) 62.
Definition isLt (c : ascii) : bool := Nat.eqb (code c) 60.
Definition isAmp (c : ascii) : bool := Nat.eqb (code c) 38.
Definition isSemicolon (c : ascii) : bool := Nat.eqb (code c) 59.
Definition isQuestionOrAmp (c : ascii) : bool :=
  (Nat.eqb (code c) 63 || isAmp c)%bool.

Definition relNext : string := "rel=" ++ dquote ++ "next" ++ dquote.

(** [[^>]*[?&]page_info=([^&>]+)[^>]*] on the text between [<] and the
    next [>]: the first filler is greedy, so the last place where the
    parameter starts and has a value is the one that is read. *)
Fixpoint lastPageInfo (segment : string) : option string :=
  match segment with
  | EmptyString => None
  | String c t =>
      match lastPageInfo t with
      | Some value => Some value
      | None =>
          if (isQuestionOrAmp c && String.prefix "page_info=" t
              && startsWith (fun x => negb (isAmp x)) (drop 10 t))%bool
          then Some (takeWhile (fun x => negb (isAmp x)) (drop 10 t))
          else None
      end
  end.

(** [linkHeader.match(/<[^>]*[?&]page_info=([^&>]+)[^>]*>;\s*rel="next"/)]:
    the first group of the leftmost match. *)
Fixpoint nextMatch (linkHeader : string) : option string :=
  match linkHeader with
  | EmptyString => None
  | String c t =>
      let here :=
        if isLt c then
          match dropWhile (fun x => negb (isGt x)) t with
          | String _ rest =>
              if (startsWith isSemicolon rest
                  && String.prefix relNext (dropWhile isSpace (drop 1 rest)))%bool
              then lastPageInfo (takeWhile (fun x => negb (isGt x)) t)
              else None
          | EmptyString => None
          end
        else None in
      match here with
      | Some value => Some value
      | None => nextMatch t
      end
  end.

(** The value of [nextPageInfo] after one page. *)
Definition nextPageInfoOf (link : option string) : option string :=
  match link with
  | Some linkHeader =>
      if includes linkHeader relNext then nextMatch linkHeader else None
  | None => None
  end.

Section Store.

(** The store: the answer to the n-th request. *)
Variable server : nat -> reply.

(** *** [getAllExistingProductsAdvanced]

    The [do]/[while] loop goes on for as long as the store names a next
    page; [fuel] bounds the number of pages, and [None] is a loop that has
    not ended within it. *)
Fixpoint fetchPages (fuel : nat) (nextPageInfo : option string)
    (allProducts : list Sync.RemoteProduct) (trace : list call)
  : option (list call * (list Sync.RemoteProduct + failure)) :=
  match fuel with
  | O => None
  | S fuel' =>
      let trace' := (trace ++ [GetProducts nextPageInfo])%list in
      match server (length trace) with
      | NoReply => Some (trace', inr NoAnswer)
      | NotOk code => Some (trace', inr (FetchProductsFailed code))
      | Answer body link =>
          let allProducts' :=
            match products body with
            | Some page => (allProducts ++ page)%list
            | None => allProducts
            end in
          match nextPageInfoOf link with
          | Some pageInfo => fetchPages fuel' (Some pageInfo) allProducts' trace'
          | None => Some (trace', inl allProducts')
          end
      end
  end.

Definition getAllExistingProductsAdvanced (fuel : nat) (trace : list call)
  : option (list call * (list Sync.RemoteProduct + failure)) :=
  fetchPages fuel None [] trace.

(** *** [setupCollectionsAdvanced] *)

(** [collectionsMap[key] = id] with a number: under [__proto__] nothing is
    stored. *)
Definition setId (key : string) (id : Z) (collectionsMap : Obj Z) : Obj Z :=
  if String.eqb key "__proto__" then collectionsMap
  else setProp key id collectionsMap.

Definition handleChar (c : ascii) : ascii :=
  if (isLowerAZ c || isDigit c)%bool then c else "-"%char.

(** [name.toLowerCase().replace(/[^a-z0-9]/g, '-').replace(/-+/g, '-')] *)
Definition collectionHandle (collectionName : string) : string :=
  replaceRuns isHyphen "-" (mapChars handleChar (toLowerCase collectionName)).

(** The loop over the needed collections; a request that fails, or an
    answer without the created collection, is logged and the loop goes
    on. *)
Fixpoint createMissing (existingCollectionNames : list string)
    (needed : list string) (collectionsMap : Obj Z) (trace : list call)
  : list call * Obj Z :=
  match needed with
  | [] => (trace, collectionsMap)
  | collectionName :: rest =>
      if existsb (String.eqb (toLowerCase collectionName))
           existingCollectionNames
      then createMissing existingCollectionNames rest collectionsMap trace
      else
        let trace' :=
          (trace ++ [PostCollection collectionName
                       (collectionHandle collectionName)])%list in
        let collectionsMap' :=
          match server (length trace) with
          | Answer body _ =>
              match custom_collection body with
              | Some id => setId (toLowerCase collectionName) id collectionsMap
              | None => collectionsMap
              end
          | _ => collectionsMap
          end in
        createMissing existingCollectionNames rest collectionsMap' trace'
  end.

Definition setupCollectionsAdvanced (productGroups : list Sync.ProductGroup)
    (trace : list call) : list call * (Obj Z + failure) :=
  let neededCollections :=
    Sync.distinct (flat_map Sync.collections productGroups) in
  let trace' := (trace ++ [GetCollections])%list in
  match server (length trace) with
  | NoReply => (trace', inr NoAnswer)
  | NotOk code => (trace', inr (FetchCollectionsFailed code))
  | Answer body _ =>
      let existingCollections :=
        match custom_collections body with Some cs => cs | None => [] end in
      let existingCollectionNames :=
        map (fun c => toLowerCase (cTitle c)) existingCollections in
      let collectionsMap :=
        fold_left (fun m c => setId (toLowerCase (cTitle c)) (cId c) m)
          existingCollections [] in
      let (trace'', collectionsMap') :=
        createMissing existingCollectionNames neededCollections collectionsMap
          trace' in
      (trace'', inl collectionsMap')
  end.

End Store.

End Setup.

(** ** Product description

    [createAdvancedProductDescription] fills one HTML template.  The model
    keeps what the template interpolates: the facts computed from the spec
    and the variants, and the four questions chosen for the FAQ block.  The
    fixed markup and the locale-dependent printing of numbers
    ([toLocaleString]) are not part of it. *)

Record FAQ : Type := mkFAQ {
  question : string;
  answer : string
}.

Definition faqPool (keyboardInfo : string) : list FAQ :=
  [ mkFAQ "Is this genuine Apple hardware?"
      "100% authentic Apple hardware - never refurbished knockoffs or third-party parts.";
    mkFAQ "What does Grade A, B, C, D mean?"
      "Grade A=like-new (30% off), Grade B=excellent (32% off), Grade C=good (34% off), Grade D=fair (39% off retail).";
    mkFAQ "Do I get a warranty?"
      "Yes! Every MacBook includes our 90-day warranty plus optional extended coverage available.";
    mkFAQ "Can I return if not satisfied?"
      "Absolutely! 30-day no-questions-asked return policy for your peace of mind.";
    mkFAQ "What's included in the box?"
      "Your MacBook, original Apple charger, and all necessary documentation.";
    mkFAQ "How long will this last?"
      "Refurbished MacBooks last just as long as new ones - these are built to run for years.";
    mkFAQ "What's your refurbishment process?"
      "Professional 47-point inspection, deep cleaning, testing, and certification by Apple-trained technicians.";
    mkFAQ "What keyboard options are available?"
      ("We offer " ++ keyboardInfo ++ " to suit Canadian users perfectly.") ].

Inductive linkBlock : Type := LinksForPro | LinksForAir | LinksForOthers.

(** The facts of the description, in the order the template uses them. *)
Record DescriptionFacts : Type := mkDescriptionFacts {
  dfProductType : string;
  dfDisplaySize : string;
  dfProcessor : string;
  dfYear : string;
  dfStorage : string;
  dfMemory : string;
  dfLowestPrice : option Z;
  dfRetailPrice : option Z;
  dfAudienceAndUse : string;
  dfPrimaryGrade : string;
  dfPrimaryPrice : option Z;
  dfGradePrices : list (option Z);
  dfGradeSavings : list (option Z);
  dfKeyboardInfo : string;
  dfGraphics : string;
  dfSixteenInch : bool;
  dfLinks : linkBlock
}.

Definition keyboardInfoOf (variants : Obj VariantBucket) : string :=
  match variants with
  | [] => "English keyboard"
  | _ =>
      let hasEnglish :=
        existsb (fun kv => String.eqb (vKeyboardLayout (snd kv)) "English")
          variants in
      let hasFrench :=
        existsb (fun kv => String.eqb (vKeyboardLayout (snd kv))
                             "French Canadian") variants in
      if (hasEnglish && hasFrench)%bool
      then "Available in English and French Canadian keyboards"
      else if hasFrench then "French Canadian keyboard"
      else "English keyboard"
  end.

(** [parseFloat(variant.price) || 0] *)
Definition priceOrZero (v : VariantBucket) : Z :=
  match price v with Some p => p | None => 0 end.

(** The loop that fills [actualPrices]: the entry of a grade is replaced
    when it is missing or 0 and when the new price is lower. *)
Definition notePrice (actualPrices : Obj Z) (kv : string * VariantBucket)
  : Obj Z :=
  let grade := gradeName (vCondition (snd kv)) in
  let p := priceOrZero (snd kv) in
  match assoc grade actualPrices with
  | Some old =>
      if ((old =? 0) || (p <? old))%bool then setProp grade p actualPrices
      else actualPrices
  | None => setProp grade p actualPrices
  end.

(** [actualPrices[g] || calculateVariantPrice(productInfo, g)] *)
Definition gradePrice (productInfo : ProductInfo) (actualPrices : Obj Z)
    (g : Grade) : option Z :=
  match assoc (gradeName g) actualPrices with
  | Some p => if p =? 0 then calculateVariantPrice productInfo (gradeName g)
              else Some p
  | None => calculateVariantPrice productInfo (gradeName g)
  end.

(** The loop that fills [gradeCount]. *)
Definition countGrade (gradeCount : Obj Z) (kv : string * VariantBucket)
  : Obj Z :=
  let grade := gradeName (vCondition (snd kv)) in
  let old := match assoc grade gradeCount with Some n => n | None => 0 end in
  setProp grade (old + quantity (snd kv)) gradeCount.

(** [Object.keys(gradeCount).reduce((a, b) => gradeCount[a] > gradeCount[b]
    ? a : b)] *)
Definition primaryGradeOf (gradeCount : Obj Z) : string :=
  match gradeCount with
  | [] => "A"
  | (k, n) :: rest =>
      fst (fold_left (fun a b => if snd b <? snd a then a else b) rest (k, n))
  end.

Definition roundDiv070 (x : option Z) : option Z :=
  match x with
  | Some a => Math_round (PrimFloat.div (ofZ a) 0.70%float)
  | None => None
  end.

Definition subNum (a b : option Z) : option Z :=
  match a, b with
  | Some x, Some y => Some (x - y)
  | _, _ => None
  end.

Definition descriptionFacts (productInfo : ProductInfo)
    (variants : Obj VariantBucket) : DescriptionFacts :=
  let actualPrices := fold_left notePrice variants [] in
  let gradeAPrice := gradePrice productInfo actualPrices A in
  let gradeBPrice := gradePrice productInfo actualPrices B in
  let gradeCPrice := gradePrice productInfo actualPrices C in
  let gradeDPrice := gradePrice productInfo actualPrices D in
  let dynamicRetailPrice := roundDiv070 gradeAPrice in
  let availablePrices := filter (fun p => 0 <? p) (map snd actualPrices) in
  let lowestPrice :=
    match availablePrices with
    | [] => gradeDPrice
    | p :: ps => Some (fold_left Z.min ps p)
    end in
  let primaryGrade :=
    match variants with
    | [] => "A"
    | _ => primaryGradeOf (fold_left countGrade variants [])
    end in
  let primaryPrice :=
    match variants with
    | [] => gradeAPrice
    | _ =>
        if String.eqb primaryGrade "A" then gradeAPrice
        else if String.eqb primaryGrade "B" then gradeBPrice
        else if String.eqb primaryGrade "C" then gradeCPrice
        else gradeDPrice
    end in
  {| dfProductType := productType productInfo;
     dfDisplaySize := displaySize productInfo;
     dfProcessor := processor productInfo;
     dfYear := year productInfo;
     dfStorage := storage productInfo;
     dfMemory := memory productInfo;
     dfLowestPrice := lowestPrice;
     dfRetailPrice := dynamicRetailPrice;
     dfAudienceAndUse :=
       if includes (productType productInfo) "Pro"
       then "Perfect for creative professionals, developers, and power users who demand peak performance for video editing, 3D rendering, and intensive multitasking."
       else if includes (productType productInfo) "Air"
       then "Ideal for students, professionals, and everyday users who need portability without sacrificing performance for work, study, and creative projects."
       else "Great for professionals and enthusiasts who need reliable Apple performance for work, creativity, and daily computing tasks.";
     dfPrimaryGrade := primaryGrade;
     dfPrimaryPrice := primaryPrice;
     dfGradePrices := [gradeAPrice; gradeBPrice; gradeCPrice; gradeDPrice];
     dfGradeSavings :=
       map (subNum dynamicRetailPrice)
         [gradeAPrice; gradeBPrice; gradeCPrice; gradeDPrice];
     dfKeyboardInfo := keyboardInfoOf variants;
     dfGraphics :=
       if includes (processor productInfo) "Max"
       then "High-performance GPU (up to 32-core)"
       else if includes (processor productInfo) "Pro"
       then "Professional GPU (up to 19-core)"
       else "Integrated GPU (up to 10-core)";
     dfSixteenInch := String.eqb (displaySize productInfo) ("16" ++ dquote);
     dfLinks :=
       if includes (productType productInfo) "MacBook Pro" then LinksForPro
       else if includes (productType productInfo) "MacBook Air"
       then LinksForAir
       else LinksForOthers |}.

Section Description.

(** [Math.random()]: the n-th draw of one evaluation. *)
Variable random : nat -> float.

(** [[...faqPool].sort(() => 0.5 - Math.random()).slice(0, 4)] *)
Definition selectedFAQs (keyboardInfo : string) : list FAQ :=
  firstn 4
    (fst (arraySort
            (fun n _ _ => PrimFloat.ltb (PrimFloat.sub 0.5%float (random n))
                            0%float)
            (faqPool keyboardInfo) 0)).

(** [createAdvancedProductDescription] *)
Definition createAdvancedProductDescription (productInfo : ProductInfo)
    (variants : Obj VariantBucket) : DescriptionFacts * list FAQ :=
  (descriptionFacts productInfo variants,
   selectedFAQs (keyboardInfoOf variants)).

End Description.

(** ** The SEO description *)

(** [createAdvancedSEODescription].  [variants] is the map of buckets of the
    group; the retail price that the function computes first is not used. *)
Definition primaryGrade (variants : Obj VariantBucket) : string :=
  match variants with
  | [] => "A"
  | _ => primaryGradeOf (fold_left countGrade variants [])
  end.

Definition createAdvancedSEODescription (productInfo : ProductInfo)
    (variants : Obj VariantBucket) : string :=
  let primaryGrade := primaryGrade variants in
  let productName :=
    productType productInfo
    ++ (if truthy (displaySize productInfo)
        then " " ++ displaySize productInfo else EmptyString) in
  let processorShort :=
    orElse (replaceFirst " chip" "" (replaceFirst "Apple " "" (processor productInfo)))
      "M2" in
  let description :=
    if String.eqb primaryGrade "A" then
      "Certified refurbished " ++ productName ++ " " ++ processorShort
      ++ " like-new condition. Save 30% vs retail. 90-day warranty, free North American shipping. Shop premium quality!"
    else if String.eqb primaryGrade "B" then
      "Refurbished " ++ productName ++ " " ++ processorShort
      ++ " excellent condition. Save 32% vs retail. 90-day warranty, free shipping across North America. Great value today!"
    else if String.eqb primaryGrade "C" then
      "Save 34% on refurbished " ++ productName ++ " " ++ processorShort
      ++ ". Fully tested, 90-day warranty, free North American shipping. Budget-friendly Apple quality - order now!"
    else if String.eqb primaryGrade "D" then
      "Maximum savings! " ++ productName ++ " " ++ processorShort
      ++ " refurbished - save 39% vs retail. 90-day warranty included. Best value Apple quality - shop now!"
    else
      "Certified refurbished " ++ productName ++ " " ++ processorShort
      ++ ". Save up to 39% vs retail. 90-day warranty, free North American shipping. Shop quality Apple devices!" in
  if Nat.ltb 160 (String.length description)
  then take 157 description ++ "..." else description.

(** ** The row classifier *)

(** An object literal: a later entry with the same key replaces the value of
    the earlier one. *)
Definition objectLiteral {V : Type} (entries : list (string * V)) : Obj V :=
  fold_left (fun o kv => setProp (fst kv) (snd kv) o) entries [].

(** [modelSizeMap] of [extractDisplaySize]: the sizes, without the inch
    sign that [inches] adds. *)
Definition modelSizeMap : Obj string :=
  objectLiteral
  [
    ("A2141", "16"); ("A2485", "16"); ("A2780", "16"); ("A2991", "16");
    ("A3112", "16"); ("A3185", "16"); ("A3401", "16"); ("A1707", "15");
    ("A1990", "15"); ("A2442", "14"); ("A2779", "14"); ("A2992", "14");
    ("A3114", "14"); ("A1706", "13"); ("A1708", "13"); ("A1989", "13");
    ("A2159", "13"); ("A2251", "13"); ("A2289", "13"); ("A2338", "13");
    ("A2941", "15"); ("A3114", "15"); ("A3241", "15"); ("A1932", "13");
    ("A2337", "13"); ("A2681", "13"); ("A3113", "13"); ("A3240", "13");
    ("A2438", "24"); ("A2439", "24"); ("A2873", "24"); ("A2874", "24");
    ("A3115", "24"); ("A2115", "27"); ("A1419", "27"); ("A2116", "21.5");
    ("A1418", "21.5"); ("A1584", "12.9"); ("A1652", "12.9"); ("A1670", "12.9");
    ("A1671", "12.9"); ("A1876", "12.9"); ("A2014", "12.9"); ("A1895", "12.9");
    ("A2229", "12.9"); ("A2069", "12.9"); ("A2232", "12.9"); ("A2378", "12.9");
    ("A2461", "12.9"); ("A2379", "12.9"); ("A2436", "12.9"); ("A2764", "12.9");
    ("A2437", "12.9"); ("A1980", "11"); ("A2013", "11"); ("A1934", "11");
    ("A2228", "11"); ("A2068", "11"); ("A2230", "11"); ("A2377", "11");
    ("A2459", "11"); ("A2301", "11"); ("A2435", "11"); ("A2761", "11");
    ("A2302", "11"); ("A1701", "10.5"); ("A1709", "10.5"); ("A1673", "9.7");
    ("A1674", "9.7"); ("A1675", "9.7"); ("A2316", "10.9"); ("A2324", "10.9");
    ("A2325", "10.9"); ("A2588", "10.9"); ("A2589", "10.9"); ("A2591", "10.9");
    ("A2197", "10.2"); ("A2200", "10.2"); ("A2198", "10.2"); ("A2270", "10.2");
    ("A2428", "10.2"); ("A2429", "10.2"); ("A2602", "10.2"); ("A2603", "10.2");
    ("A2604", "10.2"); ("A2568", "8.3"); ("A2569", "8.3"); ("A2567", "8.3") ].

Definition inches (size : string) : string := size ++ dquote.

(** [extractDisplaySize]: a size, or the inherited property that
    [modelSizeMap[model]] finds. *)
Definition extractDisplaySize (model processor : string) : value :=
  match (if truthy model then getProp modelSizeMap model else Undefined) with
  | Own size => VString (inches size)
  | Inherited k => VObject k
  | Undefined =>
      VString (inches (
        if includes processor "27" then "27"
        else if includes processor "24" then "24"
        else if (includes processor "215" || includes processor "21.5")%bool
        then "21.5"
        else if includes processor "16" then "16"
        else if includes processor "15" then "15"
        else if includes processor "14" then "14"
        else if includes processor "13" then "13"
        else if (includes processor "129" || includes processor "12.9")%bool
        then "12.9"
        else if includes processor "11" then "11"
        else if (includes processor "109" || includes processor "10.9")%bool
        then "10.9"
        else if (includes processor "105" || includes processor "10.5")%bool
        then "10.5"
        else if (includes processor "102" || includes processor "10.2")%bool
        then "10.2"
        else if (includes processor "97" || includes processor "9.7")%bool
        then "9.7"
        else if (includes processor "83" || includes processor "8.3")%bool
        then "8.3"
        else
          let processorLower := toLowerCase processor in
          if includes processorLower "imac" then
            if (includes processorLower "m1" || includes processorLower "m3"
                || includes processorLower "m4")%bool
            then "24" else "27"
          else if includes processorLower "max" then "16"
          else if (includes processorLower "pro"
                   && negb (includes processorLower "air"))%bool then "14"
          else if includes processorLower "air" then "13"
          else if includes processorLower "ipad" then
            if includes processorLower "pro" then "11"
            else if includes processorLower "air" then "10.9"
            else if includes processorLower "mini" then "8.3"
            else "10.2"
          else "13"))
  end.

Definition isLineTerminator (c : ascii) : bool :=
  (Nat.eqb (code c) 10 || Nat.eqb (code c) 13)%bool.

(** [\s*(\w+)] at the head of [s]: the white space is taken whole, then a
    word must start. *)
Definition wordAfterSpaces (s : string) : option string :=
  let w := dropWhile isSpace s in
  if startsWith isWordChar w then Some (takeWhile isWordChar w) else None.

(** [.*?\s*(\w+)]: the shortest filler, which stops at a line terminator. *)
Fixpoint lazyThenWord (s : string) : option (string * string) :=
  match wordAfterSpaces s with
  | Some w => Some (EmptyString, w)
  | None =>
      match s with
      | String c t =>
          if isLineTerminator c then None
          else option_map (fun fw => (String c (fst fw), snd fw))
                 (lazyThenWord t)
      | EmptyString => None
      end
  end.

(** [.*?(Core.*?|Xeon.*?|Celeron.*?)\s*(\w+)] after [Intel], letters in
    either case: the two groups. *)
Fixpoint afterIntel (s : string) : option (string * string) :=
  let literal (n : nat) :=
    option_map (fun fw => (take n s ++ fst fw, snd fw))
      (lazyThenWord (drop n s)) in
  let here :=
    if String.prefix "core" (toLowerCase s) then literal 4%nat
    else if String.prefix "xeon" (toLowerCase s) then literal 4%nat
    else if String.prefix "celeron" (toLowerCase s) then literal 7%nat
    else None in
  match here with
  | Some groups => Some groups
  | None =>
      match s with
      | String c t => if isLineTerminator c then None else afterIntel t
      | EmptyString => None
      end
  end.

Fixpoint intelMatch (s : string) : option (string * string) :=
  match (if String.prefix "intel" (toLowerCase s) then afterIntel (drop 5 s)
         else None) with
  | Some groups => Some groups
  | None =>
      match s with
      | String _ t => intelMatch t
      | EmptyString => None
      end
  end.

(** [extractProcessorDetails] *)
Definition extractProcessorDetails (processor : string) : string :=
  if negb (truthy processor) then "Unknown"
  else if includes processor "M3 Max" then "M3 Max"
  else if includes processor "M3 Pro" then "M3 Pro"
  else if includes processor "M3" then "M3"
  else if includes processor "M2 Ultra" then "M2 Ultra"
  else if includes processor "M2 Max" then "M2 Max"
  else if includes processor "M2 Pro" then "M2 Pro"
  else if includes processor "M2" then "M2"
  else if includes processor "M1 Ultra" then "M1 Ultra"
  else if includes processor "M1 Max" then "M1 Max"
  else if includes processor "M1 Pro" then "M1 Pro"
  else if includes processor "M1" then "M1"
  else if includes processor "Intel" then
    match intelMatch processor with
    | Some (g1, g2) => g1 ++ " " ++ g2
    | None => "Intel"
    end
  else trim processor.

(** The decimal text of a natural number. *)
Fixpoint natDigits (fuel : nat) (n : Z) (acc : string) : string :=
  match fuel with
  | O => acc
  | S f =>
      let acc' := String (ascii_of_nat (48 + Z.to_nat (n mod 10))) acc in
      if n <? 10 then acc' else natDigits f (n / 10) acc'
  end.

Definition natText (n : Z) : string :=
  natDigits (S (Z.to_nat (Z.log2 n))) n EmptyString.

(** The text of [n / 1000]: at most three decimals, no trailing zero. *)
Definition thousandthsText (n : Z) : string :=
  let frac := n mod 1000 in
  if frac =? 0 then natText (n / 1000)
  else
    let d3 := String (ascii_of_nat (48 + Z.to_nat (frac / 100)))
                (String (ascii_of_nat (48 + Z.to_nat (frac / 10 mod 10)))
                   (String (ascii_of_nat (48 + Z.to_nat (frac mod 10)))
                      EmptyString)) in
    let d := if frac mod 10 =? 0
             then (if frac / 10 mod 10 =? 0 then take 1 d3 else take 2 d3)
             else d3 in
    natText (n / 1000) ++ "." ++ d.

Definition isStorageChar (c : ascii) : bool :=
  (isDigit c || Nat.eqb (code c) 84 || Nat.eqb (code c) 66
   || Nat.eqb (code c) 71)%bool.

(** [standardizeStorage].  The amount is printed as the engine prints a
    double; the text below is that text when the digits read are at most
    fifteen (every such amount, and its thousandth, is printed exactly).
    Of a longer run of digits the engine keeps a rounded amount and prints
    that one: the text below is then not the engine's. *)
Definition standardizeStorage (storage : string) : string :=
  if negb (truthy storage) then EmptyString
  else
    let storageUpper := filterChars isStorageChar (toUpperCase storage) in
    let fromDigit := dropWhile (fun c => negb (isDigit c)) storageUpper in
    let digits := takeWhile isDigit fromDigit in
    if truthy digits then
      let rest := dropWhile isDigit fromDigit in
      let amount := digitsValue 0 digits in
      if (String.prefix "TB" rest || String.prefix "T" rest)%bool
      then natText amount ++ "TB"
      else if (String.prefix "GB" rest || String.prefix "G" rest)%bool
      then natText amount ++ "GB"
      else if 1000 <=? amount then thousandthsText amount ++ "TB"
      else natText amount ++ "GB"
    else storage.

Definition isMemoryChar (c : ascii) : bool :=
  (isDigit c || Nat.eqb (code c) 66 || Nat.eqb (code c) 71)%bool.

(** [standardizeMemory] *)
Definition standardizeMemory (memory : string) : string :=
  if negb (truthy memory) then EmptyString
  else
    let memoryUpper := filterChars isMemoryChar (toUpperCase memory) in
    let digits :=
      takeWhile isDigit (dropWhile (fun c => negb (isDigit c)) memoryUpper) in
    if truthy digits then digits ++ "GB" else memory.

(** The first [20dd] of [s]. *)
Fixpoint firstYear (s : string) : string :=
  match s with
  | EmptyString => EmptyString
  | String _ t =>
      if (String.prefix "20" s && startsWith isDigit (drop 2 s)
          && startsWith isDigit (drop 3 s))%bool
      then take 4 s else firstYear t
  end.

(** [extractYear] *)
Definition extractYear (processor model : string) : string :=
  firstYear (processor ++ " " ++ model).

(** The first capital followed by four digits, with the capitals after
    them. *)
Fixpoint firstModelNumber (s : string) : string :=
  match s with
  | EmptyString => EmptyString
  | String c t =>
      if (isUpperAZ c && Nat.eqb (String.length (takeWhile isDigit (take 4 t))) 4)%bool
      then String c (take 4 t ++ takeWhile isUpperAZ (drop 4 t))
      else firstModelNumber t
  end.

(** [extractModelNumber] *)
Definition extractModelNumber (processor model : string) : string :=
  firstModelNumber (processor ++ " " ++ model).

(** [estimateYear] *)
Definition estimateYear (processor : string) : string :=
  if includes processor "M3" then "2023"
  else if includes processor "M2" then "2022"
  else if includes processor "M1" then "2020"
  else if includes processor "Intel" then "2019"
  else "2022".

(** [determineDefaultSize] *)
Definition determineDefaultSize (productType processor : string) : string :=
  if includes processor "16" then inches "16"
  else if includes processor "15" then inches "15"
  else if includes processor "14" then inches "14"
  else if includes processor "13" then inches "13"
  else if String.eqb productType "MacBook Pro" then inches "16"
  else if String.eqb productType "MacBook Air" then inches "13"
  else if String.eqb productType "MacBook" then inches "13"
  else if String.eqb productType "iMac" then inches "24"
  else EmptyString.

(** [determineIPadTypeAdvanced] *)
Definition determineIPadTypeAdvanced (model : string) : string :=
  let modelLower := toLowerCase model in
  if includes modelLower "ipad pro" then "iPad Pro"
  else if includes modelLower "ipad air" then "iPad Air"
  else if includes modelLower "ipad mini" then "iPad Mini"
  else "iPad".

(** [determineIPhoneModelAdvanced] *)
Definition determineIPhoneModelAdvanced (model : string) : string :=
  let modelLower := toLowerCase model in
  if includes modelLower "iphone 15" then "iPhone 15"
  else if includes modelLower "iphone 14" then "iPhone 14"
  else if includes modelLower "iphone 13" then "iPhone 13"
  else if includes modelLower "iphone 12" then "iPhone 12"
  else if includes modelLower "iphone 11" then "iPhone 11"
  else if includes modelLower "iphone se" then "iPhone SE"
  else "iPhone".

(** [extractIPadSize]: the first run of digits, with the decimals that
    follow it. *)
Definition extractIPadSize (model processor : string) : string :=
  let combined := model ++ " " ++ processor in
  let fromDigit := dropWhile (fun c => negb (isDigit c)) combined in
  let whole := takeWhile isDigit fromDigit in
  if truthy whole then
    let rest := dropWhile isDigit fromDigit in
    let decimals :=
      if (startsWith isDot rest && startsWith isDigit (drop 1 rest))%bool
      then "." ++ takeWhile isDigit (drop 1 rest) else EmptyString in
    inches (whole ++ decimals)
  else inches "10.9".

(** [getIPhoneDisplaySize] *)
Definition getIPhoneDisplaySize (iphoneModel : string) : string :=
  if String.eqb iphoneModel "iPhone SE" then inches "4.7" else inches "6.1".

(** [estimateIPhoneYear] *)
Definition estimateIPhoneYear (iphoneModel : string) : string :=
  if String.eqb iphoneModel "iPhone 15" then "2023"
  else if String.eqb iphoneModel "iPhone 14" then "2022"
  else if String.eqb iphoneModel "iPhone 13" then "2021"
  else if String.eqb iphoneModel "iPhone 12" then "2020"
  else if String.eqb iphoneModel "iPhone 11" then "2019"
  else "2022".

(** What [analyzeProductAdvanced] returns.  Its fields are texts, but for
    [displaySize]: where [modelSizeMap[model]] finds a member of
    [Object.prototype] (the Model cell is [constructor], [toString], ...),
    that member is the display size. *)
Module Analysis.

Record t : Type := mk {
  productType : string;
  displaySize : value;
  processor : string;
  storage : string;
  memory : string;
  year : string;
  modelNumber : string;
  category : string;
  deviceFamily : string
}.

End Analysis.

(** [analyzeProductAdvanced]; [None] is [null]. *)
Definition analyzeProductAdvanced (item : Row) : option Analysis.t :=
  let model := trim (field item "Model") in
  let category :=
    trim (orElse (field item "Sub-Category") (field item "Category")) in
  let processor := trim (field item "Processor") in
  let brand := trim (field item "Brand") in
  let storage := trim (field item "Storage") in
  let memory := trim (field item "Memory") in
  let combinedText :=
    toLowerCase (model ++ " " ++ category ++ " " ++ processor ++ " " ++ brand) in
  let laptop (productType : string) (fallback : string) :=
    Some {| Analysis.productType := productType;
            Analysis.displaySize :=
              match extractDisplaySize model processor with
              | VString size => VString (orElse size fallback)
              | VObject k => VObject k
              end;
            Analysis.processor := extractProcessorDetails processor;
            Analysis.storage := standardizeStorage storage;
            Analysis.memory := standardizeMemory memory;
            Analysis.year := orElse (extractYear processor model)
                               (estimateYear processor);
            Analysis.modelNumber := extractModelNumber processor model;
            Analysis.category := (if String.eqb productType "iMac"
                                  then "Desktops" else "Laptops");
            Analysis.deviceFamily := "Mac" |} in
  if (includes combinedText "macbook pro"
      || (includes combinedText "laptop" && includes combinedText "pro")
      || (includes (toLowerCase category) "laptop"
          && includes (toLowerCase processor) "pro"))%bool
  then laptop "MacBook Pro" (determineDefaultSize "MacBook Pro" processor)
  else if (includes combinedText "macbook air"
           || (includes combinedText "macbook" && includes combinedText "air")
           || includes (toLowerCase category) "macbook air")%bool
  then laptop "MacBook Air" (determineDefaultSize "MacBook Air" processor)
  else if (includes combinedText "macbook"
           || (includes (toLowerCase category) "laptop"
               && includes (toLowerCase brand) "apple"))%bool
  then laptop "MacBook" (inches "13")
  else if (includes combinedText "ipad"
           || includes (toLowerCase category) "tablet")%bool
  then
    Some {| Analysis.productType := determineIPadTypeAdvanced model;
            Analysis.displaySize := VString (extractIPadSize model processor);
            Analysis.processor := extractProcessorDetails processor;
            Analysis.storage := standardizeStorage storage;
            Analysis.memory := standardizeMemory memory;
            Analysis.year := orElse (extractYear processor model)
                               (estimateYear processor);
            Analysis.modelNumber := extractModelNumber processor model;
            Analysis.category := "Tablets";
            Analysis.deviceFamily := "iPad" |}
  else if (includes combinedText "iphone"
           || includes (toLowerCase category) "phone")%bool
  then
    let iphoneModel := determineIPhoneModelAdvanced model in
    Some {| Analysis.productType := iphoneModel;
            Analysis.displaySize := VString (getIPhoneDisplaySize iphoneModel);
            Analysis.processor := extractProcessorDetails processor;
            Analysis.storage := standardizeStorage storage;
            Analysis.memory := EmptyString;
            Analysis.year := orElse (extractYear processor model)
                               (estimateIPhoneYear iphoneModel);
            Analysis.modelNumber := extractModelNumber processor model;
            Analysis.category := "Phones";
            Analysis.deviceFamily := "iPhone" |}
  else if (includes combinedText "imac"
           || (includes (toLowerCase category) "desktop"
               && includes combinedText "imac"))%bool
  then laptop "iMac" (inches "24")
  else if (includes combinedText "airpods" || includes combinedText "airpod"
           || includes (toLowerCase category) "accessories"
           || includes combinedText "magic" || includes combinedText "adapter"
           || includes combinedText "cable")%bool
  then
    let accessoryType :=
      if includes combinedText "airpods" then "AirPods"
      else if includes combinedText "magic mouse" then "Magic Mouse"
      else if includes combinedText "magic keyboard" then "Magic Keyboard"
      else "Apple Accessory" in
    Some {| Analysis.productType := accessoryType;
            Analysis.displaySize := VString EmptyString;
            Analysis.processor := EmptyString;
            Analysis.storage := EmptyString;
            Analysis.memory := EmptyString;
            Analysis.year := orElse (extractYear processor model) "2022";
            Analysis.modelNumber := extractModelNumber processor model;
            Analysis.category := "Accessories";
            Analysis.deviceFamily := "Apple Accessory" |}
  else None.

(** The fields of an analysis as texts.  The functions that put the display
    size into a text or read a number from it (a template, [join],
    [parseFloat]) take the text of a display size that is an object, and
    where they test it, the object is truthy as its text is. *)
Definition asTexts (a : Analysis.t) : ProductInfo :=
  {| productType := Analysis.productType a;
     displaySize := toStringValue (Analysis.displaySize a);
     processor := Analysis.processor a;
     storage := Analysis.storage a;
     memory := Analysis.memory a;
     year := Analysis.year a;
     modelNumber := Analysis.modelNumber a;
     category := Analysis.category a;
     deviceFamily := Analysis.deviceFamily a |}.

(** The spec of a row as the loop of [createProductGroups] can use it:
    [None] when [analyzeProductAdvanced] returns [null], and when the
    display size of its result is an object.  In that case no group exists
    under the key of the row (the key of a spec goes on with a digit after
    the first underscore, the key of such a result with a letter), so the
    loop creates the group, and [displaySize.replace] throws in
    [createSEOOptimizedHandle] before the group is stored: the row is
    skipped with nothing changed.  [processRow] below is the body of the
    loop without this shortcut; that the two give the same groups is proved
    with the facts about rows of this kind. *)
Definition groupableSpec (item : Row) : option ProductInfo :=
  match analyzeProductAdvanced item with
  | Some a =>
      match Analysis.displaySize a with
      | VString _ => Some (asTexts a)
      | VObject _ => None
      end
  | None => None
  end.

(** The body of the loop with [analyzeProductAdvanced] itself.  For a
    classification whose display size is an object the body goes on as far
    as it can: without a group under its key the group is created, and
    [createSEOOptimizedHandle] throws; with a group, the unit is added to
    the bucket of its variant key when there is one, and creating a bucket
    throws in [createAdvancedSKU]. *)
Definition processRow (productGroups : Obj ProductGroup) (item : Row)
  : Obj ProductGroup :=
  match analyzeProductAdvanced item with
  | None => productGroups
  | Some a =>
      match Analysis.displaySize a with
      | VString _ =>
          processItem (fun _ => Some (asTexts a)) productGroups item
      | VObject _ =>
          let groupKey := createAdvancedGroupingKey (asTexts a) in
          match getProp productGroups groupKey with
          | Own group =>
              let variantKey :=
                variantKeyOf (rowColor item) (rowCondition item)
                  (determineKeyboardLayout item) in
              match getProp (variants group) variantKey with
              | Own bucket =>
                  setProp groupKey
                    (addToGroup variantKey bucket (rowStockItem item) group)
                    productGroups
              | _ => productGroups
              end
          | _ => productGroups
          end
      end
  end.

(** ** From the grouping to the request body

    The groups that [POST /api/process-excel] returns come back in the body
    of [POST /api/sync-shopify].  [requestBody] is the JSON image of a group
    whose colours are text and whose base price is a number, with the two
    description texts given. *)

Definition textOf (v : value) : option string :=
  match v with VString s => Some s | VObject _ => None end.

Definition requestStockItem (it : StockItem) : option Sync.StockItem :=
  match textOf (color it) with
  | Some c =>
      Some (Sync.mkStockItem (stockId it) (serialNumber it)
              (gradeName (condition it)) c (keyboardLayout it))
  | None => None
  end.

Definition requestBucket (kv : string * VariantBucket)
  : option (string * Sync.VariantBucket) :=
  match textOf (vColor (snd kv)) with
  | Some c =>
      Some (fst kv,
            Sync.mkVariantBucket c (gradeName (vCondition (snd kv)))
              (vKeyboardLayout (snd kv)) (quantity (snd kv)))
  | None => None
  end.

Fixpoint allSome {X : Type} (l : list (option X)) : option (list X) :=
  match l with
  | [] => Some []
  | Some x :: t => option_map (cons x) (allSome t)
  | None :: _ => None
  end.

Definition requestBody (productDescription seoDescription : string)
    (g : ProductGroup) : option Sync.ProductGroup :=
  match basePrice g, allSome (map requestBucket (variants g)),
        allSome (map requestStockItem (stockItems g)) with
  | Some base, Some buckets, Some items =>
      Some (Sync.mkProductGroup (info g) (seoTitle g) productDescription
              seoDescription (tags g) (collections g) base
              (Some (totalUnits g)) buckets items None)
  | _, _, _ => None
  end.

(** A collation for the examples: the order of the code units. *)
Fixpoint codeUnitCompare (a b : string) : Z :=
  match a, b with
  | EmptyString, EmptyString => 0
  | EmptyString, String _ _ => -1
  | String _ _, EmptyString => 1
  | String x a', String y b' =>
      if Nat.ltb (code x) (code y) then -1
      else if Nat.ltb (code y) (code x) then 1
      else codeUnitCompare a' b'
  end.

(** ** Sample inputs *)

Definition mbp14 : ProductInfo :=
  mkProductInfo "MacBook Pro" ("14" ++ dquote) "M2" "512GB" "16GB" "2022" ""
    "Laptops" "Mac".

(** A spec the classifier produces for a MacBook Pro row whose processor
    cell holds 227 letters, a space and one more letter. *)
Definition longProcessorSpec : ProductInfo :=
  mkProductInfo "MacBook Pro" ("13" ++ dquote) (repeatChar "a" 227 ++ " b")
    "" "" "2022" "" "Laptops" "Mac".

Definition sheetRow (stock serial colour cond : string) : Row :=
  [ ("Stock", stock); ("Serial Number", serial); ("Model", "MacBook Pro");
    ("Processor", "M2 14 inch 2022"); ("Color", colour); ("Condition", cond);
    ("Storage", "512GB"); ("Memory", "16GB") ].

(** The first scenario: two units of one model, one Space Gray of grade A
    and one Silver of grade B. *)
Definition twoUnits : list Row :=
  [ sheetRow "S1" "N1" "Space Gray" "A"; sheetRow "S2" "N2" "Silver" "B" ].

Definition groupSummary (kg : string * ProductGroup)
  : string * Z * nat * list (string * Z) :=
  (seoTitle (snd kg), totalUnits (snd kg), length (stockItems (snd kg)),
   map (fun kv => (fst kv, quantity (snd kv))) (variants (snd kg))).

(** Two rows of one model whose colour cells hold [__proto__] and
    [[object Object]]. *)
Definition protoRow : Row := sheetRow "S1" "N1" "__proto__" "A".
Definition objectRow : Row := sheetRow "S2" "N2" "[object Object]" "A".

(** Three units of one model: a Silver one of grade A, a second one without
    serial number, and a Gold one of grade B without stock id. *)
Definition threeUnits : list Row :=
  [ sheetRow "S1" "N1" "Silver" "A"; sheetRow "S2" "" "Silver" "A";
    sheetRow "" "N3" "Gold" "B" ].

Definition threeUnitsBody : option Sync.ProductGroup :=
  match createProductGroups groupableSpec threeUnits with
  | [(_, g)] => requestBody "description" "seo description" g
  | _ => None
  end.


Definition threeUnitsGroup : Sync.ProductGroup :=
  Eval vm_compute in
    match threeUnitsBody with
    | Some body => body
    | None =>
        Sync.mkProductGroup mbp14 EmptyString EmptyString EmptyString [] [] 0
          None [] [] None
    end.

(** The second and third scenarios: the two units of [twoUnits] against an
    empty store, then against a store that holds the product with one unit
    of each variant. *)
Definition twoUnitsGroup : Sync.ProductGroup :=
  Eval vm_compute in
    match createProductGroups groupableSpec twoUnits with
    | [(_, g)] =>
        match requestBody "description" "seo description" g with
        | Some body => body
        | None => threeUnitsGroup
        end
    | _ => threeUnitsGroup
    end.

Definition acceptAll : nat -> Sync.response := fun _ => Sync.Ok 7.

Definition requestSummary (r : Sync.request) : string * Z :=
  match r with
  | Sync.PutProduct _ _ _ _ _ => ("PUT product", 0)
  | Sync.PutVariant id qty _ _ _ => ("PUT variant", qty)
  | Sync.PostVariant _ v => ("POST variant", Sync.inventory_quantity v)
  | Sync.PostProduct d => ("POST product", Z.of_nat (length (Sync.pdVariants d)))
  | Sync.PostImage _ _ _ => ("POST image", 0)
  | Sync.PostCollect _ _ => ("POST collect", 0)
  end.

Definition countsOf (r : Sync.Results + Sync.error) : option (Z * Z * Z) :=
  match r with
  | inl res => Some (Sync.created res, Sync.updated res, Sync.errors res)
  | inr _ => None
  end.

Definition storeAfterCreate : list Sync.RemoteProduct :=
  [ Sync.mkRemoteProduct 7
      ("REFURBISHED MacBook Pro 14" ++ dquote ++ " M2 2022 512GB 16GB")
      [ Sync.mkRemoteVariant 71 (Some "Silver") (Some "Grade B")
          (Some "English") (Some 1);
        Sync.mkRemoteVariant 72 (Some "Space Gray") (Some "Grade A")
          (Some "English") (Some 1) ] ].

(** A row whose Model cell names a member of [Object.prototype], and the
    classification that [analyzeProductAdvanced] gives it. *)
Definition constructorRow : Row :=
  [ ("Stock", "S7"); ("Serial Number", "N7"); ("Model", "constructor");
    ("Processor", "MacBook Pro M2 2022"); ("Color", "Silver");
    ("Condition", "A"); ("Storage", "512GB"); ("Memory", "16GB") ].

Definition constructorAnalysis : Analysis.t :=
  Analysis.mk "MacBook Pro" (VObject "constructor") "M2" "512GB" "16GB"
    "2022" "" "Laptops" "Mac".



(** The conservation property of one group. *)
Definition sumQuantities (vs : Obj VariantBucket) : Z :=
  fold_right (fun kv acc => quantity (snd kv) + acc) 0 vs.

Definition conserved (g : ProductGroup) : Prop :=
  sumQuantities (variants g) = Z.of_nat (length (stockItems g))
  /\ Z.of_nat (length (stockItems g)) = totalUnits g.

(** A store of two pages of one product each: the answer to the first
    request names the second page in its [Link] header. *)
Definition twoPages : nat -> Setup.reply := fun n =>
  match n with
  | O =>
      Setup.Answer
        (Setup.mkBody (Some [Sync.mkRemoteProduct 1 "MacBook Pro" []]) None None)
        (Some ("<https://shop.example/admin/api/2023-10/products.json?limit=250&page_info=second>; rel="
               ++ dquote ++ "next" ++ dquote))
  | S _ =>
      Setup.Answer
        (Setup.mkBody (Some [Sync.mkRemoteProduct 2 "MacBook Air" []]) None None)
        None
  end.

(** ** Objects as maps: lookup and update *)

Section ObjFacts.

Context {V : Type}.

Lemma getProp_Own (o : Obj V) (k : string) (v : V) :
  getProp o k = Own v <-> assoc k o = Some v.
Proof.
  unfold getProp. destruct (assoc k o) as [w|].
  - split; intros H; inversion H; reflexivity.
  - split; intros H.
    + destruct (existsb (String.eqb k) objectPrototypeKeys); discriminate.
    + discriminate.
Qed.

Lemma getProp_not_Own (o : Obj V) (k : string) :
  (forall v, getProp o k <> Own v) -> assoc k o = None.
Proof.
  intros H. destruct (assoc k o) as [w|] eqn:E; [|reflexivity].
  exfalso. apply (H w). apply getProp_Own. exact E.
Qed.

Lemma assoc_setProp_same (o : Obj V) (k : string) (v : V) :
  assoc k (setProp k v o) = Some v.
Proof.
  induction o as [|[k' v'] t IH]; simpl.
  - rewrite String.eqb_refl. reflexivity.
  - destruct (String.eqb k k') eqn:E; simpl.
    + rewrite String.eqb_refl. reflexivity.
    + rewrite E. exact IH.
Qed.

Lemma assoc_setProp_other (o : Obj V) (k k' : string) (v : V) :
  k' <> k -> assoc k' (setProp k v o) = assoc k' o.
Proof.
  intros Hne. induction o as [|[k0 v0] t IH]; simpl.
  - destruct (String.eqb k' k) eqn:E; [|reflexivity].
    apply String.eqb_eq in E. contradiction.
  - destruct (String.eqb k k0) eqn:E; simpl.
    + apply String.eqb_eq in E. subst k0.
      destruct (String.eqb k' k) eqn:E'; [|reflexivity].
      apply String.eqb_eq in E'. contradiction.
    + destruct (String.eqb k' k0); [reflexivity | exact IH].
Qed.

Lemma assoc_In (o : Obj V) (k : string) (v : V) :
  assoc k o = Some v -> In (k, v) o.
Proof.
  induction o as [|[k' v'] t IH]; simpl; [discriminate|].
  destruct (String.eqb k k') eqn:E.
  - intros H. inversion H. subst. apply String.eqb_eq in E. subst.
    left. reflexivity.
  - intros H. right. apply IH. exact H.
Qed.

Lemma Forall_setProp (P : V -> Prop) (o : Obj V) (k : string) (v : V) :
  Forall (fun kv => P (snd kv)) o -> P v ->
  Forall (fun kv => P (snd kv)) (setProp k v o).
Proof.
  intros Ho Hv. induction o as [|[k' v'] t IH]; simpl.
  - constructor; [exact Hv | constructor].
  - inversion Ho as [|x l Hx Hl]; subst.
    destruct (String.eqb k k').
    + constructor; [exact Hv | exact Hl].
    + constructor; [exact Hx | apply IH; exact Hl].
Qed.

Lemma Forall_assoc (P : V -> Prop) (o : Obj V) (k : string) (v : V) :
  Forall (fun kv => P (snd kv)) o -> assoc k o = Some v -> P v.
Proof.
  intros Ho Hk. apply assoc_In in Hk.
  rewrite Forall_forall in Ho. exact (Ho _ Hk).
Qed.

End ObjFacts.

Lemma sumQuantities_setProp_some (o : Obj VariantBucket) k b b' :
  assoc k o = Some b ->
  sumQuantities (setProp k b' o) = sumQuantities o - quantity b + quantity b'.
Proof.
  induction o as [|[k0 b0] t IH]; simpl; [discriminate|].
  destruct (String.eqb k k0); simpl.
  - intros H. inversion H. subst. lia.
  - intros H. rewrite (IH H). lia.
Qed.

Lemma sumQuantities_setProp_none (o : Obj VariantBucket) k b' :
  assoc k o = None ->
  sumQuantities (setProp k b' o) = sumQuantities o + quantity b'.
Proof.
  induction o as [|[k0 b0] t IH]; simpl; [intros _; lia|].
  destruct (String.eqb k k0); simpl.
  - discriminate.
  - intros H. rewrite (IH H). lia.
Qed.

(** ** Conservation *)

Lemma newVariant_quantity p c g kb b :
  newVariant p c g kb = Some b -> quantity b = 0 /\ vStockItems b = [].
Proof.
  unfold newVariant. destruct (createAdvancedSKU p c g kb); [|discriminate].
  intros H. inversion H. subst. simpl. split; reflexivity.
Qed.

Lemma conserved_newGroup p : conserved (newGroup p).
Proof. unfold conserved. simpl. split; reflexivity. Qed.

Lemma conserved_addToGroup_existing g k b item :
  conserved g -> assoc k (variants g) = Some b ->
  conserved (addToGroup k b item g).
Proof.
  unfold conserved. intros [H1 H2] Hb. simpl.
  rewrite (sumQuantities_setProp_some _ _ _ _ Hb). simpl.
  rewrite length_app. simpl. lia.
Qed.

Lemma conserved_addToGroup_fresh g k b item :
  conserved g -> assoc k (variants g) = None -> quantity b = 0 ->
  conserved (addToGroup k b item g).
Proof.
  unfold conserved. intros [H1 H2] Hb Hq. simpl.
  rewrite (sumQuantities_setProp_none _ _ _ Hb). simpl.
  rewrite length_app. simpl. lia.
Qed.

Definition groupsConserved (o : Obj ProductGroup) : Prop :=
  Forall (fun kg => conserved (snd kg)) o.

Section GroupingFacts.

Variable analyzeProductAdvanced : Row -> option ProductInfo.

Lemma processItem_conserved (o : Obj ProductGroup) (item : Row) :
  groupsConserved o -> groupsConserved (processItem analyzeProductAdvanced o item).
Proof.
  unfold groupsConserved. intros Ho. unfold processItem.
  destruct (analyzeProductAdvanced item) as [p|]; [|exact Ho].
  set (gk := createAdvancedGroupingKey p).
  destruct (getProp o gk) as [g| |] eqn:Eg; [| exact Ho |].
  - (* the group exists *)
    assert (Hg : conserved g).
    { apply getProp_Own in Eg. exact (Forall_assoc conserved o gk g Ho Eg). }
    destruct (getProp (variants g) _) as [b| |] eqn:Eb; [| exact Ho |].
    + apply Forall_setProp; [exact Ho|].
      apply conserved_addToGroup_existing; [exact Hg|].
      apply getProp_Own. exact Eb.
    + destruct (newVariant _ _ _ _) as [b|] eqn:En; [|exact Ho].
      apply Forall_setProp; [exact Ho|].
      apply conserved_addToGroup_fresh; [exact Hg | | ].
      * apply getProp_not_Own. intros v Hv. rewrite Hv in Eb. discriminate.
      * apply (newVariant_quantity _ _ _ _ _ En).
  - (* the group is created *)
    assert (Ho1 : groupsConserved (setProp gk (newGroup p) o)).
    { unfold groupsConserved. apply Forall_setProp; [exact Ho | apply conserved_newGroup]. }
    destruct (getProp (variants (newGroup p)) _) as [b| |] eqn:Eb;
      [| exact Ho1 |]; unfold groupsConserved in Ho1.
    + apply Forall_setProp; [exact Ho1|].
      apply conserved_addToGroup_existing; [apply conserved_newGroup|].
      apply getProp_Own. exact Eb.
    + destruct (newVariant _ _ _ _) as [b|] eqn:En; [|exact Ho1].
      apply Forall_setProp; [exact Ho1|].
      apply conserved_addToGroup_fresh; [apply conserved_newGroup | | ].
      * reflexivity.
      * apply (newVariant_quantity _ _ _ _ _ En).
Qed.

Lemma fold_processItem_conserved (rows : list Row) (o : Obj ProductGroup) :
  groupsConserved o ->
  groupsConserved (fold_left (processItem analyzeProductAdvanced) rows o).
Proof.
  revert o. induction rows as [|r rows IH]; intros o Ho; simpl.
  - exact Ho.
  - apply IH. apply processItem_conserved. exact Ho.
Qed.

End GroupingFacts.

(** C1. Whatever the classifier and the rows, every product group of the
    map returned by [createProductGroups] has the sum of its variants'
    quantities equal to the length of its stockItems list, which is equal to
    its totalUnits. *)
Theorem createProductGroups_conservation :
  forall (analyzeProductAdvanced : Row -> option ProductInfo)
         (appleProducts : list Row),
    Forall (fun kg => conserved (snd kg))
      (createProductGroups analyzeProductAdvanced appleProducts).
Proof.
  intros analyze rows. unfold createProductGroups.
  apply fold_processItem_conserved. constructor.
Qed.

(** ** Title *)

Lemma length_take (n : nat) (s : string) :
  String.length (take n s) = Nat.min n (String.length s).
Proof.
  revert s. induction n as [|n IH]; intros [|c t]; simpl; try reflexivity.
  rewrite IH. reflexivity.
Qed.

Lemma length_append (s t : string) :
  String.length (s ++ t) = (String.length s + String.length t)%nat.
Proof.
  induction s as [|c s IH]; simpl; [reflexivity | rewrite IH; reflexivity].
Qed.

(** C8. For every product spec, whatever the length of its fields, the
    title built by [createAdvancedSEOTitle] has at most 60 characters. *)
Theorem createAdvancedSEOTitle_length :
  forall p : ProductInfo, (String.length (createAdvancedSEOTitle p) <= 60)%nat.
Proof.
  intros p. unfold createAdvancedSEOTitle.
  match goal with
  | |- context [Nat.ltb 60 (String.length ?t)] =>
      set (title := t); destruct (Nat.ltb 60 (String.length title)) eqn:E
  end.
  - rewrite length_append, length_take.
    change (String.length "...") with 3%nat. lia.
  - apply Nat.ltb_ge in E. exact E.
Qed.

(** ** Handle *)

Section CharFacts.

Variable p : ascii -> bool.

Lemma allChars_filterChars (s : string) : allChars p (filterChars p s) = true.
Proof.
  induction s as [|c t IH]; simpl; [reflexivity|].
  destruct (p c) eqn:E; simpl; [rewrite E|]; exact IH.
Qed.

Lemma allChars_replaceRuns (q : ascii -> bool) (rep : ascii) (s : string) :
  p rep = true -> allChars p s = true -> allChars p (replaceRuns q rep s) = true.
Proof.
  intros Hrep. induction s as [|c t IH]; simpl; [reflexivity|].
  intros H. apply andb_prop in H. destruct H as [Hc Ht].
  destruct (q c); [destruct (startsWith q t)|]; simpl.
  - apply IH. exact Ht.
  - rewrite Hrep. apply IH. exact Ht.
  - rewrite Hc. apply IH. exact Ht.
Qed.

Lemma allChars_drop (n : nat) (s : string) :
  allChars p s = true -> allChars p (drop n s) = true.
Proof.
  revert s. induction n as [|n IH]; intros [|c t]; simpl; try (intros H; exact H).
  intros H. apply andb_prop in H. apply IH. apply H.
Qed.

Lemma allChars_take (n : nat) (s : string) :
  allChars p s = true -> allChars p (take n s) = true.
Proof.
  revert s. induction n as [|n IH]; intros [|c t]; simpl; try reflexivity.
  intros H. apply andb_prop in H. destruct H as [Hc Ht].
  rewrite Hc. apply IH. exact Ht.
Qed.

Lemma allChars_dropLast (s : string) :
  allChars p s = true -> allChars p (dropLast s) = true.
Proof.
  induction s as [|c t IH]; simpl; [reflexivity|].
  intros H. apply andb_prop in H. destruct H as [Hc Ht].
  destruct t as [|d u]; [reflexivity|].
  change (p c && allChars p (dropLast (String d u)) = true)%bool.
  rewrite Hc. apply IH. exact Ht.
Qed.

Lemma startsWith_replaceRuns (rep : ascii) (s : string) :
  p rep = true -> startsWith p (replaceRuns p rep s) = startsWith p s.
Proof.
  intros Hrep. induction s as [|c t IH]; simpl; [reflexivity|].
  destruct (p c) eqn:Ec.
  - destruct (startsWith p t) eqn:Et; simpl.
    + exact IH.
    + exact Hrep.
  - simpl. exact Ec.
Qed.

Lemma noAdjacent_replaceRuns (rep : ascii) (s : string) :
  p rep = true -> noAdjacent p (replaceRuns p rep s) = true.
Proof.
  intros Hrep. induction s as [|c t IH]; simpl; [reflexivity|].
  destruct (p c) eqn:Ec.
  - destruct (startsWith p t) eqn:Et; [exact IH|].
    simpl. rewrite (startsWith_replaceRuns rep t Hrep), Et, IH.
    rewrite andb_false_r. reflexivity.
  - simpl. rewrite Ec, IH. reflexivity.
Qed.

Lemma noAdjacent_tail (c : ascii) (t : string) :
  noAdjacent p (String c t) = true -> noAdjacent p t = true.
Proof. simpl. intros H. apply andb_prop in H. apply H. Qed.

Lemma noAdjacent_drop (n : nat) (s : string) :
  noAdjacent p s = true -> noAdjacent p (drop n s) = true.
Proof.
  revert s. induction n as [|n IH]; intros [|c t] H; simpl; try exact H.
  apply IH. exact (noAdjacent_tail c t H).
Qed.

Lemma startsWith_take (n : nat) (s : string) :
  startsWith p (take n s) = true -> startsWith p s = true.
Proof. destruct n, s; simpl; try discriminate. intros H; exact H. Qed.

Lemma startsWith_dropLast (s : string) :
  startsWith p (dropLast s) = true -> startsWith p s = true.
Proof.
  destruct s as [|c [|d u]]; simpl; try discriminate. intros H; exact H.
Qed.

Lemma noAdjacent_take (n : nat) (s : string) :
  noAdjacent p s = true -> noAdjacent p (take n s) = true.
Proof.
  revert s. induction n as [|n IH]; intros [|c t]; simpl; try reflexivity.
  intros H. apply andb_prop in H. destruct H as [Hc Ht].
  rewrite (IH t Ht), andb_true_r.
  destruct (p c); [|reflexivity]. simpl in *.
  destruct (startsWith p (take n t)) eqn:E; [|reflexivity].
  apply startsWith_take in E. rewrite E in Hc. discriminate.
Qed.

Lemma noAdjacent_dropLast (s : string) :
  noAdjacent p s = true -> noAdjacent p (dropLast s) = true.
Proof.
  induction s as [|c t IH]; [reflexivity|].
  intros H. destruct t as [|d u]; [reflexivity|].
  change (negb (p c && startsWith p (dropLast (String d u)))
          && noAdjacent p (dropLast (String d u)) = true)%bool.
  change (negb (p c && startsWith p (String d u))
          && noAdjacent p (String d u) = true)%bool in H.
  apply andb_prop in H. destruct H as [Hc Ht].
  rewrite (IH Ht), andb_true_r.
  destruct (p c); [|reflexivity].
  destruct (startsWith p (dropLast (String d u))) eqn:E; [|reflexivity].
  apply startsWith_dropLast in E. rewrite E in Hc. discriminate.
Qed.

End CharFacts.

Lemma stripEdgeHyphens_no_leading (s : string) :
  noAdjacent isHyphen s = true ->
  startsWith isHyphen (stripEdgeHyphens s) = false.
Proof.
  intros H. unfold stripEdgeHyphens.
  set (t := if startsWith isHyphen s then drop 1 s else s).
  assert (Ht : startsWith isHyphen t = false).
  { unfold t. destruct (startsWith isHyphen s) eqn:E; [|exact E].
    destruct s as [|c u]; [reflexivity|]. simpl in *.
    rewrite E in H. simpl in H.
    destruct (startsWith isHyphen u); [discriminate | reflexivity]. }
  destruct (endsWith isHyphen t); [|exact Ht].
  destruct (startsWith isHyphen (dropLast t)) eqn:E; [|reflexivity].
  apply startsWith_dropLast in E. rewrite E in Ht. discriminate.
Qed.

(** The parts of C9 that hold for every spec: the handle is made of the
    characters a-z, 0-9 and the hyphen, does not start with a hyphen, has no
    two hyphens in a row and has at most 255 characters. *)
Lemma createSEOOptimizedHandle_shape (p : ProductInfo) :
  let h := createSEOOptimizedHandle p in
  allChars isHandleChar h = true
  /\ startsWith isHyphen h = false
  /\ noAdjacent isHyphen h = true
  /\ (String.length h <= 255)%nat.
Proof.
  unfold createSEOOptimizedHandle.
  set (j := filterChars isHandleChar _).
  set (r := replaceRuns isHyphen "-" j).
  assert (Hj : allChars isHandleChar j = true) by apply allChars_filterChars.
  assert (Hr : allChars isHandleChar r = true).
  { apply allChars_replaceRuns; [reflexivity | exact Hj]. }
  assert (Hn : noAdjacent isHyphen r = true).
  { apply noAdjacent_replaceRuns. reflexivity. }
  assert (Hs : allChars isHandleChar (stripEdgeHyphens r) = true
               /\ noAdjacent isHyphen (stripEdgeHyphens r) = true).
  { unfold stripEdgeHyphens.
    set (t := if startsWith isHyphen r then drop 1 r else r).
    assert (Ht : allChars isHandleChar t = true /\ noAdjacent isHyphen t = true).
    { unfold t. destruct (startsWith isHyphen r).
      - split; [apply allChars_drop | apply noAdjacent_drop]; assumption.
      - split; assumption. }
    destruct Ht as [Ht1 Ht2].
    destruct (endsWith isHyphen t).
    - split; [apply allChars_dropLast | apply noAdjacent_dropLast]; assumption.
    - split; assumption. }
  destruct Hs as [Hs1 Hs2].
  cbv zeta. repeat split.
  - apply allChars_take. exact Hs1.
  - destruct (startsWith isHyphen (take 255 (stripEdgeHyphens r))) eqn:E;
      [|reflexivity].
    apply startsWith_take in E.
    rewrite (stripEdgeHyphens_no_leading r Hn) in E. discriminate.
  - apply noAdjacent_take. exact Hs2.
  - rewrite length_take. lia.
Qed.

(** C9, at the failing input.  The handle of [longProcessorSpec] has 255
    characters and its last one is a hyphen: the cut at 255 comes after the
    removal of the trailing hyphen and lands on the hyphen that separates
    the two words of the processor. *)
Theorem createSEOOptimizedHandle_trailing_hyphen :
  String.length (createSEOOptimizedHandle longProcessorSpec) = 255%nat
  /\ endsWith isHyphen (createSEOOptimizedHandle longProcessorSpec) = true.
Proof. vm_compute. split; reflexivity. Qed.

(** ** Variant prices *)

(** The discount table as the spec words it: the share of the retail price
    that a grade pays, in percent. *)
Definition percentOf (g : Grade) : Z :=
  match g with A => 70 | B => 68 | C => 66 | D => 61 end.

(** [round(r * pct / 100)] in exact arithmetic, a tie going up as in
    [Math.round]. *)
Definition roundedShare (r pct : Z) : Z := (2 * r * pct + 100) / 200.

(** Every retail price is a base price plus one adjustment of each kind. *)
Definition retailValues : list Z :=
  flat_map (fun b =>
    flat_map (fun s =>
      flat_map (fun m =>
        flat_map (fun c =>
          map (fun d => b + s + m + c + d) [0; 200; 300])
          [0; 500; 1000; 1500])
        [0; 500; 800; 1400])
      [0; 300; 500; 1000])
    (999 :: map snd retailPrices).

Lemma storageAdjustment_values p : In (storageAdjustment p) [0; 300; 500; 1000].
Proof.
  unfold storageAdjustment.
  repeat match goal with |- context [if ?b then _ else _] => destruct b end;
    simpl; tauto.
Qed.

Lemma memoryAdjustment_values p : In (memoryAdjustment p) [0; 500; 800; 1400].
Proof.
  unfold memoryAdjustment.
  repeat match goal with |- context [if ?b then _ else _] => destruct b end;
    simpl; tauto.
Qed.

Lemma processorAdjustment_values p :
  In (processorAdjustment p) [0; 500; 1000; 1500].
Proof.
  unfold processorAdjustment.
  repeat match goal with |- context [if ?b then _ else _] => destruct b end;
    simpl; tauto.
Qed.

Lemma displayAdjustment_values p : In (displayAdjustment p) [0; 200; 300].
Proof.
  unfold displayAdjustment.
  repeat match goal with |- context [if ?b then _ else _] => destruct b end;
    simpl; tauto.
Qed.

Lemma retailValues_intro b s m c d :
  In b (999 :: map snd retailPrices) ->
  In s [0; 300; 500; 1000] -> In m [0; 500; 800; 1400] ->
  In c [0; 500; 1000; 1500] -> In d [0; 200; 300] ->
  In (b + s + m + c + d) retailValues.
Proof.
  intros Hb Hs Hm Hc Hd. unfold retailValues.
  apply in_flat_map. exists b. split; [exact Hb|].
  apply in_flat_map. exists s. split; [exact Hs|].
  apply in_flat_map. exists m. split; [exact Hm|].
  apply in_flat_map. exists c. split; [exact Hc|].
  apply in_map_iff. exists d. split; [reflexivity | exact Hd].
Qed.

Lemma Some_injective {T : Type} (x y : T) : Some x = Some y -> x = y.
Proof. congruence. Qed.

Lemma calculateRetailPrice_values p r :
  calculateRetailPrice p = Some r -> In r retailValues.
Proof.
  unfold calculateRetailPrice.
  destruct (getProp retailPrices (productType p)) as [b| |] eqn:E;
    intros H; [ | discriminate | ]; apply Some_injective in H; rewrite <- H.
  - apply retailValues_intro;
      [ | apply storageAdjustment_values | apply memoryAdjustment_values
        | apply processorAdjustment_values | apply displayAdjustment_values ].
    right. apply getProp_Own in E. apply assoc_In in E.
    apply in_map_iff. exists (productType p, b). split; [reflexivity | exact E].
  - apply retailValues_intro;
      [ left; reflexivity
        | apply storageAdjustment_values | apply memoryAdjustment_values
        | apply processorAdjustment_values | apply displayAdjustment_values ].
Qed.

Definition multiplierOf (g : Grade) : float :=
  match g with
  | A => 0.70%float | B => 0.68%float | C => 0.66%float | D => 0.61%float
  end.

(** The double-precision product, rounded, against the exact share. *)
Definition priceAgrees (r : Z) (g : Grade) : bool :=
  match Math_round (PrimFloat.mul (ofZ r) (multiplierOf g)) with
  | Some v => v =? roundedShare r (percentOf g)
  | None => false
  end.

Lemma priceAgrees_retailValues :
  forallb (fun r => forallb (priceAgrees r) [A; B; C; D]) retailValues = true.
Proof. vm_compute. reflexivity. Qed.

Lemma priceAgrees_ok r g :
  In r retailValues ->
  Math_round (PrimFloat.mul (ofZ r) (multiplierOf g))
  = Some (roundedShare r (percentOf g)).
Proof.
  intros Hr.
  pose proof priceAgrees_retailValues as H.
  rewrite forallb_forall in H. specialize (H r Hr).
  rewrite forallb_forall in H.
  assert (Hg : In g [A; B; C; D]) by (destruct g; simpl; tauto).
  specialize (H g Hg). unfold priceAgrees in H.
  destruct (Math_round _) as [v|]; [|discriminate].
  apply Z.eqb_eq in H. rewrite H. reflexivity.
Qed.

Lemma conditionMultipliers_grade g :
  getProp conditionMultipliers (gradeName g) = Own (multiplierOf g).
Proof. destruct g; reflexivity. Qed.

(** C6. For every product spec and every grade A, B, C, D the variant price
    that the code computes in double precision is the retail price times
    0.70, 0.68, 0.66, 0.61 rounded to the nearest integer, exactly; it is
    [NaN] when the retail price is; and the compare-at price is the retail
    price for every grade. *)
Theorem calculateVariantPrice_exact :
  forall (p : ProductInfo) (g : Grade),
    calculateVariantPrice p (gradeName g)
    = option_map (fun r => roundedShare r (percentOf g)) (calculateRetailPrice p)
    /\ calculateComparePrice p (gradeName g) = calculateRetailPrice p.
Proof.
  intros p g. split; [|reflexivity].
  unfold calculateVariantPrice.
  destruct (calculateRetailPrice p) as [r|] eqn:E; [|reflexivity].
  rewrite conditionMultipliers_grade. simpl.
  apply priceAgrees_ok. apply (calculateRetailPrice_values p). exact E.
Qed.

(** ** Sorting permutes *)

Section ArraySortFacts.

Context {T : Type}.
Variable less : nat -> T -> T -> bool.

Lemma binaryInsertionSort_cons (sorted : list T) pivot rest n :
  binaryInsertionSort less sorted (pivot :: rest) n
  = let (left, n') :=
      binarySearch less (S (length sorted)) pivot sorted 0 (length sorted) n in
    binaryInsertionSort less
      (firstn left sorted ++ pivot :: skipn left sorted)%list rest n'.
Proof. reflexivity. Qed.

Lemma binaryInsertionSort_perm (rest sorted : list T) (n : nat) :
  Permutation (sorted ++ rest)%list (fst (binaryInsertionSort less sorted rest n)).
Proof.
  revert sorted n. induction rest as [|pivot rest IH]; intros sorted n.
  - cbn [binaryInsertionSort fst]. rewrite app_nil_r. apply Permutation_refl.
  - rewrite binaryInsertionSort_cons.
    destruct (binarySearch less (S (length sorted)) pivot sorted 0 (length sorted) n)
      as [left n'].
    eapply Permutation_trans; [|apply IH].
    rewrite <- (firstn_skipn left sorted) at 1.
    rewrite <- !app_assoc. apply Permutation_app_head.
    apply Permutation_sym, Permutation_middle.
Qed.

Lemma countAndMakeRun_perm (l : list T) (n : nat) :
  Permutation l (fst (fst (countAndMakeRun less l n))).
Proof.
  unfold countAndMakeRun.
  destruct l as [|low [|next rest]]; try apply Permutation_refl.
  destruct (extendRun less _ next rest (S n) 2) as [runLength n']. simpl fst.
  rewrite <- (firstn_skipn runLength (low :: next :: rest)) at 1.
  apply Permutation_app_tail.
  destruct (less n next low); [apply Permutation_rev | apply Permutation_refl].
Qed.

Lemma arraySort_perm (l : list T) (n : nat) :
  Permutation l (fst (arraySort less l n)).
Proof.
  unfold arraySort.
  destruct l as [|a [|b rest]]; try apply Permutation_refl.
  pose proof (countAndMakeRun_perm (a :: b :: rest) n) as Hrun.
  destruct (countAndMakeRun less (a :: b :: rest) n) as [[work runLength] n'].
  simpl fst in Hrun.
  eapply Permutation_trans; [exact Hrun|].
  rewrite <- (firstn_skipn runLength work) at 1.
  apply binaryInsertionSort_perm.
Qed.

End ArraySortFacts.

(** ** Facts about the reconciler *)

Section ReconcilerProofs.

Import Sync.

(** *** Facts about [createAdvancedVariants] *)

(** The number of units of [items] that have a stock id and a serial number
    and whose colour, condition and keyboard make the key [k]. *)
Definition countKey (k : string) (items : list StockItem) : Z :=
  Z.of_nat
    (length (filter (fun it => (hasIds it && String.eqb (variantKey it) k)%bool)
               items)).


Definition aggregateKey (e : Aggregate) : string :=
  aColor e ++ "|" ++ aCondition e ++ "|" ++ aKeyboardLayout e.


Lemma countKey_nonneg k items : 0 <= countKey k items.
Proof. unfold countKey. lia. Qed.

Lemma countKey_snoc k items x :
  countKey k (items ++ [x])%list
  = countKey k items
    + (if (hasIds x && String.eqb (variantKey x) k)%bool then 1 else 0).
Proof.
  unfold countKey. rewrite filter_app, length_app. simpl.
  destruct (hasIds x && String.eqb (variantKey x) k)%bool; simpl; lia.
Qed.

Lemma keys_setProp {V : Type} (k : string) (v : V) (o : Obj V) (k' : string) :
  In k' (map fst (setProp k v o)) <-> k' = k \/ In k' (map fst o).
Proof.
  induction o as [|[k0 v0] t IH]; simpl.
  - split; intros [H|H]; try contradiction; left; symmetry; exact H.
  - destruct (String.eqb k k0) eqn:E; simpl.
    + apply String.eqb_eq in E. subst k0. split.
      * intros [H|H]; [left; symmetry; exact H | right; right; exact H].
      * intros [H|[H|H]]; [left; symmetry; exact H | left; exact H | right; exact H].
    + rewrite IH. tauto.
Qed.

Lemma NoDup_keys_setProp {V : Type} (k : string) (v : V) (o : Obj V) :
  NoDup (map fst o) -> NoDup (map fst (setProp k v o)).
Proof.
  induction o as [|[k0 v0] t IH]; simpl; intros H.
  - constructor; [intros [] | constructor].
  - inversion H as [|x l Hx Hl]; subst.
    destruct (String.eqb k k0) eqn:E; simpl.
    + apply String.eqb_eq in E. subst k0. constructor; assumption.
    + constructor; [|apply IH; exact Hl].
      rewrite keys_setProp. intros [H1|H1]; [|contradiction].
      subst k0. rewrite String.eqb_refl in E. discriminate.
Qed.

Lemma In_assoc {V : Type} (o : Obj V) (k : string) (v : V) :
  NoDup (map fst o) -> In (k, v) o -> assoc k o = Some v.
Proof.
  induction o as [|[k0 v0] t IH]; simpl; intros Hnd Hin; [contradiction|].
  inversion Hnd as [|x l Hx Hl]; subst.
  destruct Hin as [Heq|Hin].
  - inversion Heq; subst. rewrite String.eqb_refl. reflexivity.
  - destruct (String.eqb k k0) eqn:E.
    + apply String.eqb_eq in E. subst k0. exfalso. apply Hx.
      apply in_map_iff. exists (k, v). split; [reflexivity | exact Hin].
    + apply IH; assumption.
Qed.

(** What [variantMap] holds once [items] have been folded into it. *)
Record aggregated (items : list StockItem) (m : Obj Aggregate) : Prop := {
  agg_nodup : NoDup (map fst m);
  agg_entry : forall k e, assoc k m = Some e ->
      aQuantity e = countKey k items /\ 0 < aQuantity e /\ aggregateKey e = k;
  agg_cover : forall k, 0 < countKey k items -> exists e, assoc k m = Some e
}.

Lemma aggregated_nil : aggregated [] [].
Proof.
  constructor.
  - constructor.
  - intros k e H. discriminate.
  - intros k H. unfold countKey in H. simpl in H. lia.
Qed.

Lemma aggregated_step items m x :
  aggregated items m -> aggregated (items ++ [x])%list (aggregate m x).
Proof.
  intros [Hnd Hentry Hcover]. unfold aggregate.
  destruct (hasIds x) eqn:Hx; simpl negb; cbv iota.
  - set (key := variantKey x).
    constructor.
    + apply NoDup_keys_setProp. exact Hnd.
    + intros k e. destruct (String.eqb_spec k key) as [->|Hne].
      * rewrite assoc_setProp_same. intros H. apply Some_injective in H. subst e.
        rewrite countKey_snoc, Hx. fold key. rewrite String.eqb_refl.
        simpl andb. cbv iota. simpl.
        destruct (assoc key m) as [e0|] eqn:E0.
        -- destruct (Hentry key e0 E0) as (Hq & Hpos & Hkey).
           split; [lia | split; [lia | exact Hkey]].
        -- simpl. assert (Hz : countKey key items = 0).
           { pose proof (countKey_nonneg key items) as Hge.
             destruct (Z.eq_dec (countKey key items) 0) as [H0|H0]; [exact H0|].
             assert (Hp : 0 < countKey key items) by lia.
             destruct (Hcover key Hp) as [e1 He1]. rewrite E0 in He1.
             discriminate. }
           split; [lia | split; [lia | reflexivity]].
      * rewrite (assoc_setProp_other m key k _ Hne). intros H.
        destruct (Hentry k e H) as (Hq & Hpos & Hkey).
        rewrite countKey_snoc.
        assert (Hk : String.eqb (variantKey x) k = false).
        { apply String.eqb_neq. intros Heq. apply Hne. symmetry. exact Heq. }
        rewrite Hk, andb_false_r. split; [lia | split; [exact Hpos | exact Hkey]].
    + intros k. destruct (String.eqb_spec k key) as [->|Hne].
      * intros _. rewrite assoc_setProp_same. eexists. reflexivity.
      * rewrite (assoc_setProp_other m key k _ Hne).
        rewrite countKey_snoc.
        assert (Hk : String.eqb (variantKey x) k = false).
        { apply String.eqb_neq. intros Heq. apply Hne. symmetry. exact Heq. }
        rewrite Hk, andb_false_r. intros H. apply Hcover. lia.
  - constructor.
    + exact Hnd.
    + intros k e H. rewrite countKey_snoc, Hx. simpl. rewrite Z.add_0_r.
      exact (Hentry k e H).
    + intros k. rewrite countKey_snoc, Hx. simpl. rewrite Z.add_0_r.
      apply Hcover.
Qed.

Lemma fold_left_snoc {X Y : Type} (f : X -> Y -> X) (l : list Y) (y : Y) (x : X) :
  fold_left f (l ++ [y])%list x = f (fold_left f l x) y.
Proof. rewrite fold_left_app. reflexivity. Qed.

Lemma aggregated_fold items :
  aggregated items (fold_left aggregate items []).
Proof.
  induction items as [|x items IH] using rev_ind.
  - apply aggregated_nil.
  - rewrite fold_left_snoc. apply aggregated_step. exact IH.
Qed.

Lemma countKey_pos_of_unit items it :
  In it items -> hasIds it = true -> 0 < countKey (variantKey it) items.
Proof.
  intros Hin Hid. unfold countKey.
  assert (H : In it (filter (fun x => (hasIds x && String.eqb (variantKey x)
                                         (variantKey it))%bool) items)).
  { apply filter_In. split; [exact Hin|].
    rewrite Hid, String.eqb_refl. reflexivity. }
  destruct (filter _ items); [contradiction | simpl; lia].
Qed.

Lemma aggregated_empty items :
  aggregated items [] -> forallb (fun it => negb (hasIds it)) items = true.
Proof.
  intros [_ _ Hcover]. apply forallb_forall. intros it Hin.
  destruct (hasIds it) eqn:Hid; [|reflexivity].
  destruct (Hcover _ (countKey_pos_of_unit items it Hin Hid)) as [e He].
  discriminate.
Qed.

Lemma fold_aggregate_none items m :
  forallb (fun it => negb (hasIds it)) items = true ->
  fold_left aggregate items m = m.
Proof.
  revert m. induction items as [|x items IH]; intros m H; simpl; [reflexivity|].
  simpl in H. apply andb_prop in H. destruct H as [Hx Hrest].
  unfold aggregate at 2. rewrite Hx. apply IH. exact Hrest.
Qed.

Section VariantFacts.

Variable localeCompare : string -> string -> Z.

(** The two ways [createAdvancedVariants] ends: on the default variant when
    the map of aggregates is empty, on the aggregates in some order
    otherwise. *)
Lemma createAdvancedVariants_cases (g : ProductGroup) :
  let m := fold_left aggregate (stockItems g) [] in
  (m = [] /\ createAdvancedVariants localeCompare g = [defaultVariant g])
  \/ (m <> []
      /\ Permutation (map (fun kv => toShopifyVariant g (snd kv)) m)
           (createAdvancedVariants localeCompare g)).
Proof.
  intros m. unfold createAdvancedVariants. fold m.
  set (vs := map (fun kv => toShopifyVariant g (snd kv)) m).
  pose proof (arraySort_perm (fun _ a b => compareVariants localeCompare a b <? 0)
                vs 0) as Hperm.
  destruct (fst (arraySort _ vs 0)) as [|v rest] eqn:E.
  - left. apply Permutation_sym, Permutation_nil in Hperm.
    split; [|reflexivity].
    unfold vs in Hperm. destruct m; [reflexivity | discriminate].
  - right. split; [|exact Hperm].
    intros Hm. unfold vs in Hperm. rewrite Hm in Hperm. simpl in Hperm.
    apply Permutation_nil in Hperm. discriminate.
Qed.

(** C10. [createAdvancedVariants] returns at least one variant.  When no
    stock item of the group has both a stock id and a serial number (in
    particular when the group has no stock item) it returns the default
    variant alone: Space Gray, Grade A, English, with the group's totalUnits
    as inventory quantity, 0 when totalUnits is absent. *)
Theorem createAdvancedVariants_nonempty :
  forall (g : ProductGroup),
    (1 <= length (createAdvancedVariants localeCompare g))%nat
    /\ (forallb (fun it => negb (hasIds it)) (stockItems g) = true ->
        createAdvancedVariants localeCompare g = [defaultVariant g])
    /\ option1 (defaultVariant g) = "Space Gray"
    /\ option2 (defaultVariant g) = "Grade A"
    /\ option3 (defaultVariant g) = "English"
    /\ inventory_quantity (defaultVariant g)
       = match totalUnits g with Some n => n | None => 0 end.
Proof.
  intros g. split; [|split; [|repeat split]].
  - destruct (createAdvancedVariants_cases g) as [[_ H]|[Hm Hperm]].
    + rewrite H. simpl. lia.
    + apply Permutation_length in Hperm. rewrite <- Hperm, length_map.
      destruct (fold_left aggregate (stockItems g) []); [contradiction|].
      simpl. lia.
  - intros Hnone.
    destruct (createAdvancedVariants_cases g) as [[_ H]|[Hm _]]; [exact H|].
    rewrite (fold_aggregate_none _ [] Hnone) in Hm. contradiction.
Qed.




End VariantFacts.

(** *** Facts about the requests a computation sends *)

(** [sends P m]: [m] only adds requests to the trace, and each of them
    satisfies [P]. *)
Definition sends {X : Type} (P : request -> Prop) (m : Run X) : Prop :=
  forall trace, exists sent,
    fst (m trace) = (trace ++ sent)%list /\ Forall P sent.

Lemma sends_ret {X : Type} (P : request -> Prop) (x : X) : sends P (ret x).
Proof.
  intros trace. exists []. simpl. rewrite app_nil_r. split; constructor.
Qed.

Lemma sends_throw {X : Type} (P : request -> Prop) (e : error) :
  sends P (@throw X e).
Proof.
  intros trace. exists []. simpl. rewrite app_nil_r. split; constructor.
Qed.

Lemma sends_bind {X Y : Type} (P : request -> Prop) (m : Run X)
    (k : X -> Run Y) :
  sends P m -> (forall x, sends P (k x)) -> sends P (bind m k).
Proof.
  intros Hm Hk trace. unfold bind.
  destruct (Hm trace) as (s1 & E1 & F1).
  destruct (m trace) as [trace' [x|e]]; simpl in E1; subst trace'.
  - destruct (Hk x (trace ++ s1)%list) as (s2 & E2 & F2).
    exists (s1 ++ s2)%list. rewrite E2, app_assoc. split; [reflexivity|].
    apply Forall_app. split; assumption.
  - exists s1. split; [reflexivity | exact F1].
Qed.

Lemma sends_catch {X : Type} (P : request -> Prop) (m : Run X)
    (h : error -> Run X) :
  sends P m -> (forall e, sends P (h e)) -> sends P (catch m h).
Proof.
  intros Hm Hh trace. unfold catch.
  destruct (Hm trace) as (s1 & E1 & F1).
  destruct (m trace) as [trace' [x|e]]; simpl in E1; subst trace'.
  - exists s1. split; [reflexivity | exact F1].
  - destruct (Hh e (trace ++ s1)%list) as (s2 & E2 & F2).
    exists (s1 ++ s2)%list. rewrite E2, app_assoc. split; [reflexivity|].
    apply Forall_app. split; assumption.
Qed.

Definition isPostProduct (r : request) : bool :=
  match r with PostProduct _ => true | _ => false end.

Definition notCreate (r : request) : Prop := isPostProduct r = false.

Section ReconcilerFacts.

Variable localeCompare : string -> string -> Z.
Variable net : nat -> response.

Lemma sends_fetch (P : request -> Prop) (r : request) :
  P r -> sends P (fetch net r).
Proof.
  intros Hr trace. exists [r]. unfold fetch. simpl.
  split; [reflexivity | constructor; [exact Hr | constructor]].
Qed.

(** The request that the update loop sends for one local variant. *)
Definition requestFor (existingProduct : RemoteProduct) (newVariant : Variant)
  : request :=
  match find (sameOptions newVariant) (rpVariants existingProduct) with
  | Some existingVariant =>
      PutVariant (rvId existingVariant)
        (currentInventory existingVariant + inventory_quantity newVariant)
        (price newVariant) (compare_at_price newVariant) (sku newVariant)
  | None => PostVariant (rpId existingProduct) newVariant
  end.

Lemma updateVariants_sent existingProduct newVariants u c trace :
  exists n,
    fst (updateVariants net existingProduct newVariants u c trace)
    = (trace ++ firstn n (map (requestFor existingProduct) newVariants))%list.
Proof.
  revert u c trace.
  induction newVariants as [|nv rest IH]; intros u c trace.
  - exists 0%nat. simpl. rewrite app_nil_r. reflexivity.
  - cbn [updateVariants map]. unfold requestFor at 1.
    destruct (find (sameOptions nv) (rpVariants existingProduct)) as [ev|].
    + unfold bind, fetch.
      destruct (net (length trace)) as [id|code|].
      * destruct (IH (u + 1) c (trace ++ [PutVariant (rvId ev)
                    (currentInventory ev + inventory_quantity nv) (price nv)
                    (compare_at_price nv) (sku nv)])%list) as [n Hn].
        exists (S n). rewrite Hn, <- app_assoc. reflexivity.
      * exists 1%nat. reflexivity.
      * exists 1%nat. reflexivity.
    + unfold bind, fetch.
      destruct (net (length trace)) as [id|code|].
      * destruct (IH u (c + 1)
                    (trace ++ [PostVariant (rpId existingProduct) nv])%list)
          as [n Hn].
        exists (S n). rewrite Hn, <- app_assoc. reflexivity.
      * exists 1%nat. reflexivity.
      * exists 1%nat. reflexivity.
Qed.



Definition putProductOf (existingProduct : RemoteProduct) (g : ProductGroup)
  : request :=
  PutProduct (rpId existingProduct) (seoTitle g) (productDescription g)
    (String.concat ", " (tags g)) (seoDescription g).

Lemma update_sent existingProduct g trace :
  exists n,
    fst (updateExistingProductAdvanced localeCompare net existingProduct g trace)
    = (trace ++ putProductOf existingProduct g
         :: firstn n (map (requestFor existingProduct)
                        (createAdvancedVariants localeCompare g)))%list.
Proof.
  unfold updateExistingProductAdvanced, bind at 1, fetch.
  fold (putProductOf existingProduct g).
  destruct (net (length trace)) as [id|code|].
  - unfold bind.
    destruct (updateVariants_sent existingProduct
                (createAdvancedVariants localeCompare g) 0 0
                (trace ++ [putProductOf existingProduct g])%list) as [n Hn].
    exists n.
    destruct (updateVariants net existingProduct _ 0 0 _) as [trace' [x|e]];
      simpl in Hn |- *; rewrite Hn, <- app_assoc; reflexivity.
  - exists 0%nat. reflexivity.
  - exists 0%nat. reflexivity.
Qed.


Lemma In_firstn {X : Type} (x : X) (n : nat) (l : list X) :
  In x (firstn n l) -> In x l.
Proof.
  revert l. induction n as [|n IH]; intros [|y l]; simpl; try contradiction.
  intros [H|H]; [left; exact H | right; apply IH; exact H].
Qed.

Lemma skipn_app_length {X : Type} (l1 l2 : list X) :
  skipn (length l1) (l1 ++ l2)%list = l2.
Proof. induction l1 as [|x l1 IH]; simpl; [reflexivity | exact IH]. Qed.



End ReconcilerFacts.

Lemma find_of_existsb {X : Type} (f : X -> bool) (l : list X) :
  if existsb f l then exists x, find f l = Some x else find f l = None.
Proof.
  induction l as [|y l IH]; simpl; [reflexivity|].
  destruct (f y); simpl; [exists y; reflexivity | exact IH].
Qed.

Section SyncFacts.

Variable localeCompare : string -> string -> Z.
Variable net : nat -> response.

Lemma sends_uploadImages productId images uploaded :
  sends notCreate (uploadImages net productId images uploaded).
Proof.
  revert uploaded. induction images as [|image rest IH]; intros uploaded.
  - apply sends_ret.
  - cbn [uploadImages]. apply sends_bind; [|intros n; apply IH].
    apply sends_catch; [|intros e; apply sends_ret].
    apply sends_bind; [apply sends_fetch; reflexivity|].
    intros [id|code|]; apply sends_ret.
Qed.

Lemma sends_addProductToCollections productId names collectionsMap :
  sends notCreate
    (addProductToCollectionsAdvanced net productId names collectionsMap).
Proof.
  induction names as [|name rest IH].
  - apply sends_ret.
  - cbn [addProductToCollectionsAdvanced].
    destruct (getProp collectionsMap (toLowerCase name)) as [cid|k|];
      [destruct (Z.eqb cid 0); [exact IH|] | |exact IH];
      (apply sends_bind; [|intros _; exact IH]);
      (apply sends_catch; [|intros e; apply sends_ret]);
      (apply sends_bind; [apply sends_fetch; reflexivity|]);
      intros _; apply sends_ret.
Qed.

Lemma sends_update existingProduct g :
  sends notCreate
    (updateExistingProductAdvanced localeCompare net existingProduct g).
Proof.
  intros trace. destruct (update_sent localeCompare net existingProduct g trace)
    as [n Hn].
  eexists. split; [exact Hn|].
  constructor; [reflexivity|].
  apply Forall_forall. intros r Hr. apply In_firstn in Hr.
  apply in_map_iff in Hr. destruct Hr as (nv & <- & _).
  unfold requestFor. destruct (find _ _); reflexivity.
Qed.

(** A create sends the product first and no second product after it. *)
Lemma create_sent g collectionsMap trace :
  exists rest,
    fst (createNewProductAdvanced localeCompare net g collectionsMap trace)
    = (trace ++ PostProduct (productDataOf localeCompare g) :: rest)%list
    /\ Forall notCreate rest.
Proof.
  unfold createNewProductAdvanced, bind at 1, fetch.
  destruct (net (length trace)) as [productId|code|].
  - set (after :=
           (_ <- match imageAvailability g with
                 | Some availability =>
                     if hasImages availability
                     then uploadProductImages net productId
                            (bestMatch availability)
                     else ret 0
                 | None => ret 0
                 end ;;
            _ <- addProductToCollectionsAdvanced net productId (collections g)
                   collectionsMap ;;
            ret {| crProductId := productId;
                   crVariantsCreated :=
                     Z.of_nat
                       (length (pdVariants (productDataOf localeCompare g)));
                   crStockItemsProcessed := totalUnits g |})).
    assert (Hafter : sends notCreate after).
    { unfold after. apply sends_bind.
      - destruct (imageAvailability g) as [availability|]; [|apply sends_ret].
        destruct (hasImages availability); [|apply sends_ret].
        unfold uploadProductImages.
        destruct (bestMatch availability); [|apply sends_ret].
        apply sends_uploadImages.
      - intros _. apply sends_bind;
          [apply sends_addProductToCollections | intros _; apply sends_ret]. }
    destruct (Hafter (trace ++ [PostProduct (productDataOf localeCompare g)])%list)
      as (rest & Hrest & Hnot).
    exists rest. fold after. rewrite Hrest, <- app_assoc.
    split; [reflexivity | exact Hnot].
  - exists []. split; [reflexivity | constructor].
  - exists []. split; [reflexivity | constructor].
Qed.

Variable existingProducts : list RemoteProduct.
Variable collectionsMap : Obj Z.

(** What one group of the loop sends and returns, by whether a fetched
    remote product has its title. *)
Lemma syncGroup_sent :
  forall (results : Results) (g : ProductGroup) (trace : list request),
    let run :=
      syncGroup localeCompare net existingProducts collectionsMap results g
        trace in
    let sent := skipn (length trace) (fst run) in
    let titleMatches := fun product =>
      String.eqb (toLowerCase (rpTitle product)) (toLowerCase (seoTitle g)) in
    fst run = (trace ++ sent)%list
    /\ if existsb titleMatches existingProducts
       then Forall notCreate sent
            /\ ((exists u, snd run = inl (recordUpdated results g u))
                \/ (exists e, snd run
                      = inl (recordError results
                               (UpdateFailedSkipped (seoTitle g) e))))
       else exists rest,
              sent = PostProduct (productDataOf localeCompare g) :: rest
              /\ Forall notCreate rest.
Proof.
  intros results g trace run sent titleMatches.
  unfold sent, run, syncGroup, findExistingProductAdvanced.
  fold titleMatches.
  pose proof (find_of_existsb titleMatches existingProducts) as Hfind.
  destruct (existsb titleMatches existingProducts).
  - destruct Hfind as [existingProduct Hfind]. rewrite Hfind.
    destruct (sends_update existingProduct g trace) as (new & Hnew & Hnot).
    unfold catch, bind.
    destruct (updateExistingProductAdvanced localeCompare net existingProduct
                g trace) as [trace' [u|e]]; simpl in Hnew; subst trace';
      simpl; rewrite skipn_app_length.
    + split; [reflexivity|]. split; [exact Hnot|]. left. exists u. reflexivity.
    + split; [reflexivity|]. split; [exact Hnot|]. right. exists e. reflexivity.
  - rewrite Hfind.
    destruct (create_sent g collectionsMap trace) as (rest & Hrest & Hnot).
    unfold catch, bind.
    destruct (createNewProductAdvanced localeCompare net g collectionsMap trace)
      as [trace' [c|e]]; simpl in Hrest; subst trace';
      simpl; rewrite skipn_app_length;
      (split; [reflexivity|]); exists rest; (split; [reflexivity | exact Hnot]).
Qed.

(** C3. One group of the sync loop.  When some fetched remote product has a
    title equal to the group's title once both are lower-cased (equal as a
    whole, not in part), the group runs the update of the first such
    product and nothing else: its requests are the requests of that update,
    none of them a product create; when the update returns the group is
    recorded as updated with its result, and when the update fails the
    group is recorded as an error that carries the failure of the update,
    with the created and updated counts unchanged, and no create is tried.
    When no fetched remote product has such a title the group runs the
    create: its requests are those of the create, the product create first
    and no second one, and the outcome of the create is what is recorded. *)
Theorem sync_updates_on_exact_title_match :
  forall (results : Results) (g : ProductGroup) (trace : list request),
    let run :=
      syncGroup localeCompare net existingProducts collectionsMap results g
        trace in
    let titleMatches := fun product =>
      String.eqb (toLowerCase (rpTitle product)) (toLowerCase (seoTitle g)) in
    if existsb titleMatches existingProducts
    then
      exists existingProduct,
        find titleMatches existingProducts = Some existingProduct
        /\ In existingProduct existingProducts
        /\ toLowerCase (rpTitle existingProduct) = toLowerCase (seoTitle g)
        /\ let update :=
             updateExistingProductAdvanced localeCompare net existingProduct g
               trace in
           fst run = fst update
           /\ (exists sent,
                 fst run = (trace ++ sent)%list /\ Forall notCreate sent)
           /\ snd run
              = match snd update with
                | inl updateResult =>
                    inl (recordUpdated results g updateResult)
                | inr updateError =>
                    inl (recordError results
                           (UpdateFailedSkipped (seoTitle g) updateError))
                end
           /\ (forall updateError, snd update = inr updateError ->
                 exists results',
                   snd run = inl results'
                   /\ created results' = created results
                   /\ updated results' = updated results
                   /\ errors results' = errors results + 1
                   /\ details results'
                      = (details results
                         ++ [UpdateFailedSkipped (seoTitle g) updateError])%list)
    else
      (forall product, In product existingProducts ->
         toLowerCase (rpTitle product) <> toLowerCase (seoTitle g))
      /\ let create :=
           createNewProductAdvanced localeCompare net g collectionsMap trace in
         fst run = fst create
         /\ (exists rest,
               fst run
               = (trace ++ PostProduct (productDataOf localeCompare g) :: rest)%list
               /\ Forall notCreate rest)
         /\ snd run
            = match snd create with
              | inl createResult => inl (recordCreated results g createResult)
              | inr createError =>
                  inl (recordError results
                         (CreateFailed (seoTitle g) createError))
              end.
Proof.
  intros results g trace run titleMatches.
  pose proof (find_of_existsb titleMatches existingProducts) as Hfind.
  destruct (existsb titleMatches existingProducts) eqn:Hex.
  - destruct Hfind as [existingProduct Hfind].
    exists existingProduct. split; [exact Hfind|].
    pose proof (find_some _ _ Hfind) as [Hin Hmatch].
    split; [exact Hin|].
    split; [apply String.eqb_eq; exact Hmatch|].
    cbv zeta. unfold run, syncGroup, findExistingProductAdvanced.
    fold titleMatches. rewrite Hfind.
    destruct (sends_update existingProduct g trace) as (sent & Hsent & Hnot).
    unfold catch, bind.
    destruct (updateExistingProductAdvanced localeCompare net existingProduct
                g trace) as [trace' [u|e]]; cbn [fst snd ret] in *.
    + split; [reflexivity|].
      split; [exists sent; split; [exact Hsent | exact Hnot]|].
      split; [reflexivity|]. intros updateError H. discriminate H.
    + split; [reflexivity|].
      split; [exists sent; split; [exact Hsent | exact Hnot]|].
      split; [reflexivity|]. intros updateError H.
      injection H as <-. eexists. split; [reflexivity|].
      cbn [recordError created updated errors details].
      repeat split; reflexivity.
  - split.
    + intros product Hin Heq.
      assert (Htrue : existsb titleMatches existingProducts = true).
      { apply existsb_exists. exists product. split; [exact Hin|].
        apply String.eqb_eq. exact Heq. }
      rewrite Htrue in Hex. discriminate Hex.
    + cbv zeta. unfold run, syncGroup, findExistingProductAdvanced.
      fold titleMatches. rewrite Hfind.
      destruct (create_sent g collectionsMap trace) as (rest & Hrest & Hnot).
      unfold catch, bind.
      destruct (createNewProductAdvanced localeCompare net g collectionsMap
                  trace) as [trace' [c|e]]; cbn [fst snd ret] in *;
        (split; [reflexivity|]);
        (split; [exists rest; split; [exact Hrest | exact Hnot]|]);
        reflexivity.
Qed.

End SyncFacts.

End ReconcilerProofs.

(** ** The whole sync loop *)

Section LoopFacts.

Import Sync.

Variable localeCompare : string -> string -> Z.
Variable net : nat -> response.
Variable existingProducts : list RemoteProduct.
Variable collectionsMap : Obj Z.

Definition titleMatches (g : ProductGroup) (product : RemoteProduct) : bool :=
  String.eqb (toLowerCase (rpTitle product)) (toLowerCase (seoTitle g)).

(** A create request of a run is the create request of a group without a
    remote product of its title. *)
Definition createOf (productGroups : list ProductGroup) (r : request) : Prop :=
  match r with
  | PostProduct d =>
      exists g, In g productGroups
                /\ d = productDataOf localeCompare g
                /\ existsb (titleMatches g) existingProducts = false
  | _ => True
  end.

Lemma syncGroup_returns results g trace :
  exists results',
    snd (syncGroup localeCompare net existingProducts collectionsMap results g
           trace) = inl results'.
Proof.
  unfold syncGroup, catch.
  destruct (findExistingProductAdvanced existingProducts g) as [existing|].
  - destruct (bind _ _ trace) as [t [r|e]]; eexists; reflexivity.
  - destruct (bind _ _ trace) as [t [r|e]]; eexists; reflexivity.
Qed.

Lemma syncGroup_creates results g trace :
  exists sent,
    fst (syncGroup localeCompare net existingProducts collectionsMap results g
           trace) = (trace ++ sent)%list
    /\ Forall (createOf [g]) sent.
Proof.
  pose proof (syncGroup_sent localeCompare net existingProducts
                collectionsMap results g trace) as H.
  cbv zeta in H. destruct H as [Hsent H].
  eexists. split; [exact Hsent|].
  fold (titleMatches g) in H.
  destruct (existsb (titleMatches g) existingProducts) eqn:E.
  - destruct H as [Hnot _]. eapply Forall_impl; [|exact Hnot].
    intros r Hr. destruct r; try exact I. discriminate.
  - destruct H as (rest & -> & Hnot). constructor.
    + exists g. split; [left; reflexivity|]. split; [reflexivity | exact E].
    + eapply Forall_impl; [|exact Hnot].
      intros r Hr. destruct r; try exact I. discriminate.
Qed.

Lemma createOf_weaken gs gs' r :
  incl gs gs' -> createOf gs r -> createOf gs' r.
Proof.
  intros Hincl. destruct r; simpl; try (intros; exact I).
  intros (g & Hin & Hd & Hm). exists g. split; [apply Hincl; exact Hin|].
  split; assumption.
Qed.

(** X1. Over a whole run, every product-create request is the one of a group
    whose title no fetched remote product has. *)
Lemma syncGroups_creates productGroups results trace :
  exists sent,
    fst (syncGroups localeCompare net existingProducts collectionsMap
           productGroups results trace) = (trace ++ sent)%list
    /\ Forall (createOf productGroups) sent.
Proof.
  revert results trace.
  induction productGroups as [|g rest IH]; intros results trace.
  - exists []. simpl. rewrite app_nil_r. split; constructor.
  - cbn [syncGroups]. unfold bind.
    destruct (syncGroup_creates results g trace) as (s1 & E1 & F1).
    destruct (syncGroup_returns results g trace) as (r1 & R1).
    destruct (syncGroup localeCompare net existingProducts collectionsMap
                results g trace) as [t1 o1].
    simpl in E1, R1. subst t1 o1.
    destruct (IH r1 (trace ++ s1)%list) as (s2 & E2 & F2).
    exists (s1 ++ s2)%list. rewrite E2, app_assoc. split; [reflexivity|].
    apply Forall_app. split.
    + eapply Forall_impl; [|exact F1]. intros r.
      apply createOf_weaken. intros x [<-|[]]. left. reflexivity.
    + eapply Forall_impl; [|exact F2]. intros r.
      apply createOf_weaken. intros x Hx. right. exact Hx.
Qed.

End LoopFacts.

(** ** Facts about the description *)

Lemma faqPool_NoDup (keyboardInfo : string) : NoDup (faqPool keyboardInfo).
Proof.
  apply (NoDup_map_inv question). simpl.
  repeat (constructor; [simpl; intuition discriminate|]). constructor.
Qed.

Lemma NoDup_firstn {X : Type} (n : nat) (l : list X) :
  NoDup l -> NoDup (firstn n l).
Proof.
  revert l. induction n as [|n IH]; intros [|x l] H; simpl; try constructor.
  - inversion H as [|y l' Hx Hl]; subst. intros Hin. apply Hx.
    revert Hin. clear. revert l. induction n as [|n IH]; intros [|y l]; simpl;
      try contradiction.
    intros [H|H]; [left; exact H | right; apply IH; exact H].
  - inversion H; subst. apply IH. assumption.
Qed.

Lemma incl_firstn {X : Type} (n : nat) (l : list X) : incl (firstn n l) l.
Proof.
  revert l. induction n as [|n IH]; intros [|x l] y; simpl; try contradiction.
  intros [H|H]; [left; exact H | right; apply IH; exact H].
Qed.

Lemma selectedFAQs_spec (random : nat -> float) (keyboardInfo : string) :
  length (selectedFAQs random keyboardInfo) = 4%nat
  /\ NoDup (selectedFAQs random keyboardInfo)
  /\ incl (selectedFAQs random keyboardInfo) (faqPool keyboardInfo).
Proof.
  unfold selectedFAQs.
  set (less := fun (n : nat) (_ _ : FAQ) =>
                 PrimFloat.ltb (PrimFloat.sub 0.5%float (random n)) 0%float).
  pose proof (arraySort_perm less (faqPool keyboardInfo) 0) as Hperm.
  set (sorted := fst (arraySort less (faqPool keyboardInfo) 0)) in *.
  split; [|split].
  - rewrite length_firstn. rewrite <- (Permutation_length Hperm). reflexivity.
  - apply NoDup_firstn.
    apply (Permutation_NoDup Hperm). apply faqPool_NoDup.
  - intros x Hx. apply incl_firstn in Hx.
    apply (Permutation_in _ (Permutation_sym Hperm)). exact Hx.
Qed.

(** C5, as the code has it.  Two evaluations of
    [createAdvancedProductDescription] on the same spec and variants agree
    on every fact of the description; each of them shows four different
    questions of the pool of eight, and which four, in which order, is
    decided by the draws of [Math.random]. *)
Theorem createAdvancedProductDescription_up_to_faq :
  forall (random1 random2 : nat -> float) (p : ProductInfo)
         (variants : Obj VariantBucket),
    let d1 := createAdvancedProductDescription random1 p variants in
    let d2 := createAdvancedProductDescription random2 p variants in
    fst d1 = fst d2
    /\ (length (snd d1) = 4%nat /\ NoDup (snd d1)
       /\ incl (snd d1) (faqPool (keyboardInfoOf variants)))
    /\ (length (snd d2) = 4%nat /\ NoDup (snd d2)
       /\ incl (snd d2) (faqPool (keyboardInfoOf variants))).
Proof.
  intros random1 random2 p variants d1 d2. split; [reflexivity|].
  split; apply selectedFAQs_spec.
Qed.

(** C5, counterexample: the same spec and (no) variants, evaluated once with
    draws of 0.25 and once with draws of 0.75, give two descriptions with
    different FAQ blocks. *)
Lemma createAdvancedProductDescription_not_deterministic :
  map question
    (snd (createAdvancedProductDescription (fun _ => 0.25%float) mbp14 []))
  = [ "Is this genuine Apple hardware?"; "What does Grade A, B, C, D mean?";
      "Do I get a warranty?"; "Can I return if not satisfied?" ]
  /\ map question
       (snd (createAdvancedProductDescription (fun _ => 0.75%float) mbp14 []))
     = [ "What keyboard options are available?";
         "What's your refurbishment process?"; "How long will this last?";
         "What's included in the box?" ].
Proof. vm_compute. split; reflexivity. Qed.

(** ** Grouping does not depend on the order when every colour is text *)

Lemma allChars_append (p : ascii -> bool) (s t : string) :
  allChars p (s ++ t) = (allChars p s && allChars p t)%bool.
Proof.
  induction s as [|c s IH]; simpl; [reflexivity|].
  rewrite IH, andb_assoc. reflexivity.
Qed.

Lemma hyphenated_not_inherited (s t : string) :
  existsb (String.eqb (s ++ "-" ++ t)) objectPrototypeKeys = false.
Proof.
  destruct (existsb _ objectPrototypeKeys) eqn:E; [|reflexivity].
  apply existsb_exists in E. destruct E as (k & Hk & Heq).
  apply String.eqb_eq in Heq.
  assert (Hall : allChars (fun c => negb (isHyphen c)) k = true).
  { revert Hk. clear.
    assert (H : forallb (allChars (fun c => negb (isHyphen c)))
                  objectPrototypeKeys = true) by reflexivity.
    rewrite forallb_forall in H. exact (H k). }
  rewrite <- Heq, allChars_append in Hall. simpl in Hall.
  rewrite andb_false_r in Hall. discriminate.
Qed.

Lemma variantKeyOf_lookup {V : Type} (o : Obj V) c g kb :
  getProp o (variantKeyOf c g kb)
  = match assoc (variantKeyOf c g kb) o with
    | Some b => Own b
    | None => Undefined
    end.
Proof.
  unfold getProp. destruct (assoc _ o); [reflexivity|].
  unfold variantKeyOf. rewrite hyphenated_not_inherited. reflexivity.
Qed.

Lemma Permutation_filter {X : Type} (f : X -> bool) (l l' : list X) :
  Permutation l l' -> Permutation (filter f l) (filter f l').
Proof.
  induction 1 as [|x l l' H IH|x y l|l l' l'' H1 IH1 H2 IH2]; simpl.
  - constructor.
  - destruct (f x); [constructor|]; exact IH.
  - destruct (f x), (f y); try apply Permutation_refl. constructor.
  - eapply Permutation_trans; eassumption.
Qed.

Section Commutative.

Variable analyzeProductAdvanced : Row -> option ProductInfo.

Definition inherited (k : string) : bool :=
  existsb (String.eqb k) objectPrototypeKeys.

(** The group that counts a row: none when the row is not recognised or
    when its key names an inherited property. *)
Definition rowGroup (item : Row) : option string :=
  match analyzeProductAdvanced item with
  | Some p =>
      if inherited (createAdvancedGroupingKey p) then None
      else Some (createAdvancedGroupingKey p)
  | None => None
  end.

Definition rowVariantKey (item : Row) : string :=
  variantKeyOf (rowColor item) (rowCondition item)
    (determineKeyboardLayout item).

Definition inGroup (k : string) (item : Row) : bool :=
  match rowGroup item with Some k' => String.eqb k' k | None => false end.

Definition inBucket (k vk : string) (item : Row) : bool :=
  (inGroup k item && String.eqb (rowVariantKey item) vk)%bool.

Definition textColour (item : Row) : bool :=
  match rowColor item with VString _ => true | VObject _ => false end.

(** What a bucket and a group hold once [rows] have been folded. *)
Definition bucketOf (rows : list Row) (k vk : string)
    (b : option VariantBucket) : Prop :=
  match b with
  | None => filter (inBucket k vk) rows = []
  | Some b =>
      filter (inBucket k vk) rows <> []
      /\ vStockItems b = map rowStockItem (filter (inBucket k vk) rows)
      /\ quantity b = Z.of_nat (length (filter (inBucket k vk) rows))
  end.

Definition groupOf (rows : list Row) (k : string) (g : option ProductGroup)
  : Prop :=
  match g with
  | None => filter (inGroup k) rows = []
  | Some g =>
      filter (inGroup k) rows <> []
      /\ stockItems g = map rowStockItem (filter (inGroup k) rows)
      /\ totalUnits g = Z.of_nat (length (filter (inGroup k) rows))
      /\ forall vk, bucketOf rows k vk (assoc vk (variants g))
  end.

Definition grouped (rows : list Row) (o : Obj ProductGroup) : Prop :=
  forall k, groupOf rows k (assoc k o).

Lemma filter_snoc {X : Type} (f : X -> bool) (l : list X) (x : X) :
  filter f (l ++ [x])%list
  = (filter f l ++ (if f x then [x] else []))%list.
Proof. rewrite filter_app. reflexivity. Qed.

Lemma inGroup_other k k' item :
  rowGroup item = Some k' -> k <> k' -> inGroup k item = false.
Proof.
  intros H Hne. unfold inGroup. rewrite H.
  apply String.eqb_neq. intros Heq. apply Hne. symmetry. exact Heq.
Qed.

Lemma inGroup_none k item : rowGroup item = None -> inGroup k item = false.
Proof. intros H. unfold inGroup. rewrite H. reflexivity. Qed.

Lemma groupOf_skip rows k g item :
  inGroup k item = false ->
  groupOf rows k g -> groupOf (rows ++ [item])%list k g.
Proof.
  intros Hk. unfold groupOf, bucketOf, inBucket.
  destruct g as [g|].
  - intros (Hne & Hs & Ht & Hb). rewrite !filter_snoc, Hk, app_nil_r.
    repeat split; try assumption.
    intros vk. specialize (Hb vk). rewrite filter_snoc, Hk. simpl.
    rewrite app_nil_r. exact Hb.
  - intros H. rewrite filter_snoc, Hk, app_nil_r. exact H.
Qed.

Lemma grouped_skip rows o item :
  rowGroup item = None -> grouped rows o -> grouped (rows ++ [item])%list o.
Proof.
  intros Hnone H k. apply groupOf_skip; [apply inGroup_none; exact Hnone|].
  apply H.
Qed.

(** The group of a counted row after the row, from the group before it
    ([g0] is the group found or the empty group just created). *)
Lemma groupOf_add rows k item g0 b0 :
  rowGroup item = Some k ->
  (filter (inGroup k) rows <> [] \/ (filter (inGroup k) rows = []
                                     /\ stockItems g0 = [] /\ totalUnits g0 = 0
                                     /\ variants g0 = [])) ->
  (filter (inGroup k) rows <> [] -> groupOf rows k (Some g0)) ->
  match assoc (rowVariantKey item) (variants g0) with
  | Some b => b0 = b
  | None => vStockItems b0 = [] /\ quantity b0 = 0
  end ->
  groupOf (rows ++ [item])%list k
    (Some (addToGroup (rowVariantKey item) b0 (rowStockItem item) g0)).
Proof.
  intros Hk Hcase Hold Hb0.
  assert (Hin : inGroup k item = true).
  { unfold inGroup. rewrite Hk. apply String.eqb_refl. }
  assert (Hg : stockItems g0 = map rowStockItem (filter (inGroup k) rows)
               /\ totalUnits g0 = Z.of_nat (length (filter (inGroup k) rows))
               /\ forall vk, bucketOf rows k vk (assoc vk (variants g0))).
  { destruct Hcase as [Hne|(Hnil & Hs & Ht & Hv)].
    - destruct (Hold Hne) as (_ & H1 & H2 & H3). repeat split; assumption.
    - rewrite Hnil, Hs, Ht, Hv. simpl. repeat split.
      intros vk. unfold bucketOf, inBucket. simpl.
      assert (Hsub : forall l, filter (inGroup k) l = [] ->
                filter (fun r => (inGroup k r
                                  && String.eqb (rowVariantKey r) vk)%bool) l
                = []).
      { induction l as [|r l IH]; simpl; [reflexivity|].
        destruct (inGroup k r); simpl; [discriminate | exact IH]. }
      apply Hsub. exact Hnil. }
  destruct Hg as (Hs & Ht & Hbuckets).
  unfold groupOf. rewrite !filter_snoc, Hin. simpl.
  split; [|split; [|split]].
  - intros H. apply app_eq_nil in H. destruct H as [_ H]. discriminate.
  - rewrite Hs, map_app. reflexivity.
  - rewrite Ht, length_app. simpl. lia.
  - intros vk. unfold bucketOf, inBucket. rewrite filter_snoc, Hin. simpl andb.
    destruct (String.eqb_spec (rowVariantKey item) vk) as [<-|Hne].
    + rewrite assoc_setProp_same. simpl.
      specialize (Hbuckets (rowVariantKey item)).
      unfold bucketOf, inBucket in Hbuckets.
      split; [|split].
      * intros H. apply app_eq_nil in H. destruct H as [_ H]. discriminate.
      * rewrite map_app. simpl. f_equal.
        destruct (assoc (rowVariantKey item) (variants g0)) as [b|].
        -- subst b0. apply Hbuckets.
        -- rewrite Hbuckets. apply Hb0.
      * rewrite length_app. simpl.
        destruct (assoc (rowVariantKey item) (variants g0)) as [b|].
        -- subst b0. destruct Hbuckets as (_ & _ & Hq). rewrite Hq. lia.
        -- rewrite Hbuckets. destruct Hb0 as [_ Hq]. rewrite Hq. simpl. lia.
    + rewrite (assoc_setProp_other (variants g0) (rowVariantKey item) vk).
      * specialize (Hbuckets vk). unfold bucketOf, inBucket in Hbuckets.
        rewrite app_nil_r. exact Hbuckets.
      * intros Heq. apply Hne. symmetry. exact Heq.
Qed.

Lemma inGroup_not_inherited k item :
  inGroup k item = true -> inherited k = false.
Proof.
  unfold inGroup, rowGroup.
  destruct (analyzeProductAdvanced item) as [p|]; [|discriminate].
  destruct (inherited (createAdvancedGroupingKey p)) eqn:E; [discriminate|].
  intros H. apply String.eqb_eq in H. subst k. exact E.
Qed.

Lemma filter_nonempty_witness {X : Type} (f : X -> bool) (l : list X) :
  filter f l <> [] -> exists x, f x = true.
Proof.
  intros H. destruct (filter f l) as [|x t] eqn:E; [contradiction|].
  assert (Hin : In x (filter f l)) by (rewrite E; left; reflexivity).
  apply filter_In in Hin. exists x. apply Hin.
Qed.

(** The map after a counted row, from the map before it. *)
Lemma grouped_add rows o o' item k0 g0 b0 :
  rowGroup item = Some k0 ->
  grouped rows o ->
  (forall k, k <> k0 -> assoc k o' = assoc k o) ->
  assoc k0 o'
  = Some (addToGroup (rowVariantKey item) b0 (rowStockItem item) g0) ->
  (assoc k0 o = Some g0
   \/ (assoc k0 o = None /\ stockItems g0 = [] /\ totalUnits g0 = 0
       /\ variants g0 = [])) ->
  match assoc (rowVariantKey item) (variants g0) with
  | Some b => b0 = b
  | None => vStockItems b0 = [] /\ quantity b0 = 0
  end ->
  grouped (rows ++ [item])%list o'.
Proof.
  intros Hrow Hinv Hother Hsame Hcase Hb0 k.
  destruct (String.eqb_spec k k0) as [->|Hne].
  - rewrite Hsame. apply groupOf_add; [exact Hrow | | | exact Hb0].
    + pose proof (Hinv k0) as H0.
      destruct Hcase as [Hsome|(Hnone & Hs & Ht & Hv)].
      * rewrite Hsome in H0. left. apply H0.
      * rewrite Hnone in H0. right. repeat split; assumption.
    + intros Hne. pose proof (Hinv k0) as H0.
      destruct Hcase as [Hsome|(Hnone & _)].
      * rewrite Hsome in H0. exact H0.
      * rewrite Hnone in H0. simpl in H0. contradiction.
  - rewrite (Hother k Hne). apply groupOf_skip; [|apply Hinv].
    apply (inGroup_other k k0 item Hrow Hne).
Qed.

Lemma newVariant_text p item :
  textColour item = true ->
  exists b0,
    newVariant p (rowColor item) (rowCondition item)
      (determineKeyboardLayout item) = Some b0
    /\ vStockItems b0 = [] /\ quantity b0 = 0.
Proof.
  unfold textColour, newVariant, createAdvancedSKU.
  destruct (rowColor item) as [c|k]; [|discriminate].
  intros _. eexists. split; [reflexivity|]. split; reflexivity.
Qed.

Lemma grouped_step rows o item :
  textColour item = true ->
  grouped rows o ->
  grouped (rows ++ [item])%list (processItem analyzeProductAdvanced o item).
Proof.
  intros Htext Hinv. unfold processItem.
  destruct (analyzeProductAdvanced item) as [p|] eqn:Ea.
  2:{ apply grouped_skip; [|exact Hinv]. unfold rowGroup. rewrite Ea.
      reflexivity. }
  set (k0 := createAdvancedGroupingKey p).
  fold (rowVariantKey item).
  destruct (inherited k0) eqn:Hinh.
  - (* the key names an inherited property: the row is dropped *)
    assert (Hnone : assoc k0 o = None).
    { pose proof (Hinv k0) as H0. destruct (assoc k0 o) as [g|]; [|reflexivity].
      destruct H0 as (Hne & _).
      destruct (filter_nonempty_witness _ _ Hne) as [r Hr].
      apply inGroup_not_inherited in Hr. rewrite Hr in Hinh. discriminate. }
    unfold getProp. rewrite Hnone. fold (inherited k0). rewrite Hinh.
    apply grouped_skip; [|exact Hinv].
    unfold rowGroup. rewrite Ea. fold k0. rewrite Hinh. reflexivity.
  - assert (Hrow : rowGroup item = Some k0).
    { unfold rowGroup. rewrite Ea. fold k0. rewrite Hinh. reflexivity. }
    unfold getProp at 1. fold (inherited k0). rewrite Hinh.
    destruct (assoc k0 o) as [g|] eqn:Eg.
    + (* the group exists *)
      unfold rowVariantKey. rewrite variantKeyOf_lookup.
      fold (rowVariantKey item).
      destruct (assoc (rowVariantKey item) (variants g)) as [b|] eqn:Eb.
      * apply (grouped_add rows o _ item k0 g b Hrow Hinv).
        -- intros k Hne. apply assoc_setProp_other. exact Hne.
        -- apply assoc_setProp_same.
        -- left. exact Eg.
        -- rewrite Eb. reflexivity.
      * destruct (newVariant_text p item Htext) as (b0 & Hb0 & Hs & Hq).
        rewrite Hb0.
        apply (grouped_add rows o _ item k0 g b0 Hrow Hinv).
        -- intros k Hne. apply assoc_setProp_other. exact Hne.
        -- apply assoc_setProp_same.
        -- left. exact Eg.
        -- rewrite Eb. split; assumption.
    + (* the group is created *)
      unfold rowVariantKey. rewrite variantKeyOf_lookup.
      fold (rowVariantKey item). simpl (assoc _ (variants (newGroup p))).
      destruct (newVariant_text p item Htext) as (b0 & Hb0 & Hs & Hq).
      rewrite Hb0.
      apply (grouped_add rows o _ item k0 (newGroup p) b0 Hrow Hinv).
      * intros k Hne. rewrite !assoc_setProp_other by exact Hne. reflexivity.
      * apply assoc_setProp_same.
      * right. repeat split. exact Eg.
      * simpl. split; assumption.
Qed.

Lemma grouped_createProductGroups (rows : list Row) :
  forallb textColour rows = true ->
  grouped rows (createProductGroups analyzeProductAdvanced rows).
Proof.
  unfold createProductGroups.
  induction rows as [|item rows IH] using rev_ind; intros Htext.
  - intros k. reflexivity.
  - rewrite forallb_app in Htext. apply andb_prop in Htext.
    destruct Htext as [Hrows Hitem]. simpl in Hitem.
    rewrite andb_true_r in Hitem.
    rewrite fold_left_app. simpl. apply grouped_step; [exact Hitem|].
    apply IH. exact Hrows.
Qed.

(** Two maps of groups agree on the counts and on the members. *)
Definition sameBucket (b b' : option VariantBucket) : Prop :=
  match b, b' with
  | None, None => True
  | Some b, Some b' =>
      quantity b = quantity b'
      /\ Permutation (vStockItems b) (vStockItems b')
  | _, _ => False
  end.

Definition sameGroup (g g' : option ProductGroup) : Prop :=
  match g, g' with
  | None, None => True
  | Some g, Some g' =>
      totalUnits g = totalUnits g'
      /\ Permutation (stockItems g) (stockItems g')
      /\ forall vk, sameBucket (assoc vk (variants g)) (assoc vk (variants g'))
  | _, _ => False
  end.

Lemma bucketOf_perm rows rows' k vk b b' :
  Permutation rows rows' ->
  bucketOf rows k vk b -> bucketOf rows' k vk b' -> sameBucket b b'.
Proof.
  intros Hperm.
  pose proof (Permutation_filter (inBucket k vk) rows rows' Hperm) as Hf.
  unfold bucketOf, sameBucket. destruct b as [b|], b' as [b'|].
  - intros (_ & Hs & Hq) (_ & Hs' & Hq'). split.
    + rewrite Hq, Hq'. rewrite (Permutation_length Hf). reflexivity.
    + rewrite Hs, Hs'. apply Permutation_map. exact Hf.
  - intros (Hne & _) Hnil. rewrite Hnil in Hf.
    apply Permutation_sym, Permutation_nil in Hf. contradiction.
  - intros Hnil (Hne & _). rewrite Hnil in Hf.
    apply Permutation_nil in Hf. contradiction.
  - intros _ _. exact I.
Qed.

Lemma groupOf_perm rows rows' k g g' :
  Permutation rows rows' ->
  groupOf rows k g -> groupOf rows' k g' -> sameGroup g g'.
Proof.
  intros Hperm.
  pose proof (Permutation_filter (inGroup k) rows rows' Hperm) as Hf.
  unfold groupOf, sameGroup. destruct g as [g|], g' as [g'|].
  - intros (_ & Hs & Ht & Hb) (_ & Hs' & Ht' & Hb'). split; [|split].
    + rewrite Ht, Ht'. rewrite (Permutation_length Hf). reflexivity.
    + rewrite Hs, Hs'. apply Permutation_map. exact Hf.
    + intros vk. exact (bucketOf_perm rows rows' k vk _ _ Hperm (Hb vk) (Hb' vk)).
  - intros (Hne & _) Hnil. rewrite Hnil in Hf.
    apply Permutation_sym, Permutation_nil in Hf. contradiction.
  - intros Hnil (Hne & _). rewrite Hnil in Hf.
    apply Permutation_nil in Hf. contradiction.
  - intros _ _. exact I.
Qed.

(** X2. Grouping does not depend on the order of the rows when the colour of
    every row is text (no colour cell names a property of
    [Object.prototype]): two orders of the same rows give maps with the same
    groups, the same totalUnits, the same buckets with the same quantities,
    and the same members in every group and bucket. *)
Lemma createProductGroups_commutes_on_text_colours (rows rows' : list Row) :
  Permutation rows rows' ->
  forallb textColour rows = true ->
  forall k,
    sameGroup (assoc k (createProductGroups analyzeProductAdvanced rows))
      (assoc k (createProductGroups analyzeProductAdvanced rows')).
Proof.
  intros Hperm Htext k.
  assert (Htext' : forallb textColour rows' = true).
  { apply forallb_forall. intros r Hr. rewrite forallb_forall in Htext.
    apply Htext. apply (Permutation_in _ (Permutation_sym Hperm)). exact Hr. }
  apply (groupOf_perm rows rows' k _ _ Hperm).
  - apply grouped_createProductGroups. exact Htext.
  - apply grouped_createProductGroups. exact Htext'.
Qed.

End Commutative.

Lemma createProductGroups_commutes_on_text_colours_witness :
  Permutation twoUnits (rev twoUnits)
  /\ forallb textColour twoUnits = true
  /\ forall k,
       sameGroup (assoc k (createProductGroups groupableSpec twoUnits))
         (assoc k (createProductGroups groupableSpec (rev twoUnits))).
Proof.
  assert (Hperm : Permutation twoUnits (rev twoUnits)) by apply Permutation_rev.
  assert (Htext : forallb textColour twoUnits = true)
    by (vm_compute; reflexivity).
  split; [exact Hperm|]. split; [exact Htext|].
  exact (createProductGroups_commutes_on_text_colours groupableSpec
           twoUnits (rev twoUnits)
           Hperm Htext).
Defined.

(** ** Examples *)

Example scenario_one_group_two_buckets :
  map groupSummary (createProductGroups groupableSpec twoUnits)
  = [ ("Refurbished MacBook Pro 14" ++ dquote ++ " M2 2022 512GB 16GB", 2, 2%nat,
       [ ("Space Gray-A-English", 1); ("Silver-B-English", 1) ]) ].
Proof. vm_compute. reflexivity. Qed.

(** The fourth scenario: a row without any recognisable text is in no
    group. *)
Example scenario_unrecognised_row :
  analyzeProductAdvanced [("Stock", "S9"); ("Model", "ThinkPad X1")] = None
  /\ createProductGroups groupableSpec
       [[("Stock", "S9"); ("Model", "ThinkPad X1")]] = [].
Proof. vm_compute. split; reflexivity. Qed.

(** C7, at the failing input.  [cleanColor] looks the colour up in
    [colorMap] through the prototype chain, so the colour of [protoRow] is
    [Object.prototype]: creating its bucket throws in [createAdvancedSKU],
    but its key is the key of the bucket of [objectRow], and once that
    bucket exists the row is counted in it.  The two orders of the same two
    rows give one unit and two units. *)
Theorem createProductGroups_order_dependent :
  map groupSummary
    (createProductGroups groupableSpec [protoRow; objectRow])
  = [ ("Refurbished MacBook Pro 14" ++ dquote ++ " M2 2022 512GB 16GB", 1, 1%nat,
       [ ("[object Object]-A-English", 1) ]) ]
  /\ map groupSummary
       (createProductGroups groupableSpec [objectRow; protoRow])
     = [ ("Refurbished MacBook Pro 14" ++ dquote ++ " M2 2022 512GB 16GB", 2, 2%nat,
          [ ("[object Object]-A-English", 2) ]) ].
Proof. vm_compute. split; reflexivity. Qed.


Example threeUnitsGroup_is_the_body : threeUnitsBody = Some threeUnitsGroup.
Proof. vm_compute. reflexivity. Qed.



Example scenario_create :
  let run :=
    Sync.syncGroups codeUnitCompare acceptAll [] [] [twoUnitsGroup]
      Sync.noResults [] in
  map requestSummary (fst run) = [ ("POST product", 2) ]
  /\ countsOf (snd run) = Some (1, 0, 0).
Proof. vm_compute. split; reflexivity. Qed.

Example scenario_update :
  let run :=
    Sync.syncGroups codeUnitCompare acceptAll storeAfterCreate [] [twoUnitsGroup]
      Sync.noResults [] in
  map requestSummary (fst run)
  = [ ("PUT product", 0); ("PUT variant", 2); ("PUT variant", 2) ]
  /\ countsOf (snd run) = Some (0, 1, 0).
Proof. vm_compute. split; reflexivity. Qed.

(** The update fails on its first request: the group is recorded as an
    error and nothing else is sent. *)
Example scenario_update_fails :
  let run :=
    Sync.syncGroups codeUnitCompare (fun _ => Sync.Status 500) storeAfterCreate
      [] [twoUnitsGroup] Sync.noResults [] in
  map requestSummary (fst run) = [ ("PUT product", 0) ]
  /\ countsOf (snd run) = Some (0, 0, 1).
Proof. vm_compute. split; reflexivity. Qed.

(** The row that the classifier turns into [longProcessorSpec]. *)
Example longProcessorSpec_classified :
  option_map asTexts
    (analyzeProductAdvanced
       [ ("Model", "MacBook Pro");
         ("Processor", repeatChar "a" 227 ++ " b") ])
  = Some longProcessorSpec
  /\ groupableSpec
       [ ("Model", "MacBook Pro");
         ("Processor", repeatChar "a" 227 ++ " b") ]
     = Some longProcessorSpec.
Proof. vm_compute. split; reflexivity. Qed.

(** ** Strings: reversal and trimming *)

Definition srev (s : string) : string := rev_onto s EmptyString.

Lemma append_nil_r (s : string) : s ++ "" = s.
Proof. induction s as [|c s IH]; simpl; [reflexivity | rewrite IH; reflexivity]. Qed.

Lemma append_assoc (s t u : string) : (s ++ t) ++ u = s ++ (t ++ u).
Proof. induction s as [|c s IH]; simpl; [reflexivity | rewrite IH; reflexivity]. Qed.

Lemma rev_onto_spec (s acc : string) : rev_onto s acc = srev s ++ acc.
Proof.
  unfold srev. revert acc. induction s as [|c s IH]; intros acc; simpl.
  - reflexivity.
  - rewrite (IH (String c acc)), (IH (String c EmptyString)), append_assoc.
    reflexivity.
Qed.

Lemma srev_cons (c : ascii) (s : string) :
  srev (String c s) = srev s ++ String c EmptyString.
Proof. unfold srev at 1. simpl. apply rev_onto_spec. Qed.

Lemma srev_append (s t : string) : srev (s ++ t) = srev t ++ srev s.
Proof.
  induction s as [|c s IH]; simpl.
  - rewrite append_nil_r. reflexivity.
  - rewrite !srev_cons, IH, append_assoc. reflexivity.
Qed.

Lemma srev_involutive (s : string) : srev (srev s) = s.
Proof.
  induction s as [|c s IH]; [reflexivity|].
  rewrite srev_cons, srev_append, IH. reflexivity.
Qed.

Lemma allChars_srev (p : ascii -> bool) (s : string) :
  allChars p (srev s) = allChars p s.
Proof.
  induction s as [|c s IH]; [reflexivity|].
  rewrite srev_cons, allChars_append, IH. simpl.
  rewrite andb_true_r. apply andb_comm.
Qed.

(** [trimEnd]: the string without the white space that ends it. *)
Fixpoint trimEnd (s : string) : string :=
  match s with
  | EmptyString => EmptyString
  | String c t =>
      match trimEnd t with
      | EmptyString => if isSpace c then EmptyString else String c EmptyString
      | r => String c r
      end
  end.

Lemma dropWhile_snoc (p : ascii -> bool) (s : string) (c : ascii) :
  dropWhile p (s ++ String c EmptyString)
  = if allChars p s
    then (if p c then EmptyString else String c EmptyString)
    else dropWhile p s ++ String c EmptyString.
Proof.
  induction s as [|d s IH]; simpl.
  - destruct (p c); reflexivity.
  - destruct (p d); simpl; [exact IH | reflexivity].
Qed.

Lemma dropWhile_all (p : ascii -> bool) (s : string) :
  allChars p s = true -> dropWhile p s = EmptyString.
Proof.
  induction s as [|c s IH]; simpl; [reflexivity|].
  intros H. apply andb_prop in H. destruct H as [Hc Hs]. rewrite Hc. auto.
Qed.

Lemma dropWhile_empty_all (p : ascii -> bool) (s : string) :
  dropWhile p s = EmptyString -> allChars p s = true.
Proof.
  induction s as [|c s IH]; simpl; [reflexivity|].
  destruct (p c); [exact IH | discriminate].
Qed.

Lemma trimEnd_empty (s : string) :
  trimEnd s = EmptyString <-> allChars isSpace s = true.
Proof.
  induction s as [|c s IH]; simpl; [tauto|].
  destruct (trimEnd s) as [|d r].
  - destruct (isSpace c); simpl.
    + split; [intros _; apply IH; reflexivity | reflexivity].
    + split; discriminate.
  - split; [discriminate|].
    intros H. apply andb_prop in H. destruct H as [_ H].
    apply IH in H. discriminate.
Qed.

Lemma trimEnd_spec (s : string) :
  srev (dropWhile isSpace (srev s)) = trimEnd s.
Proof.
  induction s as [|c s IH]; [reflexivity|].
  rewrite srev_cons, dropWhile_snoc, allChars_srev. simpl.
  destruct (allChars isSpace s) eqn:E.
  - apply trimEnd_empty in E. rewrite E.
    destruct (isSpace c); reflexivity.
  - rewrite srev_append, IH. simpl.
    destruct (trimEnd s) as [|d r] eqn:Et; [|reflexivity].
    assert (H : allChars isSpace s = true) by (apply trimEnd_empty; exact Et).
    rewrite H in E. discriminate.
Qed.

Lemma trim_spec (s : string) : trim s = trimEnd (dropWhile isSpace s).
Proof. unfold trim. apply trimEnd_spec. Qed.

Lemma trimEnd_cons_nonspace (c : ascii) (t : string) :
  isSpace c = false -> trimEnd (String c t) = String c (trimEnd t).
Proof. intros H. simpl. rewrite H. destruct (trimEnd t); reflexivity. Qed.

Lemma dropWhile_nonspace (p : ascii -> bool) (s : string) :
  startsWith p s = false -> dropWhile p s = s.
Proof. destruct s as [|c s]; simpl; [reflexivity|]. intros ->. reflexivity. Qed.

Lemma startsWith_dropWhile (p : ascii -> bool) (s : string) :
  startsWith p (dropWhile p s) = false.
Proof.
  induction s as [|c s IH]; simpl; [reflexivity|].
  destruct (p c) eqn:E; [exact IH | simpl; exact E].
Qed.

Lemma startsWith_trimEnd (s : string) :
  startsWith isSpace s = false -> startsWith isSpace (trimEnd s) = false.
Proof.
  destruct s as [|c s]; [reflexivity|]. simpl. intros H. rewrite H.
  destruct (trimEnd s); simpl; exact H.
Qed.

Lemma trimEnd_idempotent (s : string) : trimEnd (trimEnd s) = trimEnd s.
Proof.
  induction s as [|c s IH]; [reflexivity|]. simpl.
  destruct (trimEnd s) as [|d r] eqn:E.
  - destruct (isSpace c) eqn:Ec; [reflexivity|]. simpl. rewrite Ec. reflexivity.
  - change (trimEnd (String c (String d r))) with
      (match trimEnd (String d r) with
       | EmptyString => if isSpace c then EmptyString else String c EmptyString
       | x => String c x
       end).
    rewrite IH. reflexivity.
Qed.

Lemma trim_idempotent (s : string) : trim (trim s) = trim s.
Proof.
  rewrite !trim_spec.
  rewrite (dropWhile_nonspace isSpace (trimEnd _)).
  - apply trimEnd_idempotent.
  - apply startsWith_trimEnd, startsWith_dropWhile.
Qed.

Lemma trim_blank (s : string) : allChars isSpace s = true -> trim s = EmptyString.
Proof. intros H. rewrite trim_spec, (dropWhile_all _ _ H). reflexivity. Qed.

Lemma trim_empty_blank (s : string) :
  trim s = EmptyString -> allChars isSpace s = true.
Proof.
  rewrite trim_spec. intros H. apply trimEnd_empty in H.
  revert H. induction s as [|c s IH]; simpl; [reflexivity|].
  destruct (isSpace c) eqn:E; simpl; [exact IH|].
  rewrite E. discriminate.
Qed.

(** Changing the case of a letter never makes or unmakes white space. *)
Lemma isSpace_lowerChar (c : ascii) : isSpace (lowerChar c) = isSpace c.
Proof. destruct c as [[] [] [] [] [] [] [] []]; reflexivity. Qed.

Lemma isSpace_upperChar (c : ascii) : isSpace (upperChar c) = isSpace c.
Proof. destruct c as [[] [] [] [] [] [] [] []]; reflexivity. Qed.

Section MapChars.

Variable f : ascii -> ascii.
Hypothesis f_space : forall c, isSpace (f c) = isSpace c.

Lemma mapChars_dropWhile (s : string) :
  dropWhile isSpace (mapChars f s) = mapChars f (dropWhile isSpace s).
Proof.
  induction s as [|c s IH]; [reflexivity|]. simpl.
  rewrite f_space. destruct (isSpace c); [exact IH | reflexivity].
Qed.

Lemma mapChars_trimEnd (s : string) :
  trimEnd (mapChars f s) = mapChars f (trimEnd s).
Proof.
  induction s as [|c s IH]; [reflexivity|]. simpl.
  rewrite IH, f_space.
  destruct (trimEnd s); simpl; [destruct (isSpace c)|]; reflexivity.
Qed.

Lemma mapChars_trim (s : string) : trim (mapChars f s) = mapChars f (trim s).
Proof. rewrite !trim_spec, mapChars_dropWhile, mapChars_trimEnd. reflexivity. Qed.

End MapChars.

Lemma mapChars_append (f : ascii -> ascii) (s t : string) :
  mapChars f (s ++ t) = mapChars f s ++ mapChars f t.
Proof. induction s as [|c s IH]; simpl; [reflexivity | rewrite IH; reflexivity]. Qed.

Lemma trim_toLowerCase (s : string) : trim (toLowerCase s) = toLowerCase (trim s).
Proof. apply mapChars_trim, isSpace_lowerChar. Qed.

Lemma trim_toUpperCase (s : string) : trim (toUpperCase s) = toUpperCase (trim s).
Proof. apply mapChars_trim, isSpace_upperChar. Qed.

(** ** Conditions *)

(** X3. A condition cell that is one of the letters A, B, C, D, in either
    case, gets that grade; a cell that spells the word Grade before the
    letter gets grade A whatever the letter: [cleanCondition] keeps the
    first of the four letters that the upper-cased cell holds, and the word
    holds an A. *)
Theorem cleanCondition_first_letter :
  (forall g : Grade,
      cleanCondition (gradeName g) = g
      /\ cleanCondition (toLowerCase (gradeName g)) = g)
  /\ (forall rest : string, cleanCondition ("Grade " ++ rest) = A)
  /\ (forall rest : string, cleanCondition ("grade " ++ rest) = A).
Proof.
  split; [|split].
  - intros g. destruct g; split; reflexivity.
  - intros rest. unfold cleanCondition.
    change (truthy ("Grade " ++ rest)) with true. cbv iota. simpl negb. cbv iota.
    rewrite trim_toUpperCase, trim_spec.
    change (dropWhile isSpace ("Grade " ++ rest)) with ("Grade " ++ rest).
    change ("Grade " ++ rest) with (String "G" (String "r" (String "a" ("de " ++ rest)))).
    rewrite !trimEnd_cons_nonspace by reflexivity.
    reflexivity.
  - intros rest. unfold cleanCondition.
    change (truthy ("grade " ++ rest)) with true. simpl negb. cbv iota.
    rewrite trim_toUpperCase, trim_spec.
    change (dropWhile isSpace ("grade " ++ rest)) with ("grade " ++ rest).
    change ("grade " ++ rest) with (String "g" (String "r" (String "a" ("de " ++ rest)))).
    rewrite !trimEnd_cons_nonspace by reflexivity.
    reflexivity.
Qed.

(** ** Colours *)

Definition canonicalColours : list string :=
  [ "Space Gray"; "Silver"; "Gold"; "Rose Gold"; "Midnight"; "Starlight" ].

Lemma colorMap_values (k c : string) :
  assoc k colorMap = Some c -> In c canonicalColours.
Proof.
  unfold colorMap. simpl.
  repeat (destruct (String.eqb k _);
          [intros H; apply Some_injective in H; subst c; simpl; tauto|]).
  discriminate.
Qed.

Lemma cleanColor_canonical (c : string) :
  In c canonicalColours -> cleanColor c = VString c.
Proof.
  intros H. simpl in H.
  repeat (destruct H as [<-|H]; [reflexivity|]). contradiction.
Qed.

Lemma truthy_trim_blank (s : string) :
  truthy (trim s) = false -> allChars isSpace s = true.
Proof.
  intros H. apply trim_empty_blank. destruct (trim s); [reflexivity|discriminate].
Qed.

(** X4. [cleanColor] is idempotent on the colours it yields: a colour name it
    returned, when it is not the empty text, is returned unchanged when it
    is cleaned again. *)
Theorem cleanColor_idempotent :
  forall (color name : string),
    cleanColor color = VString name ->
    truthy name = true ->
    cleanColor name = VString name.
Proof.
  intros color name. unfold cleanColor at 1.
  destruct (truthy color) eqn:Hc; simpl negb; cbv iota.
  2:{ intros H _. injection H as <-. reflexivity. }
  unfold getProp.
  destruct (assoc (trim (toLowerCase color)) colorMap) as [c|] eqn:E.
  - intros H _. injection H as <-.
    apply cleanColor_canonical. exact (colorMap_values _ _ E).
  - destruct (existsb _ objectPrototypeKeys) eqn:Ei; [discriminate|].
    intros H Hname. injection H as <-.
    unfold cleanColor. rewrite Hname. simpl negb. cbv iota.
    rewrite <- trim_toLowerCase, trim_idempotent.
    unfold getProp. rewrite E, Ei, trim_idempotent. reflexivity.
Qed.

Lemma cleanColor_idempotent_witness :
  cleanColor "  Sierra Blue " = VString "Sierra Blue"
  /\ truthy "Sierra Blue" = true
  /\ cleanColor "Sierra Blue" = VString "Sierra Blue".
Proof.
  split; [reflexivity|]. split; [reflexivity|].
  apply (cleanColor_idempotent "  Sierra Blue " "Sierra Blue"); reflexivity.
Defined.

(** X5. A colour cell that holds white space only is not replaced by the
    default colour: it is truthy, so the default of the caller is not taken,
    and [cleanColor] returns the trimmed cell, the empty text. *)
Theorem cleanColor_blank_cell :
  forall color : string,
    truthy color = true -> allChars isSpace color = true ->
    cleanColor color = VString EmptyString
    /\ cleanColor (orElse color "Space Gray") = VString EmptyString.
Proof.
  intros color Ht Hb.
  assert (H : cleanColor color = VString EmptyString).
  { unfold cleanColor. rewrite Ht. simpl negb. cbv iota.
    rewrite trim_toLowerCase, (trim_blank color Hb). reflexivity. }
  split; [exact H|]. unfold orElse. rewrite Ht. exact H.
Qed.

Lemma cleanColor_blank_cell_witness :
  truthy "  " = true /\ allChars isSpace "  " = true
  /\ cleanColor "  " = VString EmptyString
  /\ cleanColor (orElse "  " "Space Gray") = VString EmptyString.
Proof.
  split; [reflexivity|]. split; [reflexivity|].
  apply (cleanColor_blank_cell "  "); reflexivity.
Defined.

(** The units of the buckets of one grade. *)
Definition gradeUnits (grade : string) (variants : Obj VariantBucket) : Z :=
  fold_right
    (fun kv acc =>
       (if String.eqb (gradeName (vCondition (snd kv))) grade
        then quantity (snd kv) else 0) + acc)
    0 variants.

Definition hasGrade (grade : string) (variants : Obj VariantBucket) : bool :=
  existsb (fun kv => String.eqb (gradeName (vCondition (snd kv))) grade) variants.

(** What [gradeCount] holds once [variants] have been folded into it. *)
Definition counted (variants : Obj VariantBucket) (gradeCount : Obj Z) : Prop :=
  NoDup (map fst gradeCount)
  /\ forall grade,
       assoc grade gradeCount
       = if hasGrade grade variants then Some (gradeUnits grade variants)
         else None.

Lemma gradeUnits_snoc grade variants kv :
  gradeUnits grade (variants ++ [kv])%list
  = gradeUnits grade variants
    + (if String.eqb (gradeName (vCondition (snd kv))) grade
       then quantity (snd kv) else 0).
Proof.
  unfold gradeUnits. induction variants as [|x l IH]; simpl; [lia|].
  rewrite IH. lia.
Qed.

Lemma hasGrade_snoc grade variants kv :
  hasGrade grade (variants ++ [kv])%list
  = (hasGrade grade variants
     || String.eqb (gradeName (vCondition (snd kv))) grade)%bool.
Proof. unfold hasGrade. rewrite existsb_app. simpl. rewrite orb_false_r. reflexivity. Qed.

Lemma counted_step variants gradeCount kv :
  counted variants gradeCount ->
  counted (variants ++ [kv])%list (countGrade gradeCount kv).
Proof.
  intros [Hnd H]. unfold countGrade. split.
  - apply NoDup_keys_setProp. exact Hnd.
  - intros grade. rewrite hasGrade_snoc, gradeUnits_snoc.
    set (g0 := gradeName (vCondition (snd kv))).
    destruct (String.eqb_spec grade g0) as [->|Hne].
    + rewrite assoc_setProp_same, String.eqb_refl, orb_true_r, (H g0).
      assert (Hz : forall l, hasGrade g0 l = false -> gradeUnits g0 l = 0).
      { clear. induction l as [|x l IH]; simpl; [reflexivity|].
        intros Hx. apply orb_false_elim in Hx. destruct Hx as [Hx Hl].
        rewrite Hx, (IH Hl). reflexivity. }
      destruct (hasGrade g0 variants) eqn:E.
      * reflexivity.
      * rewrite (Hz variants E). reflexivity.
    + rewrite (assoc_setProp_other gradeCount g0 grade _ Hne), (H grade).
      assert (Hf : String.eqb g0 grade = false).
      { apply String.eqb_neq. intros Heq. apply Hne. symmetry. exact Heq. }
      rewrite Hf, orb_false_r, Z.add_0_r. reflexivity.
Qed.

Lemma counted_fold variants : counted variants (fold_left countGrade variants []).
Proof.
  induction variants as [|kv variants IH] using rev_ind.
  - split; [constructor | intros grade; reflexivity].
  - rewrite fold_left_snoc. apply counted_step. exact IH.
Qed.

Lemma fold_best (rest : list (string * Z)) (first : string * Z) :
  let best :=
    fold_left (fun a b : string * Z => if snd b <? snd a then a else b) rest
      first in
  In best (first :: rest)
  /\ forall x, In x (first :: rest) -> snd x <= snd best.
Proof.
  revert first. induction rest as [|b rest IH]; intros first; simpl.
  - split; [left; reflexivity|]. intros x [<-|[]]. lia.
  - destruct (IH (if snd b <? snd first then first else b)) as [Hin Hmax].
    simpl in Hin, Hmax. split.
    + destruct Hin as [Hin|Hin]; [|right; right; exact Hin].
      rewrite <- Hin. destruct (snd b <? snd first); [left|right; left]; reflexivity.
    + intros x Hx.
      assert (Hc : snd first <= snd (if snd b <? snd first then first else b)
                   /\ snd b <= snd (if snd b <? snd first then first else b)).
      { destruct (Z.ltb_spec (snd b) (snd first)); simpl; lia. }
      pose proof (Hmax _ (or_introl eq_refl)) as H0.
      destruct Hx as [<-|[<-|Hx]]; [lia | lia | apply Hmax; right; exact Hx].
Qed.

Lemma primaryGradeOf_max (gradeCount : Obj Z) :
  gradeCount <> [] ->
  NoDup (map fst gradeCount) ->
  exists n,
    assoc (primaryGradeOf gradeCount) gradeCount = Some n
    /\ forall k m, assoc k gradeCount = Some m -> m <= n.
Proof.
  intros Hne Hnd. destruct gradeCount as [|[k n] rest]; [contradiction|].
  unfold primaryGradeOf.
  destruct (fold_best rest (k, n)) as [Hin Hmax].
  set (best := fold_left _ rest (k, n)) in *.
  exists (snd best). split.
  - apply In_assoc; [exact Hnd|]. destruct best; exact Hin.
  - intros k' m H. apply assoc_In in H. exact (Hmax (k', m) H).
Qed.

(** X6. The primary grade of a group, which both descriptions advertise, is a
    grade of one of its buckets, and no grade of the group has more units:
    whenever the group has a bucket of some grade, it has one of the primary
    grade, and the units of that grade are at most those of the primary
    grade. *)
Theorem primaryGrade_has_most_units :
  forall (productInfo : ProductInfo) (variants : Obj VariantBucket),
    dfPrimaryGrade (descriptionFacts productInfo variants)
    = primaryGrade variants
    /\ forall grade,
         hasGrade grade variants = true ->
         hasGrade (primaryGrade variants) variants = true
         /\ gradeUnits grade variants
            <= gradeUnits (primaryGrade variants) variants.
Proof.
  intros productInfo variants. split; [reflexivity|].
  intros grade Hgrade.
  destruct (counted_fold variants) as [Hnd Hcount].
  assert (Hv : variants <> []) by (intros ->; discriminate).
  assert (Hne : fold_left countGrade variants [] <> []).
  { intros Hnil. specialize (Hcount grade). rewrite Hnil, Hgrade in Hcount.
    discriminate. }
  destruct (primaryGradeOf_max _ Hne Hnd) as (n & Hn & Hmax).
  assert (Hpg : primaryGrade variants
                = primaryGradeOf (fold_left countGrade variants [])).
  { unfold primaryGrade. destruct variants; [contradiction | reflexivity]. }
  rewrite Hpg. rewrite Hcount in Hn.
  destruct (hasGrade (primaryGradeOf _) variants); [|discriminate].
  apply Some_injective in Hn. split; [reflexivity|].
  rewrite Hn. apply (Hmax grade). rewrite Hcount, Hgrade. reflexivity.
Qed.

(** X7. The SEO description has at most 160 characters, whatever the spec and
    the buckets. *)
Theorem createAdvancedSEODescription_length :
  forall (productInfo : ProductInfo) (variants : Obj VariantBucket),
    (String.length (createAdvancedSEODescription productInfo variants) <= 160)%nat.
Proof.
  intros productInfo variants. unfold createAdvancedSEODescription.
  match goal with
  | |- context [Nat.ltb 160 (String.length ?t)] =>
      set (description := t);
      destruct (Nat.ltb 160 (String.length description)) eqn:E
  end.
  - rewrite length_append, length_take.
    change (String.length "...") with 3%nat. lia.
  - apply Nat.ltb_ge in E. exact E.
Qed.

(** ** More on the handle *)

Lemma fold_left_append_head (sep : string) (parts : list string) (p : string) :
  exists rest,
    fold_left (fun acc q => acc ++ sep ++ q) parts p = p ++ rest.
Proof.
  revert p. induction parts as [|q parts IH]; intros p; simpl.
  - exists EmptyString. rewrite append_nil_r. reflexivity.
  - destruct (IH (p ++ sep ++ q)) as [rest Hrest].
    exists ((sep ++ q) ++ rest). rewrite Hrest, append_assoc. reflexivity.
Qed.

Lemma joinTruthy_head (sep p : string) (parts : list string) :
  truthy p = true ->
  exists rest, joinTruthy sep (p :: parts) = p ++ rest.
Proof.
  intros Hp. unfold joinTruthy. simpl. rewrite Hp.
  apply fold_left_append_head.
Qed.

Lemma filterChars_append (keep : ascii -> bool) (s t : string) :
  filterChars keep (s ++ t) = filterChars keep s ++ filterChars keep t.
Proof.
  induction s as [|c s IH]; simpl; [reflexivity|].
  rewrite IH. destruct (keep c); reflexivity.
Qed.

Lemma take_all (n : nat) (s : string) :
  (String.length s <= n)%nat -> take n s = s.
Proof.
  revert s. induction n as [|n IH]; intros [|c s]; simpl; try reflexivity.
  - lia.
  - intros H. rewrite IH by lia. reflexivity.
Qed.

Lemma endsWith_cons (p : ascii -> bool) (c d : ascii) (s : string) :
  endsWith p (String c (String d s)) = endsWith p (String d s).
Proof. reflexivity. Qed.

Lemma dropLast_cons (c d : ascii) (s : string) :
  dropLast (String c (String d s)) = String c (dropLast (String d s)).
Proof. reflexivity. Qed.

Lemma endsWith_dropLast (p : ascii -> bool) (s : string) :
  noAdjacent p s = true -> endsWith p s = true ->
  endsWith p (dropLast s) = false.
Proof.
  induction s as [|c s IH]; [discriminate|].
  destruct s as [|d s]; [reflexivity|].
  intros Hn He. rewrite endsWith_cons in He. rewrite dropLast_cons.
  pose proof (noAdjacent_tail p c _ Hn) as Hn'.
  specialize (IH Hn' He).
  destruct s as [|e s].
  - (* c d: the last one is d *)
    unfold endsWith in He. simpl in He. simpl dropLast.
    unfold endsWith. simpl.
    simpl in Hn. rewrite He in Hn.
    destruct (p c); [discriminate | reflexivity].
  - rewrite dropLast_cons in IH |- *. rewrite endsWith_cons. exact IH.
Qed.

Lemma stripEdgeHyphens_no_trailing (s : string) :
  noAdjacent isHyphen s = true ->
  endsWith isHyphen (stripEdgeHyphens s) = false.
Proof.
  intros H. unfold stripEdgeHyphens.
  set (t := if startsWith isHyphen s then drop 1 s else s).
  assert (Ht : noAdjacent isHyphen t = true).
  { unfold t. destruct (startsWith isHyphen s); [apply noAdjacent_drop|]; exact H. }
  destruct (endsWith isHyphen t) eqn:E; [|exact E].
  apply endsWith_dropLast; assumption.
Qed.

Lemma prefix_append (pre rest : string) : String.prefix pre (pre ++ rest) = true.
Proof.
  induction pre as [|c pre IH]; simpl; [destruct rest; reflexivity|].
  destruct (ascii_dec c c); [exact IH | contradiction].
Qed.

Lemma prefix_dropLast (pre s : string) :
  String.prefix pre s = true ->
  (String.length pre < String.length s)%nat ->
  String.prefix pre (dropLast s) = true.
Proof.
  revert s. induction pre as [|c pre IH]; intros s Hp Hl.
  - destruct (dropLast s); reflexivity.
  - destruct s as [|d s]; [discriminate|]. simpl in Hp.
    destruct (ascii_dec c d) as [->|]; [|discriminate].
    destruct s as [|e s]; [simpl in Hl; lia|].
    rewrite dropLast_cons. cbn [String.prefix].
    destruct (ascii_dec d d); [|contradiction].
    apply IH; [exact Hp | simpl in Hl |- *; lia].
Qed.

Lemma prefix_length (pre s : string) :
  String.prefix pre s = true -> (String.length pre <= String.length s)%nat.
Proof.
  revert s. induction pre as [|c pre IH]; intros s H; simpl; [lia|].
  destruct s as [|d s]; [discriminate|]. simpl in H.
  destruct (ascii_dec c d); [|discriminate]. simpl. apply IH in H. lia.
Qed.

Lemma prefix_take (pre s : string) (n : nat) :
  String.prefix pre s = true -> (String.length pre <= n)%nat ->
  String.prefix pre (take n s) = true.
Proof.
  revert s n. induction pre as [|c pre IH]; intros s n Hp Hl.
  - destruct (take n s); reflexivity.
  - destruct s as [|d s]; [discriminate|]. simpl in Hp.
    destruct (ascii_dec c d) as [->|]; [|discriminate].
    destruct n as [|n]; [simpl in Hl; lia|]. simpl.
    destruct (ascii_dec d d); [|contradiction].
    apply IH; [exact Hp | simpl in Hl; lia].
Qed.

Lemma prefix_split (pre s : string) :
  String.prefix pre s = true -> exists rest, s = pre ++ rest.
Proof.
  revert s. induction pre as [|c pre IH]; intros s H.
  - exists s. reflexivity.
  - destruct s as [|d s]; [discriminate|]. simpl in H.
    destruct (ascii_dec c d) as [->|]; [|discriminate].
    destruct (IH s H) as [rest ->]. exists rest. reflexivity.
Qed.

Lemma stripEdgeHyphens_refurbished (s : string) :
  String.prefix "refurbished" s = true ->
  String.prefix "refurbished" (stripEdgeHyphens s) = true.
Proof.
  intros Hp. destruct (prefix_split _ _ Hp) as [rest ->].
  unfold stripEdgeHyphens.
  change (startsWith isHyphen ("refurbished" ++ rest)) with false. cbv iota.
  destruct (endsWith isHyphen ("refurbished" ++ rest)) eqn:E; [|exact Hp].
  apply prefix_dropLast; [exact Hp|].
  destruct rest as [|c rest]; [discriminate|].
  rewrite length_append. simpl. lia.
Qed.

(** X8. The handle of every spec starts with the word refurbished, is made of
    the characters a-z, 0-9 and the hyphen, has no hyphen at its start and
    no two hyphens in a row, has at most 255 characters, and ends with a
    hyphen only when the cut at 255 characters made it so: a handle shorter
    than 255 characters has no hyphen at its end. *)
Theorem createSEOOptimizedHandle_wellformed :
  forall p : ProductInfo,
    let h := createSEOOptimizedHandle p in
    String.prefix "refurbished" h = true
    /\ allChars isHandleChar h = true
    /\ startsWith isHyphen h = false
    /\ noAdjacent isHyphen h = true
    /\ (String.length h <= 255)%nat
    /\ ((String.length h < 255)%nat -> endsWith isHyphen h = false).
Proof.
  intros p h.
  destruct (createSEOOptimizedHandle_shape p) as (Hc & Hs & Hn & Hl).
  fold h in Hc, Hs, Hn, Hl.
  split; [|split; [exact Hc | split; [exact Hs | split; [exact Hn |
           split; [exact Hl|]]]]].
  - unfold h, createSEOOptimizedHandle.
    apply prefix_take; [|simpl; lia].
    apply stripEdgeHyphens_refurbished.
    destruct (joinTruthy_head "-" "refurbished" (tl (handleComponents p))
                eq_refl) as [rest Hrest].
    change ("refurbished" :: tl (handleComponents p)) with (handleComponents p)
      in Hrest.
    rewrite Hrest, filterChars_append.
    change (filterChars isHandleChar "refurbished") with "refurbished".
    set (x := filterChars isHandleChar rest).
    change (replaceRuns isHyphen "-" ("refurbished" ++ x))
      with ("refurbished" ++ replaceRuns isHyphen "-" x).
    apply prefix_append.
  - intros Hlt. unfold h, createSEOOptimizedHandle in *.
    set (r := replaceRuns isHyphen "-" _) in *.
    assert (Hr : noAdjacent isHyphen r = true).
    { apply noAdjacent_replaceRuns. reflexivity. }
    rewrite length_take in Hlt.
    rewrite take_all by lia.
    apply stripEdgeHyphens_no_trailing. exact Hr.
Qed.

(** ** What the classifier yields *)

(** The product types that [analyzeProductAdvanced] gives. *)
Definition productTypes : list string :=
  [ "MacBook Pro"; "MacBook Air"; "MacBook"; "iPad Pro"; "iPad Air";
    "iPad Mini"; "iPad"; "iPhone 15"; "iPhone 14"; "iPhone 13"; "iPhone 12";
    "iPhone 11"; "iPhone SE"; "iPhone"; "iMac"; "AirPods"; "Magic Mouse";
    "Magic Keyboard"; "Apple Accessory" ].

(** A year: four digits, the first two 2 and 0. *)
Definition isYear (y : string) : bool :=
  (Nat.eqb (String.length y) 4 && allChars isDigit y && String.prefix "20" y)%bool.

Lemma firstYear_shape (s : string) :
  firstYear s = EmptyString \/ isYear (firstYear s) = true.
Proof.
  induction s as [|c s IH]; [left; reflexivity|].
  cbn [firstYear].
  destruct (String.prefix "20" (String c s) && startsWith isDigit (drop 2 (String c s))
            && startsWith isDigit (drop 3 (String c s)))%bool eqn:E; [|exact IH].
  right. apply andb_prop in E. destruct E as [E E3].
  apply andb_prop in E. destruct E as [E1 E2].
  destruct s as [|c2 s]; [discriminate|].
  destruct s as [|c3 s]; [discriminate|].
  destruct s as [|c4 s]; [discriminate|].
  cbn [String.prefix drop startsWith] in E1, E2, E3.
  destruct (ascii_dec "2" c) as [<-|]; [|discriminate].
  destruct (ascii_dec "0" c2) as [<-|]; [|discriminate].
  unfold isYear. cbn [take String.length allChars Nat.eqb andb].
  rewrite E2, E3. reflexivity.
Qed.

Lemma orElse_year (s fallback : string) :
  isYear fallback = true -> isYear (orElse (firstYear s) fallback) = true.
Proof.
  intros H. unfold orElse.
  destruct (firstYear_shape s) as [->|Hy]; [exact H|].
  destruct (truthy (firstYear s)); [exact Hy | exact H].
Qed.

Lemma estimateYear_year (processor : string) : isYear (estimateYear processor) = true.
Proof.
  unfold estimateYear.
  repeat match goal with |- context [if ?b then _ else _] => destruct b end;
    reflexivity.
Qed.

Lemma estimateIPhoneYear_year (m : string) : isYear (estimateIPhoneYear m) = true.
Proof.
  unfold estimateIPhoneYear.
  repeat match goal with |- context [if ?b then _ else _] => destruct b end;
    reflexivity.
Qed.

Lemma determineIPadTypeAdvanced_type (model : string) :
  In (determineIPadTypeAdvanced model) productTypes.
Proof.
  unfold determineIPadTypeAdvanced.
  repeat match goal with |- context [if ?b then _ else _] => destruct b end;
    simpl; tauto.
Qed.

Lemma determineIPhoneModelAdvanced_type (model : string) :
  In (determineIPhoneModelAdvanced model) productTypes.
Proof.
  unfold determineIPhoneModelAdvanced.
  repeat match goal with |- context [if ?b then _ else _] => destruct b end;
    simpl; tauto.
Qed.

(** What is checked of a classification. *)
Definition classified (a : Analysis.t) : Prop :=
  In (Analysis.productType a) productTypes
  /\ isYear (Analysis.year a) = true.

Lemma analyzeProductAdvanced_classified (item : Row) (a : Analysis.t) :
  analyzeProductAdvanced item = Some a -> classified a.
Proof.
  unfold analyzeProductAdvanced.
  set (model := trim (field item "Model")).
  set (processor := trim (field item "Processor")).
  generalize (extractDisplaySize model processor).
  generalize (extractProcessorDetails processor).
  generalize (standardizeStorage (trim (field item "Storage"))).
  generalize (standardizeMemory (trim (field item "Memory"))).
  generalize (extractModelNumber processor model).
  pose proof (orElse_year (processor ++ " " ++ model) _ (estimateYear_year processor))
    as Hy.
  fold (extractYear processor model) in Hy.
  pose proof (orElse_year (processor ++ " " ++ model) "2022" eq_refl) as Hy2.
  fold (extractYear processor model) in Hy2.
  pose proof (fun m => orElse_year (processor ++ " " ++ model) _
                         (estimateIPhoneYear_year m)) as Hy3.
  fold (extractYear processor model) in Hy3.
  pose proof (determineIPadTypeAdvanced_type model) as Hipad.
  pose proof (determineIPhoneModelAdvanced_type model) as Hiphone.
  intros mn mem st pr size.
  repeat match goal with
         | |- (if ?b then _ else _) = Some _ -> _ => destruct b
         end;
    intros H; try discriminate; apply Some_injective in H; subst a;
    (split; [|first [exact Hy | exact Hy2 | apply Hy3]]);
    cbn [Analysis.productType]; try assumption;
    try (simpl; tauto).
  all: repeat match goal with |- context [if ?b then _ else _] => destruct b end;
    simpl; tauto.
Qed.

(** The display size of a classification is a text unless the Model cell,
    trimmed, names a member of [Object.prototype]: it is then that
    member. *)
Lemma analyzeProductAdvanced_object (item : Row) (a : Analysis.t) (k : string) :
  analyzeProductAdvanced item = Some a ->
  Analysis.displaySize a = VObject k ->
  k = trim (field item "Model") /\ In k objectPrototypeKeys.
Proof.
  unfold analyzeProductAdvanced.
  set (model := trim (field item "Model")).
  set (processor := trim (field item "Processor")).
  assert (Hsize : forall fallback,
            match extractDisplaySize model processor with
            | VString size => VString (orElse size fallback)
            | VObject k' => VObject k'
            end = VObject k ->
            k = model /\ In k objectPrototypeKeys).
  { intros fallback. unfold extractDisplaySize.
    destruct (truthy model); [|discriminate].
    unfold getProp. destruct (assoc model modelSizeMap); [discriminate|].
    destruct (existsb (String.eqb model) objectPrototypeKeys) eqn:E;
      [|discriminate].
    intros H. injection H as <-. split; [reflexivity|].
    apply existsb_exists in E. destruct E as (x & Hin & Heq).
    apply String.eqb_eq in Heq. subst x. exact Hin. }
  repeat match goal with
         | |- (if ?b then _ else _) = Some _ -> _ => destruct b
         end;
    intros H; try discriminate; apply Some_injective in H; subst a;
    cbn [Analysis.displaySize]; try discriminate; apply Hsize.
Qed.

Lemma productTypes_priced (t : string) :
  In t productTypes -> exists base, assoc t retailPrices = Some base /\ 129 <= base.
Proof.
  intros H. simpl in H.
  repeat (destruct H as [<-|H]; [eexists; split; [reflexivity | lia]|]).
  contradiction.
Qed.

Lemma storageAdjustment_nonneg p : 0 <= storageAdjustment p.
Proof.
  pose proof (storageAdjustment_values p) as H. simpl in H.
  repeat (destruct H as [<-|H]; [lia|]). contradiction.
Qed.

Lemma memoryAdjustment_nonneg p : 0 <= memoryAdjustment p.
Proof.
  pose proof (memoryAdjustment_values p) as H. simpl in H.
  repeat (destruct H as [<-|H]; [lia|]). contradiction.
Qed.

Lemma processorAdjustment_nonneg p : 0 <= processorAdjustment p.
Proof.
  pose proof (processorAdjustment_values p) as H. simpl in H.
  repeat (destruct H as [<-|H]; [lia|]). contradiction.
Qed.

Lemma displayAdjustment_nonneg p : 0 <= displayAdjustment p.
Proof.
  pose proof (displayAdjustment_values p) as H. simpl in H.
  repeat (destruct H as [<-|H]; [lia|]). contradiction.
Qed.

Lemma productTypes_key (p : ProductInfo) :
  In (productType p) productTypes ->
  inherited (createAdvancedGroupingKey p) = false.
Proof.
  intros H. unfold createAdvancedGroupingKey.
  assert (Ht : truthy (productType p) = true).
  { simpl in H. repeat (destruct H as [<-|H]; [reflexivity|]). contradiction. }
  destruct (joinTruthy_head "_" (productType p)
              [displaySize p; processor p; storage p; memory p; year p] Ht)
    as [rest ->].
  rewrite filterChars_append. generalize (filterChars isKeyChar rest).
  intros x. simpl in H.
  repeat (destruct H as [<-|H]; [reflexivity|]). contradiction.
Qed.

(** X9. Every classification that [analyzeProductAdvanced] returns has one of
    nineteen product types and a year of four digits that starts with 20,
    and its display size is a text unless the Model cell names a member of
    [Object.prototype], which is then the display size.  In both cases the
    type has its own entry in the table of retail prices: the retail price
    of the classification is a number, at least that entry, and so is its
    variant price for every grade; and its grouping key never names a
    property of [Object.prototype]. *)
Theorem analyzeProductAdvanced_priced :
  forall (item : Row) (a : Analysis.t),
    analyzeProductAdvanced item = Some a ->
    let p := asTexts a in
    In (Analysis.productType a) productTypes
    /\ isYear (Analysis.year a) = true
    /\ (forall k, Analysis.displaySize a = VObject k ->
          k = trim (field item "Model") /\ In k objectPrototypeKeys)
    /\ (exists base r,
          assoc (productType p) retailPrices = Some base
          /\ calculateRetailPrice p = Some r /\ base <= r)
    /\ (forall g, exists v, calculateVariantPrice p (gradeName g) = Some v)
    /\ inherited (createAdvancedGroupingKey p) = false.
Proof.
  intros item a H p.
  destruct (analyzeProductAdvanced_classified item a H) as [Ht Hy].
  assert (Htp : In (productType p) productTypes) by exact Ht.
  destruct (productTypes_priced _ Htp) as (base & Hbase & _).
  assert (Hr : calculateRetailPrice p
               = Some (base + storageAdjustment p + memoryAdjustment p
                       + processorAdjustment p + displayAdjustment p)).
  { unfold calculateRetailPrice, getProp. rewrite Hbase. reflexivity. }
  split; [exact Ht|]. split; [exact Hy|].
  split; [intros k Hk; exact (analyzeProductAdvanced_object item a k H Hk)|].
  split; [|split].
  - exists base. eexists. split; [exact Hbase|]. split; [exact Hr|].
    pose proof (storageAdjustment_nonneg p). pose proof (memoryAdjustment_nonneg p).
    pose proof (processorAdjustment_nonneg p).
    pose proof (displayAdjustment_nonneg p). lia.
  - intros g. unfold calculateVariantPrice. rewrite Hr.
    rewrite conditionMultipliers_grade.
    rewrite priceAgrees_ok; [eexists; reflexivity|].
    apply (calculateRetailPrice_values p). exact Hr.
  - apply productTypes_key. exact Htp.
Qed.

Lemma analyzeProductAdvanced_priced_witness :
  analyzeProductAdvanced constructorRow = Some constructorAnalysis
  /\ In (Analysis.productType constructorAnalysis) productTypes
  /\ isYear (Analysis.year constructorAnalysis) = true
  /\ (forall k, Analysis.displaySize constructorAnalysis = VObject k ->
        k = trim (field constructorRow "Model") /\ In k objectPrototypeKeys)
  /\ (exists base r,
        assoc (productType (asTexts constructorAnalysis)) retailPrices
        = Some base
        /\ calculateRetailPrice (asTexts constructorAnalysis) = Some r
        /\ base <= r)
  /\ (forall g, exists v,
        calculateVariantPrice (asTexts constructorAnalysis) (gradeName g)
        = Some v)
  /\ inherited (createAdvancedGroupingKey (asTexts constructorAnalysis))
     = false.
Proof.
  split; [vm_compute; reflexivity|].
  apply (analyzeProductAdvanced_priced constructorRow constructorAnalysis).
  vm_compute. reflexivity.
Defined.

(** An ordinary row gets a text as display size. *)
Example analyzeProductAdvanced_sheetRow :
  option_map asTexts (analyzeProductAdvanced (sheetRow "S1" "N1" "Silver" "A"))
  = Some mbp14
  /\ groupableSpec (sheetRow "S1" "N1" "Silver" "A") = Some mbp14.
Proof. vm_compute. split; reflexivity. Qed.

(** ** The statistics of the grouping *)

Definition sumUnits (o : Obj ProductGroup) : Z :=
  fold_right (fun kg acc => totalUnits (snd kg) + acc) 0 o.

Lemma fold_left_sumUnits (o : Obj ProductGroup) (start : Z) :
  fold_left (fun sum kg => sum + totalUnits (snd kg)) o start
  = start + sumUnits o.
Proof.
  revert start. induction o as [|kg o IH]; intros start; simpl; [lia|].
  rewrite IH. lia.
Qed.

Lemma sumUnits_setProp (k : string) (g : ProductGroup) (o : Obj ProductGroup) :
  sumUnits (setProp k g o)
  = sumUnits o
    - match assoc k o with Some g0 => totalUnits g0 | None => 0 end
    + totalUnits g.
Proof.
  induction o as [|[k0 g0] o IH]; simpl; [lia|].
  destruct (String.eqb k k0); simpl; [lia | rewrite IH; lia].
Qed.

Lemma length_setProp {V : Type} (k : string) (v : V) (o : Obj V) :
  length (setProp k v o)
  = match assoc k o with Some _ => length o | None => S (length o) end.
Proof.
  induction o as [|[k0 v0] o IH]; simpl; [reflexivity|].
  destruct (String.eqb k k0); simpl; [reflexivity|].
  rewrite IH. destruct (assoc k o); reflexivity.
Qed.

Section StatisticsFacts.

Variable analyzeProductAdvanced : Row -> option ProductInfo.

Lemma processItemCounting_groups (o : Obj ProductGroup) (c : Obj tally)
    (item : Row) :
  fst (processItemCounting analyzeProductAdvanced (o, c) item)
  = processItem analyzeProductAdvanced o item.
Proof.
  unfold processItemCounting, processItem.
  destruct (analyzeProductAdvanced item) as [p|]; [|reflexivity].
  destruct (getProp o (createAdvancedGroupingKey p)) as [g|k|];
    [ | reflexivity | ].
  - destruct (getProp (variants g) _); try reflexivity.
    destruct (newVariant _ _ _ _); reflexivity.
  - destruct (getProp (variants (newGroup p)) _); try reflexivity.
    destruct (newVariant _ _ _ _); reflexivity.
Qed.

Lemma fold_processItemCounting_groups (rows : list Row) (o : Obj ProductGroup)
    (c : Obj tally) :
  fst (fold_left (processItemCounting analyzeProductAdvanced) rows (o, c))
  = fold_left (processItem analyzeProductAdvanced) rows o.
Proof.
  revert o c. induction rows as [|item rows IH]; intros o c; [reflexivity|].
  cbn [fold_left].
  rewrite <- (processItemCounting_groups o c item).
  destruct (processItemCounting analyzeProductAdvanced (o, c) item) as [o' c'].
  apply IH.
Qed.

(** One row adds at most one unit and at most one group. *)
Lemma processItem_bounds (o : Obj ProductGroup) (item : Row) :
  let o' := processItem analyzeProductAdvanced o item in
  sumUnits o <= sumUnits o' <= sumUnits o + 1
  /\ (length o' <= S (length o))%nat.
Proof.
  set (P := fun o' : Obj ProductGroup =>
              sumUnits o <= sumUnits o' <= sumUnits o + 1
              /\ (length o' <= S (length o))%nat).
  change (P (processItem analyzeProductAdvanced o item)).
  assert (Hsame : P o) by (unfold P; lia).
  unfold processItem.
  destruct (analyzeProductAdvanced item) as [p|]; [|exact Hsame].
  set (k := createAdvancedGroupingKey p).
  unfold getProp at 1.
  destruct (assoc k o) as [g|] eqn:Eg.
  - assert (Hadd : forall b it vk, P (setProp k (addToGroup vk b it g) o)).
    { intros b it vk. unfold P.
      rewrite sumUnits_setProp, length_setProp, Eg. simpl. lia. }
    destruct (getProp (variants g) _); [apply Hadd | exact Hsame |].
    destruct (newVariant _ _ _ _); [apply Hadd | exact Hsame].
  - destruct (existsb (String.eqb k) objectPrototypeKeys); [exact Hsame|].
    assert (Hnew : sumUnits (setProp k (newGroup p) o) = sumUnits o
                   /\ length (setProp k (newGroup p) o) = S (length o)).
    { rewrite sumUnits_setProp, length_setProp, Eg. simpl. lia. }
    destruct Hnew as [Hs Hl].
    assert (Hadd : forall b it vk,
              P (setProp k (addToGroup vk b it (newGroup p))
                   (setProp k (newGroup p) o))).
    { intros b it vk. unfold P.
      rewrite sumUnits_setProp, length_setProp, assoc_setProp_same, Hs, Hl.
      simpl. lia. }
    assert (Hkeep : P (setProp k (newGroup p) o)).
    { unfold P. rewrite Hs, Hl. lia. }
    destruct (getProp (variants (newGroup p)) _);
      [apply Hadd | exact Hkeep |].
    destruct (newVariant _ _ _ _); [apply Hadd | exact Hkeep].
Qed.

Lemma fold_processItem_bounds (rows : list Row) (o : Obj ProductGroup) :
  let o' := fold_left (processItem analyzeProductAdvanced) rows o in
  sumUnits o <= sumUnits o' <= sumUnits o + Z.of_nat (length rows)
  /\ (length o' <= length o + length rows)%nat.
Proof.
  revert o. induction rows as [|item rows IH]; intros o; [simpl; lia|].
  cbv zeta. cbn [fold_left].
  pose proof (processItem_bounds o item) as H1. cbv zeta in H1.
  pose proof (IH (processItem analyzeProductAdvanced o item)) as H2.
  cbv zeta in H2. simpl length. lia.
Qed.

End StatisticsFacts.

(** X10. The statistics that [createProductGroups] returns with the groups:
    its groups are the groups of the fold, the units it reports are the sum
    of the groups' totalUnits, between 0 and the number of rows, and it has
    at most as many groups as rows. *)
Theorem createProductGroups_statistics :
  forall (analyzeProductAdvanced : Row -> option ProductInfo)
         (appleProducts : list Row),
    let r := createProductGroupsResult analyzeProductAdvanced appleProducts in
    productGroups r = createProductGroups analyzeProductAdvanced appleProducts
    /\ totalItems r = Z.of_nat (length appleProducts)
    /\ totalUniqueUnits r = sumUnits (productGroups r)
    /\ 0 <= totalUniqueUnits r <= totalItems r
    /\ 0 <= groupCount r <= totalItems r.
Proof.
  intros analyze rows. unfold createProductGroupsResult.
  destruct (fold_left (processItemCounting analyze) rows ([], [])) as [o c]
    eqn:E.
  assert (Hg : o = createProductGroups analyze rows).
  { pose proof (f_equal fst E) as H. cbn [fst] in H. rewrite <- H.
    apply fold_processItemCounting_groups. }
  pose proof (fold_processItem_bounds analyze rows []) as Hb.
  cbv zeta in Hb. fold (createProductGroups analyze rows) in Hb.
  rewrite <- Hg in Hb. cbv zeta.
  cbn [productGroups totalItems totalUniqueUnits groupCount].
  rewrite fold_left_sumUnits. simpl in Hb.
  split; [exact Hg|]. split; [reflexivity|]. split; [lia|]. lia.
Qed.

(** The rows that [analyzeProductAdvanced] gives a classification, those
    whose classification has a text as display size, those whose
    classification has an object there, and the rows of the second kind
    that have the product type [t]. *)
Definition recognised (item : Row) : bool :=
  match analyzeProductAdvanced item with Some _ => true | None => false end.

Definition textSized (item : Row) : bool :=
  match analyzeProductAdvanced item with
  | Some a =>
      match Analysis.displaySize a with
      | VString _ => true
      | VObject _ => false
      end
  | None => false
  end.

Definition objectSized (item : Row) : bool :=
  match analyzeProductAdvanced item with
  | Some a =>
      match Analysis.displaySize a with
      | VString _ => false
      | VObject _ => true
      end
  | None => false
  end.

Definition textSizedAs (t : string) (item : Row) : bool :=
  match analyzeProductAdvanced item with
  | Some a =>
      match Analysis.displaySize a with
      | VString _ => String.eqb (Analysis.productType a) t
      | VObject _ => false
      end
  | None => false
  end.

Lemma groupableSpec_Some (item : Row) (p : ProductInfo) :
  groupableSpec item = Some p ->
  exists a, analyzeProductAdvanced item = Some a /\ p = asTexts a.
Proof.
  unfold groupableSpec.
  destruct (analyzeProductAdvanced item) as [a|]; [|discriminate].
  destruct (Analysis.displaySize a); [|discriminate].
  intros H. apply Some_injective in H. exists a. split; [reflexivity|].
  symmetry. exact H.
Qed.

Lemma textSized_groupableSpec (item : Row) :
  textSized item
  = match groupableSpec item with Some _ => true | None => false end.
Proof.
  unfold textSized, groupableSpec.
  destruct (analyzeProductAdvanced item) as [a|]; [|reflexivity].
  destruct (Analysis.displaySize a); reflexivity.
Qed.

Lemma textSizedAs_groupableSpec (t : string) (item : Row) :
  textSizedAs t item
  = match groupableSpec item with
    | Some p => String.eqb (productType p) t
    | None => false
    end.
Proof.
  unfold textSizedAs, groupableSpec.
  destruct (analyzeProductAdvanced item) as [a|]; [|reflexivity].
  destruct (Analysis.displaySize a); reflexivity.
Qed.

Definition countOf (f : Row -> bool) (rows : list Row) : Z :=
  Z.of_nat (length (filter f rows)).

Lemma countOf_snoc (f : Row -> bool) (rows : list Row) (item : Row) :
  countOf f (rows ++ [item])%list = countOf f rows + (if f item then 1 else 0).
Proof.
  unfold countOf. rewrite filter_app, length_app. simpl.
  destruct (f item); simpl; lia.
Qed.

Lemma countOf_recognised (rows : list Row) :
  countOf recognised rows = countOf textSized rows + countOf objectSized rows.
Proof.
  unfold countOf. induction rows as [|item rows IH]; [reflexivity|].
  cbn [filter]. unfold recognised at 1, textSized at 1, objectSized at 1.
  destruct (analyzeProductAdvanced item) as [a|]; [|exact IH].
  destruct (Analysis.displaySize a); cbn [length]; lia.
Qed.

(** The state of the fold once [rows] have been processed, all of them with
    a text colour. *)
Definition tallied (rows : list Row) (state : Obj ProductGroup * Obj tally)
  : Prop :=
  sumUnits (fst state) = countOf textSized rows
  /\ forall t,
       assoc t (snd state)
       = if 0 <? countOf (textSizedAs t) rows
         then Some (Count (countOf (textSizedAs t) rows)) else None.

Lemma productTypes_own (t : string) :
  In t productTypes -> existsb (String.eqb t) objectPrototypeKeys = false.
Proof.
  intros H. simpl in H.
  repeat (destruct H as [<-|H]; [reflexivity|]). contradiction.
Qed.

Lemma countOf_nonneg f rows : 0 <= countOf f rows.
Proof. unfold countOf. lia. Qed.

Lemma tallied_step (rows : list Row) (state : Obj ProductGroup * Obj tally)
    (item : Row) :
  textColour item = true ->
  tallied rows state ->
  tallied (rows ++ [item])%list
    (processItemCounting groupableSpec state item).
Proof.
  intros Htext [Hsum Hcat]. destruct state as [o c]. cbn [fst snd] in *.
  assert (Hcount : forall t, countOf (textSizedAs t) (rows ++ [item])%list
                   = countOf (textSizedAs t) rows
                     + (match groupableSpec item with
                        | Some p => if String.eqb (productType p) t
                                    then 1 else 0
                        | None => 0
                        end)).
  { intros t. rewrite countOf_snoc, textSizedAs_groupableSpec.
    destruct (groupableSpec item); reflexivity. }
  assert (Hrec : countOf textSized (rows ++ [item])%list
                 = countOf textSized rows
                   + (match groupableSpec item with
                      | Some _ => 1
                      | None => 0
                      end)).
  { rewrite countOf_snoc, textSized_groupableSpec.
    destruct (groupableSpec item); reflexivity. }
  unfold processItemCounting.
  destruct (groupableSpec item) as [p|] eqn:Ea.
  2:{ split; cbn [fst snd]; [lia|]. intros t. rewrite Hcount, Z.add_0_r.
      apply Hcat. }
  destruct (groupableSpec_Some item p Ea) as (a & Ha & Hp).
  assert (Ht : In (productType p) productTypes).
  { rewrite Hp. exact (proj1 (analyzeProductAdvanced_classified item a Ha)). }
  pose proof (productTypes_key p Ht) as Hk. unfold inherited in Hk.
  set (k := createAdvancedGroupingKey p) in *.
  (* the state after a row that is counted *)
  assert (Hstate : forall o',
            sumUnits o' = sumUnits o + 1 ->
            tallied (rows ++ [item])%list
              (o', countCategory c (productType p))).
  { intros o' Ho'. split; cbn [fst snd]; [lia|].
    intros t. rewrite Hcount. unfold countCategory, getProp.
    pose proof (countOf_nonneg (textSizedAs (productType p)) rows) as Hn0.
    pose proof (countOf_nonneg (textSizedAs t) rows) as Hn1.
    rewrite (Hcat (productType p)), (productTypes_own _ Ht).
    destruct (String.eqb_spec (productType p) t) as [<-|Hne].
    - destruct (Z.ltb_spec 0 (countOf (textSizedAs (productType p)) rows)).
      + rewrite assoc_setProp_same.
        destruct (Z.ltb_spec 0 (countOf (textSizedAs (productType p)) rows + 1));
          [reflexivity | lia].
      + rewrite assoc_setProp_same.
        replace (countOf (textSizedAs (productType p)) rows) with 0 by lia.
        reflexivity.
    - rewrite Z.add_0_r.
      destruct (0 <? countOf (textSizedAs (productType p)) rows);
        rewrite (assoc_setProp_other c (productType p) t) by
          (intros Heq; apply Hne; symmetry; exact Heq);
        apply Hcat. }
  (* the groups after the row *)
  unfold getProp at 1. rewrite Hk.
  destruct (newVariant_text p item Htext) as (b0 & Hb0 & _).
  destruct (assoc k o) as [g|] eqn:Eg; cbv beta iota zeta;
    rewrite variantKeyOf_lookup.
  - assert (Hadd : forall b it vk,
              sumUnits (setProp k (addToGroup vk b it g) o) = sumUnits o + 1).
    { intros b it vk. rewrite sumUnits_setProp, Eg. simpl. lia. }
    destruct (assoc _ (variants g)).
    + apply Hstate, Hadd.
    + rewrite Hb0. apply Hstate, Hadd.
  - assert (Hadd : forall b it vk,
              sumUnits (setProp k (addToGroup vk b it (newGroup p))
                          (setProp k (newGroup p) o))
              = sumUnits o + 1).
    { intros b it vk.
      rewrite sumUnits_setProp, assoc_setProp_same, sumUnits_setProp, Eg.
      simpl. lia. }
    simpl (assoc _ (variants (newGroup p))). rewrite Hb0.
    apply Hstate, Hadd.
Qed.

Lemma tallied_fold (rows : list Row) :
  forallb textColour rows = true ->
  tallied rows
    (fold_left (processItemCounting groupableSpec) rows ([], [])).
Proof.
  induction rows as [|item rows IH] using rev_ind; intros Htext.
  - split; [reflexivity | intros t; reflexivity].
  - rewrite forallb_app in Htext. apply andb_prop in Htext.
    destruct Htext as [Hrows Hitem]. simpl in Hitem.
    rewrite andb_true_r in Hitem.
    rewrite fold_left_snoc. apply tallied_step; [exact Hitem | apply IH; exact Hrows].
Qed.

(** X11. The rows that [createProductGroups] counts.  When the colour of
    every row is text, the units that it reports are the rows to which
    [analyzeProductAdvanced] gives a classification whose display size is a
    text, each counted once, and [categories] holds, for each product type
    that such a row was given, the number of these rows of that type, and
    nothing else.  The rows that get a classification and are not counted
    are those whose display size is a member of [Object.prototype]. *)
Theorem createProductGroups_counts_recognised_rows :
  forall appleProducts : list Row,
    forallb textColour appleProducts = true ->
    let r := createProductGroupsResult groupableSpec appleProducts in
    totalUniqueUnits r = countOf textSized appleProducts
    /\ (forall t,
          assoc t (categories r)
          = if 0 <? countOf (textSizedAs t) appleProducts
            then Some (Count (countOf (textSizedAs t) appleProducts))
            else None)
    /\ totalUniqueUnits r
       = countOf recognised appleProducts - countOf objectSized appleProducts.
Proof.
  intros rows Htext. unfold createProductGroupsResult.
  pose proof (tallied_fold rows Htext) as H. revert H.
  destruct (fold_left (processItemCounting groupableSpec) rows ([], []))
    as [o c] eqn:E.
  intros [Hsum Hcat]. cbv zeta. cbn [totalUniqueUnits categories fst snd] in *.
  rewrite fold_left_sumUnits, countOf_recognised.
  split; [lia|]. split; [exact Hcat | lia].
Qed.

Lemma createProductGroups_counts_recognised_rows_witness :
  forallb textColour (constructorRow :: threeUnits) = true
  /\ (let r :=
        createProductGroupsResult groupableSpec (constructorRow :: threeUnits) in
      totalUniqueUnits r = 3
      /\ countOf recognised (constructorRow :: threeUnits) = 4
      /\ totalUniqueUnits r
         = countOf recognised (constructorRow :: threeUnits)
           - countOf objectSized (constructorRow :: threeUnits)).
Proof.
  assert (Htext : forallb textColour (constructorRow :: threeUnits) = true)
    by (vm_compute; reflexivity).
  split; [exact Htext|].
  destruct (createProductGroups_counts_recognised_rows
              (constructorRow :: threeUnits) Htext) as (H1 & _ & H3).
  cbv zeta. split; [rewrite H1; vm_compute; reflexivity|].
  split; [vm_compute; reflexivity | exact H3].
Defined.

(** ** Lists without repetition *)

Lemma existsb_eqb_In (x : string) (l : list string) :
  existsb (String.eqb x) l = true <-> In x l.
Proof.
  rewrite existsb_exists. split.
  - intros (y & Hy & Heq). apply String.eqb_eq in Heq. subst y. exact Hy.
  - intros H. exists x. split; [exact H | apply String.eqb_refl].
Qed.

Lemma dedupe_In (seen l : list string) (x : string) :
  In x (dedupe seen l) <-> In x l /\ ~ In x seen.
Proof.
  revert seen. induction l as [|y l IH]; intros seen; simpl; [tauto|].
  destruct (existsb (String.eqb y) seen) eqn:E.
  - apply existsb_eqb_In in E. rewrite IH. split.
    + intros [H1 H2]. split; [right; exact H1 | exact H2].
    + intros [[->|H1] H2]; [contradiction | split; assumption].
  - assert (Hy : ~ In y seen).
    { intros H. apply existsb_eqb_In in H. rewrite H in E. discriminate. }
    simpl. rewrite IH. simpl. split.
    + intros [<-|[H1 H2]]; [split; [left; reflexivity | exact Hy]|].
      split; [right; exact H1 | intros H; apply H2; right; exact H].
    + intros [[<-|H1] H2]; [left; reflexivity|].
      destruct (string_dec y x) as [->|Hne]; [left; reflexivity|].
      right. split; [exact H1|]. intros [H|H]; [contradiction | contradiction].
Qed.

Lemma dedupe_NoDup (seen l : list string) : NoDup (dedupe seen l).
Proof.
  revert seen. induction l as [|y l IH]; intros seen; simpl; [constructor|].
  destruct (existsb (String.eqb y) seen); [apply IH|].
  constructor; [|apply IH].
  rewrite dedupe_In. intros [_ H]. apply H. left. reflexivity.
Qed.

Lemma distinct_spec (l : list string) :
  NoDup (Sync.distinct l) /\ forall x, In x (Sync.distinct l) <-> In x l.
Proof.
  unfold Sync.distinct. split; [apply dedupe_NoDup|].
  intros x. rewrite dedupe_In. simpl. tauto.
Qed.

(** X12. The collections of a spec are listed without repetition, and among
    them are always the product type, the category, Certified Refurbished
    and Apple. *)
Theorem createAdvancedCollections_distinct :
  forall p : ProductInfo,
    NoDup (createAdvancedCollections p)
    /\ In (productType p) (createAdvancedCollections p)
    /\ In (category p) (createAdvancedCollections p)
    /\ In "Certified Refurbished" (createAdvancedCollections p)
    /\ In "Apple" (createAdvancedCollections p).
Proof.
  intros p. unfold createAdvancedCollections.
  split; [apply dedupe_NoDup|].
  repeat split; apply dedupe_In; (split; [|intros []]).
  - left. reflexivity.
  - right. left. reflexivity.
  - simpl. right. right. rewrite !in_app_iff. simpl. tauto.
  - simpl. right. right. rewrite !in_app_iff. simpl. tauto.
Qed.

(** ** The create payload *)

Section PayloadFacts.

Import Sync.

Variable localeCompare : string -> string -> Z.

(** The inventory of a list of variants, as the function logs it before it
    returns. *)
Definition totalInventory (variants : list Variant) : Z :=
  fold_left (fun sum v => sum + inventory_quantity v) variants 0.

Definition sumInventory (variants : list Variant) : Z :=
  fold_right (fun v acc => inventory_quantity v + acc) 0 variants.

Lemma fold_left_sumInventory (variants : list Variant) (start : Z) :
  fold_left (fun sum v => sum + inventory_quantity v) variants start
  = start + sumInventory variants.
Proof.
  revert start. induction variants as [|v l IH]; intros start; simpl; [lia|].
  rewrite IH. lia.
Qed.

Lemma sumInventory_perm (l l' : list Variant) :
  Permutation l l' -> sumInventory l = sumInventory l'.
Proof. induction 1; simpl; lia. Qed.

Definition sumAggregates (m : Obj Aggregate) : Z :=
  fold_right (fun kv acc => aQuantity (snd kv) + acc) 0 m.

Lemma sumAggregates_setProp (k : string) (e : Aggregate) (m : Obj Aggregate) :
  sumAggregates (setProp k e m)
  = sumAggregates m
    - match assoc k m with Some e0 => aQuantity e0 | None => 0 end
    + aQuantity e.
Proof.
  induction m as [|[k0 e0] m IH]; simpl; [lia|].
  destruct (String.eqb k k0); simpl; [lia | rewrite IH; lia].
Qed.

Lemma sumAggregates_aggregate (m : Obj Aggregate) (it : StockItem) :
  sumAggregates (aggregate m it)
  = sumAggregates m + (if hasIds it then 1 else 0).
Proof.
  unfold aggregate. destruct (hasIds it); simpl negb; cbv iota; [|lia].
  rewrite sumAggregates_setProp. simpl.
  destruct (assoc (variantKey it) m); simpl; lia.
Qed.

Lemma sumAggregates_fold (items : list StockItem) (m : Obj Aggregate) :
  sumAggregates (fold_left aggregate items m)
  = sumAggregates m + Z.of_nat (length (filter hasIds items)).
Proof.
  revert m. induction items as [|it items IH]; intros m; simpl; [lia|].
  rewrite IH, sumAggregates_aggregate.
  destruct (hasIds it); simpl length; lia.
Qed.

Lemma sumInventory_map (g : ProductGroup) (m : Obj Aggregate) :
  sumInventory (map (fun kv => toShopifyVariant g (snd kv)) m)
  = sumAggregates m.
Proof. induction m as [|kv m IH]; simpl; [reflexivity | rewrite IH; reflexivity]. Qed.

(** X13. The inventory of the variants that [createAdvancedVariants] returns.
    When some unit of the group has a stock id and a serial number, the
    inventory quantities of the variants add up to the number of the units
    that have both; otherwise the one default variant carries the totalUnits
    of the group, 0 when it is absent. *)
Theorem createAdvancedVariants_total_inventory :
  forall g : ProductGroup,
    totalInventory (createAdvancedVariants localeCompare g)
    = if existsb hasIds (stockItems g)
      then Z.of_nat (length (filter hasIds (stockItems g)))
      else match totalUnits g with Some n => n | None => 0 end.
Proof.
  intros g. unfold totalInventory. rewrite fold_left_sumInventory, Z.add_0_l.
  pose proof (sumAggregates_fold (stockItems g) []) as Hsum.
  pose proof (aggregated_fold (stockItems g)) as Hagg.
  destruct (createAdvancedVariants_cases localeCompare g)
    as [[Hm Hdef]|[Hm Hperm]].
  - rewrite Hm in Hagg. apply aggregated_empty in Hagg.
    assert (Hnone : existsb hasIds (stockItems g) = false).
    { destruct (existsb hasIds (stockItems g)) eqn:E; [|reflexivity].
      apply existsb_exists in E. destruct E as (it & Hin & Hid).
      rewrite forallb_forall in Hagg. specialize (Hagg it Hin).
      rewrite Hid in Hagg. discriminate. }
    rewrite Hnone, Hdef. simpl. lia.
  - rewrite <- (sumInventory_perm _ _ Hperm), sumInventory_map, Hsum.
    simpl sumAggregates.
    destruct (existsb hasIds (stockItems g)) eqn:E; [lia|].
    exfalso. apply Hm.
    apply fold_aggregate_none. apply forallb_forall. intros it Hin.
    destruct (hasIds it) eqn:Hid; [|reflexivity].
    assert (Hex : existsb hasIds (stockItems g) = true).
    { apply existsb_exists. exists it. split; assumption. }
    rewrite Hex in E. discriminate.
Qed.

(** X14. The options that a create payload declares are the options of its
    variants: each of the three lists has no repetition, holds the value of
    every variant of the payload and nothing else, and the payload has at
    least one variant. *)
Theorem productDataOf_options :
  forall g : ProductGroup,
    let d := productDataOf localeCompare g in
    NoDup (pdColorOptions d) /\ NoDup (pdConditionOptions d)
    /\ NoDup (pdKeyboardOptions d)
    /\ (forall x, In x (pdColorOptions d)
                  <-> exists v, In v (pdVariants d) /\ option1 v = x)
    /\ (forall x, In x (pdConditionOptions d)
                  <-> exists v, In v (pdVariants d) /\ option2 v = x)
    /\ (forall x, In x (pdKeyboardOptions d)
                  <-> exists v, In v (pdVariants d) /\ option3 v = x)
    /\ pdVariants d <> [].
Proof.
  intros g d. unfold d, productDataOf.
  cbn [pdColorOptions pdConditionOptions pdKeyboardOptions pdVariants].
  set (vs := createAdvancedVariants localeCompare g).
  assert (Hin : forall (f : Variant -> string) x,
            In x (distinct (map f vs)) <-> exists v, In v vs /\ f v = x).
  { intros f x. rewrite (proj2 (distinct_spec _)), in_map_iff.
    split; intros (v & H1 & H2); exists v; split; assumption. }
  split; [apply distinct_spec|]. split; [apply distinct_spec|].
  split; [apply distinct_spec|].
  split; [intros x; apply (Hin option1)|].
  split; [intros x; apply (Hin option2)|].
  split; [intros x; apply (Hin option3)|].
  unfold vs. intros Hnil.
  destruct (createAdvancedVariants_cases localeCompare g)
    as [[_ Hdef]|[Hm Hperm]].
  - rewrite Hdef in Hnil. discriminate.
  - rewrite Hnil in Hperm. apply Permutation_sym, Permutation_nil in Hperm.
    destruct (fold_left aggregate (stockItems g) []); [contradiction|].
    discriminate.
Qed.

End PayloadFacts.

(** ** Requests that may fail without failing the run *)

Section SideRequests.

Import Sync.

Variable net : nat -> response.

Definition isOk (r : response) : bool :=
  match r with Ok _ => true | _ => false end.

(** The requests among the [n] sent from position [start] on that the store
    accepts. *)
Definition accepted (start n : nat) : Z :=
  Z.of_nat (length (filter (fun k => isOk (net k)) (seq start n))).

Lemma accepted_S (start n : nat) :
  accepted start (S n)
  = (if isOk (net start) then 1 else 0) + accepted (S start) n.
Proof.
  unfold accepted. cbn [seq filter]. destruct (isOk (net start)); simpl length; lia.
Qed.

Lemma accepted_bounds (start n : nat) : 0 <= accepted start n <= Z.of_nat n.
Proof.
  unfold accepted. split; [lia|].
  pose proof (filter_length_le (fun k => isOk (net k)) (seq start n)) as H.
  rewrite length_seq in H. lia.
Qed.

Definition imageRequest (productId : Z) (image : Image) : request :=
  PostImage productId (url image) (filename image).

Lemma uploadImages_run (productId : Z) (images : list Image) (uploaded : Z)
    (trace : list request) :
  uploadImages net productId images uploaded trace
  = ((trace ++ map (imageRequest productId) images)%list,
     inl (uploaded + accepted (length trace) (length images))).
Proof.
  revert uploaded trace. induction images as [|image rest IH];
    intros uploaded trace.
  - simpl. unfold ret, accepted. simpl. rewrite app_nil_r, Z.add_0_r.
    reflexivity.
  - cbn [uploadImages map length]. rewrite accepted_S.
    unfold bind at 1, catch, bind, fetch.
    fold (imageRequest productId image).
    assert (Hlen : length (trace ++ [imageRequest productId image])
                   = S (length trace)).
    { rewrite length_app. simpl. lia. }
    destruct (net (length trace)) as [id|code|]; cbn [isOk ret];
      rewrite IH, Hlen, <- app_assoc; simpl app; f_equal; f_equal; lia.
Qed.

(** X15. [uploadProductImages] never fails.  It sends one image request for
    each of the first eight images of the match, in their order, whatever
    the store answers to the earlier ones, and returns the number of those
    requests that the store accepted. *)
Theorem uploadProductImages_run :
  forall (productId : Z) (bestMatch : option (list Image))
         (trace : list request),
    let images :=
      firstn 8 (match bestMatch with Some l => l | None => [] end) in
    uploadProductImages net productId bestMatch trace
    = ((trace ++ map (imageRequest productId) images)%list,
       inl (accepted (length trace) (length images)))
    /\ (length images <= 8)%nat
    /\ 0 <= accepted (length trace) (length images) <= Z.of_nat (length images).
Proof.
  intros productId bestMatch trace images.
  split; [|split; [|apply accepted_bounds]].
  - unfold uploadProductImages, images. destruct bestMatch as [l|].
    + rewrite uploadImages_run. reflexivity.
    + unfold ret. simpl. rewrite app_nil_r. reflexivity.
  - unfold images. apply firstn_le_length.
Qed.

Definition isCollectOf (productId : Z) (r : request) : Prop :=
  exists collectionId, r = PostCollect productId collectionId.

(** The names for which a collect request is sent: those with an id of
    their own that is not 0, and those that name a member of
    [Object.prototype]. *)
Definition collected (collectionsMap : Obj Z) (name : string) : bool :=
  match getProp collectionsMap (toLowerCase name) with
  | Own collectionId => negb (Z.eqb collectionId 0)
  | Inherited _ => true
  | Undefined => false
  end.

Definition collectOf (productId : Z) (collectionsMap : Obj Z) (name : string)
  : request :=
  PostCollect productId
    (match getProp collectionsMap (toLowerCase name) with
     | Own collectionId => Some collectionId
     | _ => None
     end).

Lemma addProductToCollectionsAdvanced_sent (productId : Z)
    (collectionNames : list string) (collectionsMap : Obj Z)
    (trace : list request) :
  addProductToCollectionsAdvanced net productId collectionNames collectionsMap
    trace
  = ((trace ++ map (collectOf productId collectionsMap)
                 (filter (collected collectionsMap) collectionNames))%list,
     inl tt).
Proof.
  revert trace. induction collectionNames as [|name rest IH]; intros trace.
  - simpl. unfold ret. rewrite app_nil_r. reflexivity.
  - cbn [addProductToCollectionsAdvanced filter].
    unfold collected at 1.
    assert (Hcollect : forall cid,
      bind (catch (bind (fetch net (PostCollect productId cid))
                     (fun _ => ret tt)) (fun _ => ret tt))
        (fun _ => addProductToCollectionsAdvanced net productId rest
                    collectionsMap) trace
      = ((trace ++ PostCollect productId cid
            :: map (collectOf productId collectionsMap)
                 (filter (collected collectionsMap) rest))%list,
         inl tt)).
    { intros cid. unfold bind at 1, catch, bind, fetch.
      destruct (net (length trace)) as [id|code|]; cbn [ret];
        rewrite IH, <- app_assoc; reflexivity. }
    destruct (getProp collectionsMap (toLowerCase name)) as [cid|k|]
      eqn:Hname.
    + destruct (Z.eqb cid 0) eqn:Hz; cbn [negb map].
      * apply IH.
      * rewrite Hcollect. unfold collectOf at 2. rewrite Hname. reflexivity.
    + cbn [map]. rewrite Hcollect. unfold collectOf at 2. rewrite Hname.
      reflexivity.
    + apply IH.
Qed.

Lemma collected_known (collectionsMap : Obj Z) (names : list string) :
  (length (filter (collected collectionsMap) names)
   <= length (filter (fun name =>
                match getProp collectionsMap (toLowerCase name) with
                | Undefined => false
                | _ => true
                end) names))%nat.
Proof.
  induction names as [|name rest IH]; [simpl; lia|].
  cbn [filter]. unfold collected at 1.
  destruct (getProp collectionsMap (toLowerCase name)) as [cid|k|].
  - destruct (Z.eqb cid 0); simpl; lia.
  - simpl. lia.
  - exact IH.
Qed.

(** X16. [addProductToCollectionsAdvanced] never fails: whatever the store
    answers, it returns, and what it sent are collect requests for the
    product, at most one for each collection name that the map of
    collections has, none for the other names.  They are, in the order of
    the names, one request for each name whose lower-cased form has an id
    other than 0 in the map or names a member of [Object.prototype]. *)
Theorem addProductToCollectionsAdvanced_run :
  forall (productId : Z) (collectionNames : list string)
         (collectionsMap : Obj Z) (trace : list request),
    let run :=
      addProductToCollectionsAdvanced net productId collectionNames
        collectionsMap trace in
    let known := fun name =>
      match getProp collectionsMap (toLowerCase name) with
      | Undefined => false
      | _ => true
      end in
    snd run = inl tt
    /\ (exists sent,
          fst run = (trace ++ sent)%list
          /\ Forall (isCollectOf productId) sent
          /\ (length sent <= length (filter known collectionNames))%nat)
    /\ fst run
       = (trace ++ map (collectOf productId collectionsMap)
                     (filter (collected collectionsMap) collectionNames))%list.
Proof.
  intros productId names collectionsMap trace. cbv zeta.
  rewrite addProductToCollectionsAdvanced_sent. cbn [fst snd].
  split; [reflexivity|]. split; [|reflexivity].
  eexists. split; [reflexivity|]. split.
  - apply Forall_forall. intros r Hr. apply in_map_iff in Hr.
    destruct Hr as (name & <- & _). eexists. reflexivity.
  - rewrite length_map. apply collected_known.
Qed.

Lemma uploadProductImages_returns (productId : Z)
    (bestMatch : option (list Image)) (trace : list request) :
  exists n sent,
    uploadProductImages net productId bestMatch trace
    = ((trace ++ sent)%list, inl n).
Proof.
  unfold uploadProductImages. destruct bestMatch as [l|].
  - rewrite uploadImages_run. eexists. eexists. reflexivity.
  - exists 0, []. unfold ret. rewrite app_nil_r. reflexivity.
Qed.

Lemma addProductToCollectionsAdvanced_returns (productId : Z)
    (collectionNames : list string) (collectionsMap : Obj Z)
    (trace : list request) :
  exists sent,
    addProductToCollectionsAdvanced net productId collectionNames
      collectionsMap trace
    = ((trace ++ sent)%list, inl tt).
Proof.
  eexists. apply addProductToCollectionsAdvanced_sent.
Qed.

(** Once the store has accepted the create request, the function returns. *)
Lemma createNewProductAdvanced_accepted (localeCompare : string -> string -> Z)
    (g : ProductGroup) (collectionsMap : Obj Z) (trace : list request)
    (productId : Z) :
  net (length trace) = Ok productId ->
  exists rest,
    createNewProductAdvanced localeCompare net g collectionsMap trace
    = ((trace ++ PostProduct (productDataOf localeCompare g) :: rest)%list,
       inl {| crProductId := productId;
              crVariantsCreated :=
                Z.of_nat (length (createAdvancedVariants localeCompare g));
              crStockItemsProcessed := totalUnits g |}).
Proof.
  intros Enet.
  unfold createNewProductAdvanced, bind at 1, fetch. rewrite Enet.
  set (t1 := (trace ++ [PostProduct (productDataOf localeCompare g)])%list).
  assert (Himages : exists n sent,
            match imageAvailability g with
            | Some availability =>
                if hasImages availability
                then uploadProductImages net productId (bestMatch availability)
                else ret 0
            | None => ret 0
            end t1 = ((t1 ++ sent)%list, inl n)).
  { destruct (imageAvailability g) as [availability|].
    - destruct (hasImages availability).
      + apply uploadProductImages_returns.
      + exists 0, []. unfold ret. rewrite app_nil_r. reflexivity.
    - exists 0, []. unfold ret. rewrite app_nil_r. reflexivity. }
  destruct Himages as (n & sent1 & Himages).
  unfold bind at 1. rewrite Himages.
  destruct (addProductToCollectionsAdvanced_returns productId (collections g)
              collectionsMap (t1 ++ sent1)%list) as (sent2 & Hsent).
  unfold bind. rewrite Hsent.
  exists (sent1 ++ sent2)%list. unfold ret, t1.
  rewrite <- !app_assoc. reflexivity.
Qed.

(** The create succeeds exactly when its first request is accepted. *)
Lemma createNewProductAdvanced_succeeds (localeCompare : string -> string -> Z)
    (g : ProductGroup) (collectionsMap : Obj Z) (trace : list request) :
  match snd (createNewProductAdvanced localeCompare net g collectionsMap trace)
  with
  | inl _ => isOk (net (length trace)) = true
  | inr _ => isOk (net (length trace)) = false
  end.
Proof.
  destruct (net (length trace)) as [productId|code|] eqn:Enet.
  - destruct (createNewProductAdvanced_accepted localeCompare g collectionsMap
                trace productId Enet) as [rest ->]. reflexivity.
  - unfold createNewProductAdvanced, bind at 1, fetch. rewrite Enet.
    reflexivity.
  - unfold createNewProductAdvanced, bind at 1, fetch. rewrite Enet.
    reflexivity.
Qed.

(** X17. How [createNewProductAdvanced] ends is decided by the answer to its
    first request, the one that creates the product.  When the store
    refuses it, nothing else is sent and the function fails.  When the
    store accepts it, the function returns: a failure of an image or of a
    collect request after it is not a failure of the create, and the result
    carries the id the store gave, the number of variants of the payload
    and the totalUnits of the group. *)
Theorem createNewProductAdvanced_outcome :
  forall (localeCompare : string -> string -> Z) (g : ProductGroup)
         (collectionsMap : Obj Z) (trace : list request),
    let run :=
      createNewProductAdvanced localeCompare net g collectionsMap trace in
    let create := PostProduct (productDataOf localeCompare g) in
    match net (length trace) with
    | Ok productId =>
        snd run
        = inl {| crProductId := productId;
                 crVariantsCreated :=
                   Z.of_nat (length (createAdvancedVariants localeCompare g));
                 crStockItemsProcessed := totalUnits g |}
        /\ exists rest, fst run = (trace ++ create :: rest)%list
    | Status code =>
        run = ((trace ++ [create])%list, inr (ProductCreateFailed code))
    | Rejected => run = ((trace ++ [create])%list, inr FetchFailed)
    end.
Proof.
  intros localeCompare g collectionsMap trace. cbv zeta.
  destruct (net (length trace)) as [productId|code|] eqn:Enet.
  - destruct (createNewProductAdvanced_accepted localeCompare g collectionsMap
                trace productId Enet) as [rest Hrun].
    rewrite Hrun. split; [reflexivity | exists rest; reflexivity].
  - unfold createNewProductAdvanced, bind at 1, fetch. rewrite Enet.
    reflexivity.
  - unfold createNewProductAdvanced, bind at 1, fetch. rewrite Enet.
    reflexivity.
Qed.

End SideRequests.

(** ** How an update ends *)

Section UpdateFacts.

Import Sync.

Variable localeCompare : string -> string -> Z.
Variable net : nat -> response.

(** A local variant that has a remote variant with its three options. *)
Definition matched (existingProduct : RemoteProduct) (newVariant : Variant)
  : bool :=
  match find (sameOptions newVariant) (rpVariants existingProduct) with
  | Some _ => true
  | None => false
  end.

Definition countMatched (existingProduct : RemoteProduct)
    (newVariants : list Variant) : Z :=
  Z.of_nat (length (filter (matched existingProduct) newVariants)).

(** The requests from position [start] on, [n] of them, were accepted. *)
Definition allAccepted (start n : nat) : Prop :=
  forall k, (k < n)%nat -> isOk (net (start + k)) = true.

(** Of [requests], sent from position [start] on, the first [n] were accepted
    and the next one was not: it is the last one sent. *)
Definition stoppedAt (start : nat) (requests sent : list request) (n : nat)
  : Prop :=
  (n < length requests)%nat
  /\ sent = firstn (S n) requests
  /\ allAccepted start n
  /\ isOk (net (start + n)) = false.

Lemma updateVariants_cons existingProduct v rest u c trace :
  updateVariants net existingProduct (v :: rest) u c trace
  = match net (length trace) with
    | Ok _ =>
        updateVariants net existingProduct rest
          (u + (if matched existingProduct v then 1 else 0))
          (c + (if matched existingProduct v then 0 else 1))
          (trace ++ [requestFor existingProduct v])%list
    | Status code =>
        ((trace ++ [requestFor existingProduct v])%list,
         inr (if matched existingProduct v then VariantUpdateFailed code
              else VariantCreationFailed code))
    | Rejected =>
        ((trace ++ [requestFor existingProduct v])%list, inr FetchFailed)
    end.
Proof.
  cbn [updateVariants]. unfold requestFor, matched.
  destruct (find (sameOptions v) (rpVariants existingProduct)) as [ev|];
    unfold bind, fetch; destruct (net (length trace)) as [id|code|];
    rewrite ?Z.add_0_r; reflexivity.
Qed.

Lemma allAccepted_S start n :
  isOk (net start) = true -> allAccepted (S start) n -> allAccepted start (S n).
Proof.
  intros H0 H k Hk. destruct k as [|k].
  - rewrite Nat.add_0_r. exact H0.
  - replace (start + S k)%nat with (S start + k)%nat by lia. apply H. lia.
Qed.

Lemma stoppedAt_S start r requests sent n :
  isOk (net start) = true ->
  stoppedAt (S start) requests sent n ->
  stoppedAt start (r :: requests) (r :: sent) (S n).
Proof.
  intros H0 (Hn & Hsent & Hall & Hlast). split; [simpl; lia|].
  split; [rewrite Hsent; reflexivity|].
  split; [apply allAccepted_S; assumption|].
  replace (start + S n)%nat with (S start + n)%nat by lia. exact Hlast.
Qed.

Lemma updateVariants_run existingProduct newVariants u c trace :
  let requests := map (requestFor existingProduct) newVariants in
  match updateVariants net existingProduct newVariants u c trace with
  | (trace', inl (u', c')) =>
      trace' = (trace ++ requests)%list
      /\ u' = u + countMatched existingProduct newVariants
      /\ allAccepted (length trace) (length requests)
  | (trace', inr e) =>
      exists sent n,
        trace' = (trace ++ sent)%list
        /\ stoppedAt (length trace) requests sent n
  end.
Proof.
  revert u c trace. induction newVariants as [|v rest IH]; intros u c trace.
  - cbv zeta. simpl. rewrite app_nil_r. unfold countMatched. simpl.
    split; [reflexivity|]. split; [lia|]. intros k Hk. lia.
  - cbv zeta. rewrite updateVariants_cons. cbn [map].
    set (r := requestFor existingProduct v).
    assert (Hlen : length (trace ++ [r]) = S (length trace)).
    { rewrite length_app. simpl. lia. }
    destruct (net (length trace)) as [id|code|] eqn:Enet.
    + specialize (IH (u + (if matched existingProduct v then 1 else 0))
                     (c + (if matched existingProduct v then 0 else 1))
                     (trace ++ [r])%list).
      cbv zeta in IH. rewrite Hlen in IH.
      destruct (updateVariants net existingProduct rest _ _ _)
        as [trace' [[u' c']|e]].
      * destruct IH as (Ht & Hu & Hall). split; [|split].
        -- rewrite Ht, <- app_assoc. reflexivity.
        -- rewrite Hu. unfold countMatched. cbn [filter].
           destruct (matched existingProduct v); simpl length; lia.
        -- apply allAccepted_S; [rewrite Enet; reflexivity | exact Hall].
      * destruct IH as (sent & n & Ht & Hstop).
        exists (r :: sent), (S n). split.
        -- rewrite Ht, <- app_assoc. reflexivity.
        -- apply stoppedAt_S; [rewrite Enet; reflexivity | exact Hstop].
    + exists [r], 0%nat. split; [reflexivity|].
      split; [simpl; lia|]. split; [reflexivity|].
      split; [intros k Hk; lia|]. rewrite Nat.add_0_r, Enet. reflexivity.
    + exists [r], 0%nat. split; [reflexivity|].
      split; [simpl; lia|]. split; [reflexivity|].
      split; [intros k Hk; lia|]. rewrite Nat.add_0_r, Enet. reflexivity.
Qed.

(** X18. An update sends its requests in order, the product first and then one
    request for each local variant, and stops at the first one that the
    store does not accept.  When it returns, every request was sent and
    accepted, and the variants it reports as updated are the local variants
    that have a remote variant with their options (those it created are not
    counted).  When it fails, the requests before the refused one were
    accepted, so the store keeps what they changed, and no request after it
    was sent. *)
Theorem updateExistingProductAdvanced_outcome :
  forall (existingProduct : RemoteProduct) (g : ProductGroup)
         (trace : list request),
    let newVariants := createAdvancedVariants localeCompare g in
    let requests :=
      putProductOf existingProduct g
      :: map (requestFor existingProduct) newVariants in
    match updateExistingProductAdvanced localeCompare net existingProduct g
            trace with
    | (trace', inl result) =>
        trace' = (trace ++ requests)%list
        /\ allAccepted (length trace) (length requests)
        /\ urVariantsUpdated result = countMatched existingProduct newVariants
        /\ urStockItemsProcessed result = totalUnits g
    | (trace', inr e) =>
        exists sent n,
          trace' = (trace ++ sent)%list
          /\ stoppedAt (length trace) requests sent n
    end.
Proof.
  intros existingProduct g trace newVariants requests.
  unfold updateExistingProductAdvanced, bind at 1, fetch.
  fold (putProductOf existingProduct g). fold newVariants.
  set (put := putProductOf existingProduct g) in *.
  assert (Hlen : length (trace ++ [put]) = S (length trace)).
  { rewrite length_app. simpl. lia. }
  assert (Hfirst :
            isOk (net (length trace)) = false ->
            exists sent n,
              (trace ++ [put])%list = (trace ++ sent)%list
              /\ stoppedAt (length trace) requests sent n).
  { intros H. exists [put], 0%nat. split; [reflexivity|].
    split; [unfold requests; simpl; lia|]. split; [reflexivity|].
    split; [intros k Hk; lia|]. rewrite Nat.add_0_r. exact H. }
  destruct (net (length trace)) as [id|code|] eqn:Enet.
  - pose proof (updateVariants_run existingProduct newVariants 0 0
                  (trace ++ [put])%list) as H.
    cbv zeta in H. rewrite Hlen in H. unfold bind.
    destruct (updateVariants net existingProduct newVariants 0 0 _)
      as [trace' [[u' c']|e]].
    + destruct H as (Ht & Hu & Hall). cbn [ret fst urVariantsUpdated
                                            urStockItemsProcessed].
      split; [rewrite Ht, <- app_assoc; reflexivity|].
      split; [apply allAccepted_S; [rewrite Enet; reflexivity | exact Hall]|].
      split; [lia | reflexivity].
    + destruct H as (sent & n & Ht & Hstop).
      exists (put :: sent), (S n). split.
      * rewrite Ht, <- app_assoc. reflexivity.
      * apply stoppedAt_S; [rewrite Enet; reflexivity | exact Hstop].
  - apply Hfirst. reflexivity.
  - apply Hfirst. reflexivity.
Qed.

End UpdateFacts.

(** ** The report of a run *)

Section ReportFacts.

Import Sync.

Variable localeCompare : string -> string -> Z.
Variable net : nat -> response.
Variable existingProducts : list RemoteProduct.
Variable collectionsMap : Obj Z.

(** What one more group changes in the report. *)
Definition accountsFor (n : nat) (r r' : Results) : Prop :=
  created r' + updated r' + errors r'
  = created r + updated r + errors r + Z.of_nat n
  /\ created r <= created r' /\ updated r <= updated r'
  /\ errors r <= errors r'
  /\ length (details r') = (length (details r) + n)%nat
  /\ skipped r' = skipped r.

Lemma accountsFor_refl r : accountsFor 0 r r.
Proof. unfold accountsFor. repeat split; try lia. Qed.

Lemma accountsFor_trans n m r1 r2 r3 :
  accountsFor n r1 r2 -> accountsFor m r2 r3 -> accountsFor (n + m) r1 r3.
Proof. unfold accountsFor. intros H1 H2. repeat split; lia. Qed.

Lemma accountsFor_recordUpdated r g u : accountsFor 1 r (recordUpdated r g u).
Proof.
  unfold accountsFor, recordUpdated. simpl. rewrite length_app. simpl.
  repeat split; lia.
Qed.

Lemma accountsFor_recordCreated r g c : accountsFor 1 r (recordCreated r g c).
Proof.
  unfold accountsFor, recordCreated. simpl. rewrite length_app. simpl.
  repeat split; lia.
Qed.

Lemma accountsFor_recordError r d : accountsFor 1 r (recordError r d).
Proof.
  unfold accountsFor, recordError. simpl. rewrite length_app. simpl.
  repeat split; lia.
Qed.

Lemma syncGroup_accounts (results : Results) (g : ProductGroup)
    (trace : list request) :
  exists results',
    snd (syncGroup localeCompare net existingProducts collectionsMap results g
           trace) = inl results'
    /\ accountsFor 1 results results'.
Proof.
  unfold syncGroup, catch, bind.
  destruct (findExistingProductAdvanced existingProducts g) as [existing|].
  - destruct (updateExistingProductAdvanced localeCompare net existing g trace)
      as [t [u|e]]; cbn [ret snd]; eexists; (split; [reflexivity|]).
    + apply accountsFor_recordUpdated.
    + apply accountsFor_recordError.
  - destruct (createNewProductAdvanced localeCompare net g collectionsMap trace)
      as [t [c|e]]; cbn [ret snd]; eexists; (split; [reflexivity|]).
    + apply accountsFor_recordCreated.
    + apply accountsFor_recordError.
Qed.

(** X19. The loop of the sync never fails, whatever the store answers, and its
    report accounts for every group exactly once: after the loop, created,
    updated and errors have grown by the number of groups together, none of
    them has decreased, details has one line more for each group, and
    skipped is what it was. *)
Theorem syncGroups_accounts_for_every_group :
  forall (productGroups : list ProductGroup) (results : Results)
         (trace : list request),
  exists results',
    snd (syncGroups localeCompare net existingProducts collectionsMap
           productGroups results trace) = inl results'
    /\ created results' + updated results' + errors results'
       = created results + updated results + errors results
         + Z.of_nat (length productGroups)
    /\ created results <= created results'
    /\ updated results <= updated results'
    /\ errors results <= errors results'
    /\ length (details results')
       = (length (details results) + length productGroups)%nat
    /\ skipped results' = skipped results.
Proof.
  intros productGroups. fold (accountsFor (length productGroups)).
  induction productGroups as [|g rest IH]; intros results trace.
  - exists results. split; [reflexivity | apply accountsFor_refl].
  - cbn [syncGroups]. unfold bind.
    destruct (syncGroup_accounts results g trace) as (r1 & Hr1 & Ha1).
    destruct (syncGroup localeCompare net existingProducts collectionsMap
                results g trace) as [t1 o1].
    cbn [snd] in Hr1. subst o1.
    destruct (IH r1 t1) as (r2 & Hr2 & Ha2).
    exists r2. split; [exact Hr2|].
    exact (accountsFor_trans 1 (length rest) _ _ _ Ha1 Ha2).
Qed.

End ReportFacts.

Section CreatedFacts.

Import Sync.

Variable localeCompare : string -> string -> Z.
Variable net : nat -> response.
Variable existingProducts : list RemoteProduct.
Variable collectionsMap : Obj Z.

(** The product-create requests among [sent], sent from position [start] on,
    that the store accepted. *)
Fixpoint createdIn (start : nat) (sent : list request) : Z :=
  match sent with
  | [] => 0
  | r :: rest =>
      (if (isPostProduct r && isOk (net start))%bool then 1 else 0)
      + createdIn (S start) rest
  end.

Lemma createdIn_app (start : nat) (s1 s2 : list request) :
  createdIn start (s1 ++ s2)%list
  = createdIn start s1 + createdIn (start + length s1) s2.
Proof.
  revert start. induction s1 as [|r s1 IH]; intros start; simpl.
  - rewrite Nat.add_0_r. lia.
  - rewrite IH. replace (S start + length s1)%nat with (start + S (length s1))%nat
      by lia. lia.
Qed.

Lemma createdIn_notCreate (start : nat) (sent : list request) :
  Forall notCreate sent -> createdIn start sent = 0.
Proof.
  intros H. revert start. induction H as [|r rest Hr _ IH]; intros start; simpl.
  - reflexivity.
  - unfold notCreate in Hr. rewrite Hr, IH. reflexivity.
Qed.

Lemma syncGroup_created (results : Results) (g : ProductGroup)
    (trace : list request) :
  exists sent results',
    syncGroup localeCompare net existingProducts collectionsMap results g trace
    = ((trace ++ sent)%list, inl results')
    /\ created results' = created results + createdIn (length trace) sent.
Proof.
  unfold syncGroup.
  destruct (findExistingProductAdvanced existingProducts g) as [existing|].
  - destruct (sends_update localeCompare net existing g trace)
      as (sent & Hsent & Hnot).
    unfold catch, bind.
    destruct (updateExistingProductAdvanced localeCompare net existing g trace)
      as [t [u|e]]; cbn [fst] in Hsent; subst t; cbn [ret];
      eexists; eexists; (split; [reflexivity|]);
      rewrite (createdIn_notCreate _ _ Hnot); simpl; lia.
  - pose proof (createNewProductAdvanced_succeeds net localeCompare g
                  collectionsMap trace) as Hout.
    destruct (create_sent localeCompare net g collectionsMap trace)
      as (rest & Hrest & Hnot).
    unfold catch, bind.
    destruct (createNewProductAdvanced localeCompare net g collectionsMap trace)
      as [t [c|e]]; cbn [fst snd] in Hrest, Hout; subst t; cbn [ret];
      eexists; eexists; (split; [reflexivity|]);
      cbn [createdIn isPostProduct andb];
      rewrite (createdIn_notCreate _ _ Hnot), Hout; simpl; lia.
Qed.

(** X20. The report tells what happened in the store.  After the loop the
    count of created products has grown by the number of product-create
    requests of the run that the store accepted. *)
Theorem syncGroups_created_is_accepted_creates :
  forall (productGroups : list ProductGroup) (results : Results)
         (trace : list request),
  exists sent results',
    syncGroups localeCompare net existingProducts collectionsMap
      productGroups results trace
    = ((trace ++ sent)%list, inl results')
    /\ created results' = created results + createdIn (length trace) sent.
Proof.
  intros groups. induction groups as [|g rest IH]; intros results trace.
  - exists [], results. split.
    + simpl. unfold ret. rewrite app_nil_r. reflexivity.
    + simpl. lia.
  - cbn [syncGroups]. unfold bind.
    destruct (syncGroup_created results g trace) as (s1 & r1 & H1 & C1).
    rewrite H1.
    destruct (IH r1 (trace ++ s1)%list) as (s2 & r2 & H2 & C2).
    exists (s1 ++ s2)%list, r2. split.
    + rewrite H2, app_assoc. reflexivity.
    + rewrite C2, C1, createdIn_app, length_app. lia.
Qed.

End CreatedFacts.

(** ** Storage and memory texts *)

Lemma upperChar_digit (c : ascii) : isDigit c = true -> upperChar c = c.
Proof. destruct c as [[] [] [] [] [] [] [] []]; try discriminate; reflexivity. Qed.

Lemma toUpperCase_digits (s : string) :
  allChars isDigit s = true -> toUpperCase s = s.
Proof.
  induction s as [|c s IH]; [reflexivity|]. simpl. intros H.
  apply andb_prop in H. destruct H as [Hc Hs].
  unfold toUpperCase in *. simpl. rewrite (upperChar_digit c Hc), (IH Hs).
  reflexivity.
Qed.

Lemma filterChars_all (keep : ascii -> bool) (s : string) :
  allChars keep s = true -> filterChars keep s = s.
Proof.
  induction s as [|c s IH]; [reflexivity|]. simpl. intros H.
  apply andb_prop in H. destruct H as [Hc Hs]. rewrite Hc, (IH Hs). reflexivity.
Qed.

Lemma allChars_impl (p q : ascii -> bool) (s : string) :
  (forall c, p c = true -> q c = true) ->
  allChars p s = true -> allChars q s = true.
Proof.
  intros Hpq. induction s as [|c s IH]; [reflexivity|]. simpl. intros H.
  apply andb_prop in H. destruct H as [Hc Hs]. rewrite (Hpq c Hc), (IH Hs).
  reflexivity.
Qed.

Lemma takeWhile_append (p : ascii -> bool) (s t : string) :
  allChars p s = true -> takeWhile p (s ++ t) = s ++ takeWhile p t.
Proof.
  induction s as [|c s IH]; [reflexivity|]. simpl. intros H.
  apply andb_prop in H. destruct H as [Hc Hs]. rewrite Hc, (IH Hs). reflexivity.
Qed.

Lemma dropWhile_append (p : ascii -> bool) (s t : string) :
  allChars p s = true -> dropWhile p (s ++ t) = dropWhile p t.
Proof.
  induction s as [|c s IH]; [reflexivity|]. simpl. intros H.
  apply andb_prop in H. destruct H as [Hc Hs]. rewrite Hc. exact (IH Hs).
Qed.

Lemma truthy_append (s t : string) : truthy s = true -> truthy (s ++ t) = true.
Proof. destruct s; [discriminate | reflexivity]. Qed.

Lemma startsWith_truthy (p : ascii -> bool) (s : string) :
  allChars p s = true -> truthy s = true -> startsWith p s = true.
Proof.
  destruct s as [|c s]; [discriminate|]. simpl. intros H _.
  apply andb_prop in H. apply H.
Qed.

Lemma startsWith_append (p : ascii -> bool) (s t : string) :
  truthy s = true -> startsWith p (s ++ t) = startsWith p s.
Proof. destruct s; [discriminate | reflexivity]. Qed.

Lemma dropWhile_not_start (p : ascii -> bool) (s : string) :
  startsWith p s = true -> dropWhile (fun c => negb (p c)) s = s.
Proof.
  destruct s as [|c s]; [reflexivity|]. simpl. intros ->. reflexivity.
Qed.

(** What [standardizeMemory] makes of a cell that has a digit once the
    other characters than digits, G and B are removed. *)
Lemma standardizeMemory_digits (digits : string) :
  truthy digits = true -> allChars isDigit digits = true ->
  standardizeMemory (digits ++ "GB") = digits ++ "GB".
Proof.
  intros Ht Hd. unfold standardizeMemory.
  rewrite (truthy_append _ _ Ht). simpl negb. cbv iota.
  unfold toUpperCase. rewrite mapChars_append.
  fold (toUpperCase digits). rewrite (toUpperCase_digits _ Hd).
  change (mapChars upperChar "GB") with "GB".
  rewrite filterChars_append.
  rewrite (filterChars_all isMemoryChar digits).
  2:{ apply (allChars_impl isDigit); [|exact Hd].
      intros c Hc. unfold isMemoryChar. rewrite Hc. reflexivity. }
  change (filterChars isMemoryChar "GB") with "GB".
  rewrite dropWhile_not_start.
  2:{ rewrite startsWith_append by exact Ht.
      apply startsWith_truthy; assumption. }
  rewrite (takeWhile_append _ _ _ Hd). change (takeWhile isDigit "GB") with "".
  rewrite append_nil_r, Ht. reflexivity.
Qed.

Lemma allChars_takeWhile (p : ascii -> bool) (s : string) :
  allChars p (takeWhile p s) = true.
Proof.
  induction s as [|c s IH]; [reflexivity|]. simpl.
  destruct (p c) eqn:E; [simpl; rewrite E; exact IH | reflexivity].
Qed.

(** X21. [standardizeMemory] is idempotent: standardising its result again
    changes nothing.  Its result is the cell itself, or a run of one or more
    digits followed by GB. *)
Theorem standardizeMemory_idempotent :
  forall memory : string,
    standardizeMemory (standardizeMemory memory) = standardizeMemory memory
    /\ (standardizeMemory memory = memory
        \/ exists digits,
             truthy digits = true /\ allChars isDigit digits = true
             /\ standardizeMemory memory = digits ++ "GB").
Proof.
  intros memory.
  assert (Hshape : standardizeMemory memory = memory
                   \/ exists digits,
                        truthy digits = true /\ allChars isDigit digits = true
                        /\ standardizeMemory memory = digits ++ "GB").
  { unfold standardizeMemory.
    destruct (truthy memory) eqn:Hm; simpl negb; cbv iota.
    2:{ left. destruct memory; [reflexivity | discriminate]. }
    set (digits := takeWhile isDigit _).
    destruct (truthy digits) eqn:Hd; [|left; reflexivity].
    right. exists digits. split; [exact Hd|]. split; [|reflexivity].
    apply allChars_takeWhile. }
  split; [|exact Hshape].
  destruct Hshape as [H|(digits & Ht & Hd & H)].
  - rewrite H. exact H.
  - rewrite H. apply standardizeMemory_digits; assumption.
Qed.

(** The decimal text of a number is its digits. *)
Lemma digit_of_nat (k : Z) :
  0 <= k < 10 ->
  isDigit (ascii_of_nat (48 + Z.to_nat k)) = true
  /\ digitVal (ascii_of_nat (48 + Z.to_nat k)) = k.
Proof.
  intros H.
  assert (Hk : k = 0 \/ k = 1 \/ k = 2 \/ k = 3 \/ k = 4 \/ k = 5 \/ k = 6
               \/ k = 7 \/ k = 8 \/ k = 9) by lia.
  repeat (destruct Hk as [->|Hk]; [split; reflexivity|]).
  subst k. split; reflexivity.
Qed.

Lemma digitsValue_append (a : Z) (s t : string) :
  digitsValue a (s ++ t) = digitsValue (digitsValue a s) t.
Proof.
  revert a. induction s as [|c s IH]; intros a; [reflexivity|]. simpl. apply IH.
Qed.

Lemma natDigits_spec (fuel : nat) (n : Z) (acc : string) :
  0 <= n < 2 ^ Z.of_nat (S fuel) ->
  exists ds,
    natDigits (S fuel) n acc = ds ++ acc
    /\ truthy ds = true /\ allChars isDigit ds = true
    /\ forall a, digitsValue a ds = a * 10 ^ Z.of_nat (String.length ds) + n.
Proof.
  revert n acc. induction fuel as [|fuel IH]; intros n acc Hn;
    cbn [natDigits];
    set (d := ascii_of_nat (48 + Z.to_nat (n mod 10)));
    assert (Hmod : 0 <= n mod 10 < 10) by (apply Z.mod_pos_bound; lia);
    destruct (digit_of_nat _ Hmod) as [Hd Hv]; fold d in Hd, Hv;
    assert (Hone : n < 10 ->
              exists ds,
                String d acc = ds ++ acc
                /\ truthy ds = true /\ allChars isDigit ds = true
                /\ forall a, digitsValue a ds
                             = a * 10 ^ Z.of_nat (String.length ds) + n).
  1,3: intros Hlt; exists (String d EmptyString); (split; [reflexivity|]);
       (split; [reflexivity|]);
       (split; [cbn [allChars]; rewrite Hd; reflexivity|]);
       intros a; cbn [digitsValue String.length]; rewrite Hv;
       change (Z.of_nat 1) with 1; rewrite Z.pow_1_r, Z.mod_small by lia; lia.
  - destruct (Z.ltb_spec n 10) as [Hlt|Hge]; [exact (Hone Hlt)|].
    change (2 ^ Z.of_nat 1) with 2 in Hn. lia.
  - destruct (Z.ltb_spec n 10) as [Hlt|Hge]; [exact (Hone Hlt)|].
    assert (Hdiv : 0 <= n / 10 < 2 ^ Z.of_nat (S fuel)).
    { split; [apply Z.div_pos; lia|].
      rewrite (Nat2Z.inj_succ (S fuel)), Z.pow_succ_r in Hn by lia.
      apply Z.div_lt_upper_bound; lia. }
    destruct (IH (n / 10) (String d acc) Hdiv) as (ds & Hds & Ht & Hall & Hval).
    exists (ds ++ String d EmptyString). split.
    + cbn [natDigits] in Hds. rewrite Hds, append_assoc. reflexivity.
    + split; [apply truthy_append; exact Ht|].
      split; [rewrite allChars_append, Hall; cbn [allChars]; rewrite Hd;
              reflexivity|].
      intros a. rewrite digitsValue_append, Hval. cbn [digitsValue].
      rewrite Hv, length_append. cbn [String.length].
      rewrite Nat.add_1_r, Nat2Z.inj_succ, Z.pow_succ_r by lia.
      pose proof (Z.div_mod n 10 ltac:(lia)) as Hdm. lia.
Qed.

Lemma natText_spec (n : Z) :
  0 <= n ->
  truthy (natText n) = true /\ allChars isDigit (natText n) = true
  /\ digitsValue 0 (natText n) = n.
Proof.
  intros Hn. unfold natText.
  assert (Hb : 0 <= n < 2 ^ Z.of_nat (S (Z.to_nat (Z.log2 n)))).
  { split; [exact Hn|].
    rewrite Nat2Z.inj_succ, Z2Nat.id by apply Z.log2_nonneg.
    destruct (Z.eq_dec n 0) as [->|Hne]; [reflexivity|].
    apply Z.log2_spec. lia. }
  destruct (natDigits_spec _ n EmptyString Hb) as (ds & Hds & Ht & Hall & Hval).
  rewrite Hds, append_nil_r. split; [exact Ht|]. split; [exact Hall|].
  rewrite Hval. lia.
Qed.

Lemma digitsValue_nonneg (s : string) (a : Z) :
  0 <= a -> allChars isDigit s = true -> 0 <= digitsValue a s.
Proof.
  revert a. induction s as [|c s IH]; intros a Ha H; [exact Ha|].
  cbn [allChars digitsValue] in H |- *.
  apply andb_prop in H. destruct H as [Hc Hs].
  apply IH; [|exact Hs].
  unfold digitVal. unfold isDigit, between in Hc.
  apply andb_prop in Hc. destruct Hc as [Hlo _].
  apply Nat.leb_le in Hlo. lia.
Qed.

(** [parseInt] of digits followed by a unit. *)
Lemma parseInt_digits_unit (digits unit : string) :
  truthy digits = true -> allChars isDigit digits = true ->
  startsWith isDigit unit = false ->
  String.prefix "0x" (digits ++ unit) = false ->
  String.prefix "0X" (digits ++ unit) = false ->
  parseInt (digits ++ unit) = Some (digitsValue 0 digits).
Proof.
  intros Ht Hd Hu Hx HX. unfold parseInt.
  assert (Hs : startsWith isDigit (digits ++ unit) = true).
  { rewrite startsWith_append by exact Ht. apply startsWith_truthy; assumption. }
  assert (Hdrop : dropWhile isSpace (digits ++ unit) = digits ++ unit).
  { apply dropWhile_nonspace. destruct digits as [|c s]; [discriminate|].
    simpl in Hs |- *. destruct c as [[] [] [] [] [] [] [] []];
      try discriminate; reflexivity. }
  rewrite Hdrop.
  assert (Hsign : signOf (digits ++ unit) = (1, digits ++ unit)).
  { destruct digits as [|c s]; [discriminate|].
    simpl in Hs |- *. destruct c as [[] [] [] [] [] [] [] []];
      try discriminate; reflexivity. }
  rewrite Hsign, Hx, HX. simpl orb. cbv iota.
  rewrite (takeWhile_append _ _ _ Hd).
  assert (Hnone : takeWhile isDigit unit = EmptyString).
  { destruct unit as [|c u]; [reflexivity|]. simpl in Hu |- *. rewrite Hu.
    reflexivity. }
  rewrite Hnone, append_nil_r, Ht. f_equal. lia.
Qed.

Lemma prefix_0x_digits (x : ascii) (digits unit : string) :
  isDigit x = false -> truthy digits = true ->
  allChars isDigit digits = true ->
  startsWith (fun c => negb (Ascii.eqb c x)) unit = true ->
  String.prefix (String "0" (String x EmptyString)) (digits ++ unit) = false.
Proof.
  intros Hx Ht Hd Hu.
  destruct digits as [|c [|c2 rest]]; [discriminate| |].
  - cbn [append String.prefix]. destruct (ascii_dec "0" c); [|reflexivity].
    destruct unit as [|u1 unit]; [reflexivity|].
    cbn [startsWith] in Hu. cbn [String.prefix].
    destruct (ascii_dec x u1) as [<-|]; [|reflexivity].
    rewrite Ascii.eqb_refl in Hu. discriminate.
  - cbn [append String.prefix]. destruct (ascii_dec "0" c); [|reflexivity].
    destruct (ascii_dec x c2) as [<-|]; [|reflexivity].
    cbn [allChars] in Hd. rewrite Hx in Hd.
    rewrite andb_false_r in Hd. simpl in Hd. discriminate.
Qed.

Lemma standardizeStorage_unit (digits unit : string) :
  truthy digits = true -> allChars isDigit digits = true ->
  unit = "TB" \/ unit = "GB" ->
  standardizeStorage (digits ++ unit)
  = natText (digitsValue 0 digits) ++ unit.
Proof.
  intros Ht Hd Hunit. unfold standardizeStorage.
  rewrite (truthy_append _ _ Ht). simpl negb. cbv iota.
  unfold toUpperCase. rewrite mapChars_append.
  fold (toUpperCase digits). rewrite (toUpperCase_digits _ Hd).
  assert (Hup : mapChars upperChar unit = unit)
    by (destruct Hunit as [->| ->]; reflexivity).
  rewrite Hup, filterChars_append.
  rewrite (filterChars_all isStorageChar digits).
  2:{ apply (allChars_impl isDigit); [|exact Hd].
      intros c Hc. unfold isStorageChar. rewrite Hc. reflexivity. }
  assert (Hkeep : filterChars isStorageChar unit = unit)
    by (destruct Hunit as [->| ->]; reflexivity).
  rewrite Hkeep, dropWhile_not_start.
  2:{ rewrite startsWith_append by exact Ht.
      apply startsWith_truthy; assumption. }
  rewrite (takeWhile_append _ _ _ Hd), (dropWhile_append _ _ _ Hd).
  assert (Htake : takeWhile isDigit unit = EmptyString)
    by (destruct Hunit as [->| ->]; reflexivity).
  assert (Hdrop : dropWhile isDigit unit = unit)
    by (destruct Hunit as [->| ->]; reflexivity).
  rewrite Htake, Hdrop, append_nil_r, Ht.
  destruct Hunit as [->| ->]; reflexivity.
Qed.

(** X22. The storage premium of a price is decided by the number that starts
    the storage text, read as gigabytes whatever the unit.  For a storage
    cell that holds digits (a number below 10^15, which the numbers of the
    code hold exactly) and then TB or GB, [standardizeStorage] keeps the
    number and the unit, and the premium is 1000 from the number 2000 on,
    500 from 1000 on, 300 from 512 on and nothing below: 2TB earns what 2GB
    earns, nothing. *)
Theorem storage_premium_ignores_unit :
  forall (p : ProductInfo) (digits unit : string),
    truthy digits = true -> allChars isDigit digits = true ->
    unit = "TB" \/ unit = "GB" ->
    digitsValue 0 digits < 10 ^ 15 ->
    storage p = standardizeStorage (digits ++ unit) ->
    let amount := digitsValue 0 digits in
    storage p = natText amount ++ unit
    /\ storageAdjustment p
       = if 2000 <=? amount then 1000
         else if 1000 <=? amount then 500
         else if 512 <=? amount then 300
         else 0.
Proof.
  intros p digits unit Ht Hd Hunit _ Hs amount.
  rewrite (standardizeStorage_unit _ _ Ht Hd Hunit) in Hs. fold amount in Hs.
  split; [exact Hs|].
  assert (Hamount : 0 <= amount) by (apply digitsValue_nonneg; [lia | exact Hd]).
  destruct (natText_spec amount Hamount) as (Hnt & Hnd & Hnv).
  assert (Hparse : parseInt (natText amount ++ unit) = Some amount).
  { rewrite parseInt_digits_unit; try assumption.
    - rewrite Hnv. reflexivity.
    - destruct Hunit as [->| ->]; reflexivity.
    - apply prefix_0x_digits; try assumption; [reflexivity|].
      destruct Hunit as [->| ->]; reflexivity.
    - apply prefix_0x_digits; try assumption; [reflexivity|].
      destruct Hunit as [->| ->]; reflexivity. }
  unfold storageAdjustment. rewrite Hs, Hparse.
  rewrite (truthy_append _ _ Hnt). unfold geNum. reflexivity.
Qed.

Lemma storage_premium_ignores_unit_witness :
  truthy "2" = true /\ allChars isDigit "2" = true
  /\ ("TB" = "TB" \/ "TB" = "GB")
  /\ digitsValue 0 "2" < 10 ^ 15
  /\ storage (mkProductInfo "MacBook Pro" "" "M2" "2TB" "" "2022" "" "Laptops"
                "Mac")
     = standardizeStorage ("2" ++ "TB")
  /\ storageAdjustment
       (mkProductInfo "MacBook Pro" "" "M2" "2TB" "" "2022" "" "Laptops" "Mac")
     = 0.
Proof.
  split; [reflexivity|]. split; [reflexivity|]. split; [left; reflexivity|].
  split; [reflexivity|]. split; [reflexivity|].
  exact (proj2 (storage_premium_ignores_unit
                  (mkProductInfo "MacBook Pro" "" "M2" "2TB" "" "2022" ""
                     "Laptops" "Mac")
                  "2" "TB" eq_refl eq_refl (or_introl eq_refl) eq_refl
                  eq_refl)).
Defined.

(** ** Prices of the payload *)

Lemma retailValues_min : forallb (fun r => 129 <=? r) retailValues = true.
Proof. vm_compute. reflexivity. Qed.

Lemma roundedShare_below (r : Z) (g : Grade) :
  129 <= r -> 0 < roundedShare r (percentOf g) < r.
Proof.
  intros Hr. unfold roundedShare. split.
  - apply Z.div_str_pos. destruct g; cbn [percentOf]; lia.
  - apply Z.div_lt_upper_bound; [lia|]. destruct g; cbn [percentOf]; lia.
Qed.

Section PriceFacts.

Import Sync.

(** X23. A variant of the payload whose condition is one of the four grades is
    sold below its compare-at price.  Its compare-at price is the retail
    price of the spec, never absent when that price is a number, and its
    price is a positive number strictly below it. *)
Theorem toShopifyVariant_below_retail :
  forall (g : ProductGroup) (e : Aggregate) (grade : Grade),
    aCondition e = gradeName grade ->
    let v := toShopifyVariant g e in
    compare_at_price v = calculateRetailPrice (info g)
    /\ match price v, calculateRetailPrice (info g) with
       | Some x, Some r => 0 < x < r
       | None, None => True
       | _, _ => False
       end.
Proof.
  intros g e grade Hgrade. unfold toShopifyVariant.
  cbn [compare_at_price price]. rewrite Hgrade.
  unfold calculateComparePrice, calculateVariantPrice.
  destruct (calculateRetailPrice (info g)) as [r|] eqn:Er;
    [|split; [reflexivity | exact I]].
  rewrite conditionMultipliers_grade.
  pose proof (calculateRetailPrice_values (info g) r Er) as Hin.
  rewrite (priceAgrees_ok r grade Hin).
  pose proof retailValues_min as Hmin. rewrite forallb_forall in Hmin.
  specialize (Hmin r Hin). apply Z.leb_le in Hmin.
  pose proof (roundedShare_below r grade Hmin) as Hlt.
  split; [|exact Hlt].
  unfold gtNum. destruct (Z.ltb_spec (roundedShare r (percentOf grade)) r);
    [reflexivity | lia].
Qed.

Lemma toShopifyVariant_below_retail_witness :
  aCondition (mkAggregate "Silver" "A" "English" 1 [] [] []) = gradeName A
  /\ compare_at_price
       (toShopifyVariant threeUnitsGroup
          (mkAggregate "Silver" "A" "English" 1 [] [] []))
     = calculateRetailPrice (info threeUnitsGroup).
Proof.
  split; [reflexivity|].
  exact (proj1 (toShopifyVariant_below_retail threeUnitsGroup
                  (mkAggregate "Silver" "A" "English" 1 [] [] []) A eq_refl)).
Defined.

End PriceFacts.

Example nextMatch_example :
  Setup.nextPageInfoOf
    (Some ("<https://shop.example/admin/api/2023-10/products.json?limit=250&page_info=first>; rel="
           ++ dquote ++ "previous" ++ dquote
           ++ ", <https://shop.example/admin/api/2023-10/products.json?limit=250&page_info=second&x=1>; rel="
           ++ dquote ++ "next" ++ dquote))
  = Some "second".
Proof. vm_compute. reflexivity. Qed.

(** ** Facts about the listing of the store *)

Section ListingFacts.

Import Setup.

Variable server : nat -> reply.

(** How a walk through the pages ends. *)
Inductive ending : Type :=
| LastPage
| Broken (f : failure).

Definition pageOf (body : Body) : list Sync.RemoteProduct :=
  match products body with Some page => page | None => [] end.

(** [walk pos info calls found e]: from the request at position [pos], made
    for the page [info], the store is asked [calls], page after page, each
    page named by the [Link] header of the page before it; [found] are the
    products of these pages, in their order; the walk ends on a page
    without a next one, or on a request that the store does not answer
    with [ok]. *)
Inductive walk : nat -> option string -> list call
                 -> list Sync.RemoteProduct -> ending -> Prop :=
| walk_last pos info body link :
    server pos = Answer body link ->
    nextPageInfoOf link = None ->
    walk pos info [GetProducts info] (pageOf body) LastPage
| walk_refused pos info code :
    server pos = NotOk code ->
    walk pos info [GetProducts info] [] (Broken (FetchProductsFailed code))
| walk_unanswered pos info :
    server pos = NoReply ->
    walk pos info [GetProducts info] [] (Broken NoAnswer)
| walk_next pos info body link info' calls found e :
    server pos = Answer body link ->
    nextPageInfoOf link = Some info' ->
    walk (S pos) (Some info') calls found e ->
    walk pos info (GetProducts info :: calls) (pageOf body ++ found)%list e.

Definition outcome (allProducts found : list Sync.RemoteProduct) (e : ending)
  : list Sync.RemoteProduct + failure :=
  match e with
  | LastPage => inl (allProducts ++ found)%list
  | Broken f => inr f
  end.

Lemma concat_page (allProducts : list Sync.RemoteProduct) (body : Body) :
  match products body with
  | Some page => (allProducts ++ page)%list
  | None => allProducts
  end = (allProducts ++ pageOf body)%list.
Proof. unfold pageOf. destruct (products body); [reflexivity|]. rewrite app_nil_r. reflexivity. Qed.

Lemma fetchPages_walk pos info calls found e :
  walk pos info calls found e ->
  forall fuel allProducts trace,
    length trace = pos -> (length calls <= fuel)%nat ->
    fetchPages server fuel info allProducts trace
    = Some ((trace ++ calls)%list, outcome allProducts found e).
Proof.
  induction 1 as [pos info body link Hs Hn | pos info code Hs | pos info Hs
                  | pos info body link info' calls found e Hs Hn Hw IH];
    intros fuel allProducts trace Hlen Hfuel;
    (destruct fuel as [|fuel]; [simpl in Hfuel; lia|]);
    cbn [fetchPages]; rewrite Hlen, Hs.
  - rewrite Hn, concat_page. reflexivity.
  - reflexivity.
  - reflexivity.
  - rewrite Hn, concat_page.
    rewrite (IH fuel (allProducts ++ pageOf body)%list
               (trace ++ [GetProducts info])%list).
    + rewrite <- app_assoc. destruct e; simpl; [rewrite <- app_assoc|];
        reflexivity.
    + rewrite length_app. simpl. lia.
    + simpl in Hfuel. lia.
Qed.

Lemma walk_fetchPages fuel :
  forall info allProducts trace trace' result,
    fetchPages server fuel info allProducts trace = Some (trace', result) ->
    exists calls found e,
      walk (length trace) info calls found e
      /\ (length calls <= fuel)%nat
      /\ trace' = (trace ++ calls)%list
      /\ result = outcome allProducts found e.
Proof.
  induction fuel as [|fuel IH]; intros info allProducts trace trace' result H;
    [discriminate|].
  cbn [fetchPages] in H.
  destruct (server (length trace)) as [body link|code|] eqn:Hs.
  - rewrite concat_page in H.
    destruct (nextPageInfoOf link) as [info'|] eqn:Hn.
    + apply IH in H. destruct H as (calls & found & e & Hw & Hl & Ht & Hr).
      rewrite length_app in Hw. simpl in Hw. rewrite Nat.add_1_r in Hw.
      exists (GetProducts info :: calls), (pageOf body ++ found)%list, e.
      split; [eapply walk_next; eassumption|].
      split; [simpl; lia|].
      split; [rewrite Ht, <- app_assoc; reflexivity|].
      rewrite Hr. destruct e; simpl; [rewrite <- app_assoc|]; reflexivity.
    + injection H as <- <-.
      exists [GetProducts info], (pageOf body), LastPage.
      split; [eapply walk_last; eassumption|].
      split; [simpl; lia|]. split; reflexivity.
  - injection H as <- <-.
    exists [GetProducts info], [], (Broken (FetchProductsFailed code)).
    split; [apply walk_refused; exact Hs|].
    split; [simpl; lia|]. split; reflexivity.
  - injection H as <- <-.
    exists [GetProducts info], [], (Broken NoAnswer).
    split; [apply walk_unanswered; exact Hs|].
    split; [simpl; lia|]. split; reflexivity.
Qed.

(** X24. [getAllExistingProductsAdvanced] returns the products of all the
    pages, in the order of the pages.  When the pages of the store, each
    named by the Link header of the one before, end within the bound on the
    loop, the function asks for each of them once, the first without a page
    info, and returns their products; when one of them is not answered with
    [ok], it fails and returns nothing of the pages before. *)
Theorem getAllExistingProductsAdvanced_walks_the_pages :
  forall (calls : list call) (found : list Sync.RemoteProduct) (e : ending)
         (fuel : nat) (trace : list call),
    walk (length trace) None calls found e ->
    (length calls <= fuel)%nat ->
    getAllExistingProductsAdvanced server fuel trace
    = Some ((trace ++ calls)%list, outcome [] found e).
Proof.
  intros calls found e fuel trace Hw Hfuel.
  unfold getAllExistingProductsAdvanced.
  apply (fetchPages_walk _ _ _ _ _ Hw); [reflexivity | exact Hfuel].
Qed.

Lemma fetchPages_None fuel :
  forall info allProducts trace,
    fetchPages server fuel info allProducts trace = None ->
    forall k, (k < fuel)%nat ->
      exists body link info',
        server (length trace + k) = Answer body link
        /\ nextPageInfoOf link = Some info'.
Proof.
  induction fuel as [|fuel IH]; intros info allProducts trace H k Hk; [lia|].
  cbn [fetchPages] in H.
  destruct (server (length trace)) as [body link|code|] eqn:Hs;
    try discriminate.
  destruct (nextPageInfoOf link) as [info'|] eqn:Hn; [|discriminate].
  destruct k as [|k].
  - rewrite Nat.add_0_r. exists body, link, info'. split; assumption.
  - specialize (IH _ _ _ H k ltac:(lia)).
    rewrite length_app in IH. simpl in IH.
    replace (length trace + S k)%nat with (length trace + 1 + k)%nat by lia.
    exact IH.
Qed.

(** X25. Whatever [getAllExistingProductsAdvanced] ends with was read from the
    store page by page: its requests are a walk through the pages of the
    store that starts without a page info, and its result is the products
    of the pages of that walk, or the failure that broke it.  The loop goes
    beyond a bound only when the store has answered every request within it
    with a page that names a next one. *)
Theorem getAllExistingProductsAdvanced_result :
  forall (fuel : nat) (trace : list call),
    match getAllExistingProductsAdvanced server fuel trace with
    | Some (trace', result) =>
        exists calls found e,
          walk (length trace) None calls found e
          /\ (length calls <= fuel)%nat
          /\ trace' = (trace ++ calls)%list
          /\ result = outcome [] found e
    | None =>
        forall k, (k < fuel)%nat ->
          exists body link info',
            server (length trace + k) = Answer body link
            /\ nextPageInfoOf link = Some info'
    end.
Proof.
  intros fuel trace. unfold getAllExistingProductsAdvanced.
  destruct (fetchPages server fuel None [] trace) as [[trace' result]|] eqn:E.
  - exact (walk_fetchPages _ _ _ _ _ _ E).
  - exact (fetchPages_None _ _ _ _ E).
Qed.

(** *** The collections *)

Definition missing (existingCollectionNames : list string) (name : string)
  : bool :=
  negb (existsb (String.eqb (toLowerCase name)) existingCollectionNames).

Definition postOf (name : string) : call :=
  PostCollection name (collectionHandle name).

Lemma assoc_setId_other (key k : string) (id : Z) (m : Obj Z) :
  k <> key -> assoc k (setId key id m) = assoc k m.
Proof.
  intros Hne. unfold setId. destruct (String.eqb key "__proto__"); [reflexivity|].
  apply assoc_setProp_other. exact Hne.
Qed.

Lemma createMissing_run (existingCollectionNames needed : list string)
    (collectionsMap : Obj Z) (trace : list call) :
  let run :=
    createMissing server existingCollectionNames needed collectionsMap trace in
  fst run
  = (trace ++ map postOf (filter (missing existingCollectionNames) needed))%list
  /\ forall k, In k existingCollectionNames ->
       assoc k (snd run) = assoc k collectionsMap.
Proof.
  revert collectionsMap trace.
  induction needed as [|name rest IH]; intros collectionsMap trace.
  - simpl. rewrite app_nil_r. split; [reflexivity | intros; reflexivity].
  - cbv zeta. cbn [createMissing filter]. unfold missing at 1.
    destruct (existsb (String.eqb (toLowerCase name)) existingCollectionNames)
      eqn:E; cbn [negb].
    + apply IH.
    + set (m' := match server (length trace) with
                 | Answer body _ =>
                     match custom_collection body with
                     | Some id => setId (toLowerCase name) id collectionsMap
                     | None => collectionsMap
                     end
                 | _ => collectionsMap
                 end).
      fold (postOf name).
      destruct (IH m' (trace ++ [postOf name])%list) as [Ht Hm].
      cbv zeta in Ht, Hm. split.
      * rewrite Ht, <- app_assoc. reflexivity.
      * intros k Hk. rewrite (Hm k Hk).
        assert (Hne : k <> toLowerCase name).
        { intros ->. apply existsb_eqb_In in Hk. rewrite Hk in E.
          discriminate. }
        unfold m'. destruct (server (length trace)) as [body link|code|];
          try reflexivity.
        destruct (custom_collection body); [|reflexivity].
        apply assoc_setId_other. exact Hne.
Qed.

Lemma existing_listed (cs : list Collection) (m : Obj Z) (k : string) :
  In k (map (fun c => toLowerCase (cTitle c)) cs) ->
  k <> "__proto__" ->
  exists c,
    In c cs /\ toLowerCase (cTitle c) = k
    /\ assoc k (fold_left (fun m c => setId (toLowerCase (cTitle c)) (cId c) m)
                  cs m) = Some (cId c).
Proof.
  intros Hin Hk. revert m.
  induction cs as [|c cs IH] using rev_ind; intros m; [contradiction|].
  rewrite fold_left_snoc.
  rewrite map_app, in_app_iff in Hin. simpl in Hin.
  destruct (String.eqb_spec (toLowerCase (cTitle c)) k) as [Heq|Hne].
  - exists c. split; [apply in_or_app; right; left; reflexivity|].
    split; [exact Heq|]. rewrite Heq. unfold setId.
    destruct (String.eqb_spec k "__proto__"); [contradiction|].
    apply assoc_setProp_same.
  - destruct Hin as [Hin|[Heq|[]]]; [|contradiction].
    destruct (IH Hin m) as (c0 & Hc0 & Ht & Ha).
    exists c0. split; [apply in_or_app; left; exact Hc0|].
    split; [exact Ht|].
    rewrite assoc_setId_other; [exact Ha|].
    intros Heq. apply Hne. symmetry. exact Heq.
Qed.

Lemma assoc_setId_proto (key : string) (id : Z) (m : Obj Z) :
  assoc "__proto__" (setId key id m) = assoc "__proto__" m.
Proof.
  unfold setId. destruct (String.eqb_spec key "__proto__") as [Heq|Hne];
    [reflexivity|].
  apply assoc_setProp_other. intros H. apply Hne. symmetry. exact H.
Qed.

Lemma listed_proto (cs : list Collection) (m : Obj Z) :
  assoc "__proto__"
    (fold_left (fun m c => setId (toLowerCase (cTitle c)) (cId c) m) cs m)
  = assoc "__proto__" m.
Proof.
  revert m. induction cs as [|c cs IH]; intros m; [reflexivity|].
  cbn [fold_left]. rewrite IH. apply assoc_setId_proto.
Qed.

Lemma createMissing_proto (existingCollectionNames needed : list string)
    (collectionsMap : Obj Z) (trace : list call) :
  assoc "__proto__"
    (snd (createMissing server existingCollectionNames needed collectionsMap
            trace))
  = assoc "__proto__" collectionsMap.
Proof.
  revert collectionsMap trace.
  induction needed as [|name rest IH]; intros collectionsMap trace;
    [reflexivity|].
  cbn [createMissing].
  destruct (existsb (String.eqb (toLowerCase name)) existingCollectionNames);
    [apply IH|].
  rewrite IH.
  destruct (server (length trace)) as [body link|code|]; try reflexivity.
  destruct (custom_collection body); [apply assoc_setId_proto | reflexivity].
Qed.

(** X26. [setupCollectionsAdvanced] creates the collections that are missing
    and no other.  After the listing of the store it sends one create
    request for each name that the groups need and that no listed
    collection has as its title, letters compared in lower case, in the
    order of the names and whatever the store answers.  The map it returns
    gives, for the lower-cased title of every listed collection but one
    titled [__proto__], the id of a listed collection of that title; under
    [__proto__] an id is never stored, so the map has no entry of its own
    there, also when a collection of that title is listed or created.  When
    the listing is not answered with [ok] it fails and creates nothing. *)
Theorem setupCollectionsAdvanced_creates_the_missing :
  forall (productGroups : list Sync.ProductGroup) (trace : list call),
    let needed := Sync.distinct (flat_map Sync.collections productGroups) in
    match server (length trace) with
    | Answer body _ =>
        let listed :=
          match custom_collections body with Some cs => cs | None => [] end in
        let titles := map (fun c => toLowerCase (cTitle c)) listed in
        exists collectionsMap,
          setupCollectionsAdvanced server productGroups trace
          = ((trace ++ GetCollections
                :: map postOf (filter (missing titles) needed))%list,
             inl collectionsMap)
          /\ (forall k, In k titles ->
                if String.eqb k "__proto__" then assoc k collectionsMap = None
                else exists c, In c listed /\ toLowerCase (cTitle c) = k
                               /\ assoc k collectionsMap = Some (cId c))
          /\ assoc "__proto__" collectionsMap = None
    | NotOk code =>
        setupCollectionsAdvanced server productGroups trace
        = ((trace ++ [GetCollections])%list, inr (FetchCollectionsFailed code))
    | NoReply =>
        setupCollectionsAdvanced server productGroups trace
        = ((trace ++ [GetCollections])%list, inr NoAnswer)
    end.
Proof.
  intros productGroups trace needed. unfold setupCollectionsAdvanced.
  fold needed.
  destruct (server (length trace)) as [body link|code|]; try reflexivity.
  cbv zeta.
  set (listed := match custom_collections body with Some cs => cs | None => [] end).
  set (titles := map (fun c => toLowerCase (cTitle c)) listed).
  set (m0 := fold_left (fun m c => setId (toLowerCase (cTitle c)) (cId c) m)
               listed []).
  destruct (createMissing_run titles needed m0 (trace ++ [GetCollections])%list)
    as [Ht Hm].
  cbv zeta in Ht, Hm.
  destruct (createMissing server titles needed m0 _) as [t m] eqn:Hcm.
  cbn [fst snd] in Ht, Hm. exists m. split.
  - rewrite Ht, <- app_assoc. reflexivity.
  - assert (Hproto : assoc "__proto__" m = None).
    { pose proof (createMissing_proto titles needed m0
                    (trace ++ [GetCollections])%list) as Hp.
      rewrite Hcm in Hp. cbn [snd] in Hp. rewrite Hp. unfold m0.
      apply listed_proto. }
    split; [|exact Hproto].
    intros k Hk. destruct (String.eqb_spec k "__proto__") as [->|Hne];
      [exact Hproto|].
    rewrite (Hm k Hk). exact (existing_listed listed [] k Hk Hne).
Qed.

End ListingFacts.

Lemma getAllExistingProductsAdvanced_walks_the_pages_witness :
  Setup.getAllExistingProductsAdvanced twoPages 5 []
  = Some ([Setup.GetProducts None; Setup.GetProducts (Some "second")],
          inl [Sync.mkRemoteProduct 1 "MacBook Pro" [];
               Sync.mkRemoteProduct 2 "MacBook Air" []]).
Proof.
  apply (getAllExistingProductsAdvanced_walks_the_pages twoPages
           [Setup.GetProducts None; Setup.GetProducts (Some "second")]
           [Sync.mkRemoteProduct 1 "MacBook Pro" [];
            Sync.mkRemoteProduct 2 "MacBook Air" []]
           (LastPage) 5%nat []).
  - refine (walk_next twoPages 0 None
              (Setup.mkBody (Some [Sync.mkRemoteProduct 1 "MacBook Pro" []])
                 None None)
              _ "second" [Setup.GetProducts (Some "second")]
              [Sync.mkRemoteProduct 2 "MacBook Air" []] LastPage
              eq_refl _ _).
    + vm_compute. reflexivity.
    + refine (walk_last twoPages 1 (Some "second")
                (Setup.mkBody (Some [Sync.mkRemoteProduct 2 "MacBook Air" []])
                   None None)
                None eq_refl eq_refl).
  - simpl. lia.
Defined.

(** ** Rows whose display size is an object

    Such a row has a key under which no group exists, so that the loop of
    [createProductGroups] tries to create its group, and fails. *)

(** What follows the first underscore of a key. *)
Definition afterFirstUnderscore (key : string) : string :=
  drop 1 (dropWhile (fun c => negb (Nat.eqb (code c) 95)) key).

(** The first of the fields after the product type that is not empty starts
    with a digit. *)
Definition digitFirst (p : ProductInfo) : bool :=
  match filter truthy
          [displaySize p; processor p; storage p; memory p; year p] with
  | q :: _ => startsWith isDigit q
  | [] => false
  end.

Lemma isDigit_isKeyChar (c : ascii) : isDigit c = true -> isKeyChar c = true.
Proof.
  intros H. unfold isKeyChar. rewrite H.
  rewrite orb_true_r. reflexivity.
Qed.

Lemma startsWith_digit_key (q rest : string) :
  startsWith isDigit q = true ->
  startsWith isDigit (filterChars isKeyChar q ++ rest) = true.
Proof.
  destruct q as [|c q]; [discriminate|]. cbn [startsWith filterChars].
  intros H. rewrite (isDigit_isKeyChar c H). exact H.
Qed.

(** The key of a spec: its product type, an underscore, and the first of
    the other fields that is not empty. *)
Lemma createAdvancedGroupingKey_shape (p : ProductInfo) (q : string)
    (parts : list string) :
  truthy (productType p) = true ->
  filter truthy [displaySize p; processor p; storage p; memory p; year p]
  = q :: parts ->
  exists rest,
    createAdvancedGroupingKey p
    = filterChars isKeyChar (productType p) ++ "_"
      ++ filterChars isKeyChar q ++ rest.
Proof.
  intros Ht Hq. unfold createAdvancedGroupingKey, joinTruthy.
  replace (filter truthy
             [productType p; displaySize p; processor p; storage p; memory p;
              year p])
    with (productType p :: q :: parts).
  2:{ rewrite <- Hq. cbn [filter]. rewrite Ht. reflexivity. }
  cbn [fold_left].
  destruct (fold_left_append_head "_" parts (productType p ++ "_" ++ q))
    as [rest ->].
  exists (filterChars isKeyChar rest).
  rewrite !filterChars_append. rewrite <- !append_assoc. reflexivity.
Qed.

Lemma afterFirstUnderscore_type (t z : string) :
  In t productTypes ->
  afterFirstUnderscore (filterChars isKeyChar t ++ "_" ++ z) = z.
Proof.
  intros H. simpl in H.
  repeat (destruct H as [<-|H]; [reflexivity|]). contradiction.
Qed.

Lemma productTypes_truthy (t : string) : In t productTypes -> truthy t = true.
Proof.
  intros H. simpl in H.
  repeat (destruct H as [<-|H]; [reflexivity|]). contradiction.
Qed.

Lemma digitFirst_key (p : ProductInfo) :
  In (productType p) productTypes -> digitFirst p = true ->
  startsWith isDigit (afterFirstUnderscore (createAdvancedGroupingKey p))
  = true.
Proof.
  intros Ht Hd. unfold digitFirst in Hd.
  destruct (filter truthy
              [displaySize p; processor p; storage p; memory p; year p])
    as [|q parts] eqn:Hq; [discriminate|].
  destruct (createAdvancedGroupingKey_shape p q parts
              (productTypes_truthy _ Ht) Hq) as [rest ->].
  rewrite (afterFirstUnderscore_type _ _ Ht).
  apply startsWith_digit_key. exact Hd.
Qed.

Lemma modelSizeMap_digit (model size : string) :
  assoc model modelSizeMap = Some size -> startsWith isDigit size = true.
Proof.
  intros H. apply assoc_In in H.
  assert (Hall : forallb (fun kv => startsWith isDigit (snd kv)) modelSizeMap
                 = true) by (vm_compute; reflexivity).
  rewrite forallb_forall in Hall. exact (Hall _ H).
Qed.

Lemma startsWith_inches (size : string) :
  startsWith isDigit size = true -> startsWith isDigit (inches size) = true.
Proof. destruct size; [discriminate | intros H; exact H]. Qed.

Lemma extractDisplaySize_digit (model processor size : string) :
  extractDisplaySize model processor = VString size ->
  startsWith isDigit size = true.
Proof.
  unfold extractDisplaySize.
  assert (Hrest : forall v,
            match v with
            | Own s => VString (inches s)
            | Inherited k => VObject k
            | Undefined =>
                VString
                  (inches
                     (if includes processor "27" then "27"
                      else if includes processor "24" then "24"
                      else if (includes processor "215"
                               || includes processor "21.5")%bool
                      then "21.5"
                      else if includes processor "16" then "16"
                      else if includes processor "15" then "15"
                      else if includes processor "14" then "14"
                      else if includes processor "13" then "13"
                      else if (includes processor "129"
                               || includes processor "12.9")%bool
                      then "12.9"
                      else if includes processor "11" then "11"
                      else if (includes processor "109"
                               || includes processor "10.9")%bool
                      then "10.9"
                      else if (includes processor "105"
                               || includes processor "10.5")%bool
                      then "10.5"
                      else if (includes processor "102"
                               || includes processor "10.2")%bool
                      then "10.2"
                      else if (includes processor "97"
                               || includes processor "9.7")%bool
                      then "9.7"
                      else if (includes processor "83"
                               || includes processor "8.3")%bool
                      then "8.3"
                      else
                        let processorLower := toLowerCase processor in
                        if includes processorLower "imac" then
                          if (includes processorLower "m1"
                              || includes processorLower "m3"
                              || includes processorLower "m4")%bool
                          then "24" else "27"
                        else if includes processorLower "max" then "16"
                        else if (includes processorLower "pro"
                                 && negb (includes processorLower "air"))%bool
                        then "14"
                        else if includes processorLower "air" then "13"
                        else if includes processorLower "ipad" then
                          if includes processorLower "pro" then "11"
                          else if includes processorLower "air" then "10.9"
                          else if includes processorLower "mini" then "8.3"
                          else "10.2"
                        else "13"))
            end = VString size ->
            (forall s, v = Own s -> startsWith isDigit s = true) ->
            startsWith isDigit size = true).
  { intros v. destruct v as [s|k|].
    - intros H Hs. injection H as <-. apply startsWith_inches.
      apply Hs. reflexivity.
    - discriminate.
    - intros H _. injection H as <-. cbv zeta.
      repeat match goal with
             | |- context [if ?b then _ else _] => destruct b
             end; reflexivity. }
  intros H. apply (Hrest _ H). intros s Hs.
  destruct (truthy model); [|discriminate].
  unfold getProp in Hs. destruct (assoc model modelSizeMap) as [s0|] eqn:E.
  - injection Hs as <-. exact (modelSizeMap_digit _ _ E).
  - destruct (existsb _ objectPrototypeKeys); discriminate.
Qed.

Lemma extractIPadSize_digit (model processor : string) :
  startsWith isDigit (extractIPadSize model processor) = true.
Proof.
  unfold extractIPadSize.
  set (fromDigit := dropWhile _ _).
  destruct (truthy (takeWhile isDigit fromDigit)) eqn:Hw; [|reflexivity].
  unfold inches. rewrite append_assoc.
  rewrite startsWith_append by exact Hw.
  apply startsWith_truthy; [apply allChars_takeWhile | exact Hw].
Qed.

Lemma isYear_digit (y : string) :
  isYear y = true -> truthy y = true /\ startsWith isDigit y = true.
Proof.
  unfold isYear. intros H. apply andb_prop in H. destruct H as [H Hp].
  destruct y as [|c y]; [discriminate|]. split; [reflexivity|].
  cbn [String.prefix] in Hp.
  destruct (ascii_dec "2" c) as [<-|]; [reflexivity | discriminate].
Qed.

Lemma startsWith_is_truthy (f : ascii -> bool) (s : string) :
  startsWith f s = true -> truthy s = true.
Proof. destruct s; [discriminate | reflexivity]. Qed.

(** A display size that is a text starts with a digit, or it is empty, and
    then so are the processor, the storage and the memory. *)
Lemma analyzeProductAdvanced_size (item : Row) (a : Analysis.t) (size : string) :
  analyzeProductAdvanced item = Some a ->
  Analysis.displaySize a = VString size ->
  (truthy size = true -> startsWith isDigit size = true)
  /\ (truthy size = false ->
      Analysis.processor a = EmptyString /\ Analysis.storage a = EmptyString
      /\ Analysis.memory a = EmptyString).
Proof.
  unfold analyzeProductAdvanced.
  set (model := trim (field item "Model")).
  set (processor := trim (field item "Processor")).
  assert (Hdigit : forall s (P : Prop), startsWith isDigit s = true ->
            (truthy s = true -> startsWith isDigit s = true)
            /\ (truthy s = false -> P)).
  { intros s P Hs. split; [intros _; exact Hs|].
    intros Hf. rewrite (startsWith_is_truthy _ _ Hs) in Hf. discriminate. }
  assert (Hlaptop : forall fallback,
            match extractDisplaySize model processor with
            | VString s => VString (orElse s fallback)
            | VObject k => VObject k
            end = VString size ->
            startsWith isDigit size = true).
  { intros fallback.
    destruct (extractDisplaySize model processor) as [s|k] eqn:E;
      [|discriminate].
    pose proof (extractDisplaySize_digit _ _ _ E) as Hs.
    unfold orElse. rewrite (startsWith_is_truthy _ _ Hs).
    intros H. injection H as <-. exact Hs. }
  pose proof (extractIPadSize_digit model processor) as Hipad.
  repeat match goal with
         | |- (if ?b then _ else _) = Some _ -> _ => destruct b
         end;
    intros H; try discriminate; apply Some_injective in H; subst a;
    cbn [Analysis.displaySize Analysis.processor Analysis.storage
         Analysis.memory];
    intros Hsize.
  all: try (apply Hdigit; apply (Hlaptop _ Hsize)).
  all: try (injection Hsize as <-; apply Hdigit; first
              [ exact Hipad
              | unfold getIPhoneDisplaySize;
                destruct (String.eqb _ "iPhone SE"); reflexivity ]).
  all: injection Hsize as <-; split; [discriminate|];
    intros _; repeat split.
Qed.

Lemma digitFirst_intro (p : ProductInfo) :
  (truthy (displaySize p) = true -> startsWith isDigit (displaySize p) = true) ->
  (truthy (displaySize p) = false ->
   processor p = EmptyString /\ storage p = EmptyString
   /\ memory p = EmptyString) ->
  isYear (year p) = true ->
  digitFirst p = true.
Proof.
  intros Hsize Hempty Hy. unfold digitFirst. cbn [filter].
  destruct (truthy (displaySize p)) eqn:E.
  - apply Hsize. reflexivity.
  - destruct (Hempty eq_refl) as (-> & -> & ->). cbn [truthy].
    destruct (isYear_digit _ Hy) as [Ht Hd]. rewrite Ht. exact Hd.
Qed.

(** The key of a spec that can be made a group goes on with a digit after
    its first underscore. *)
Lemma groupableSpec_key (item : Row) (p : ProductInfo) :
  groupableSpec item = Some p ->
  startsWith isDigit (afterFirstUnderscore (createAdvancedGroupingKey p))
  = true.
Proof.
  unfold groupableSpec.
  destruct (analyzeProductAdvanced item) as [a|] eqn:Ha; [|discriminate].
  destruct (Analysis.displaySize a) as [size|k] eqn:Hs; [|discriminate].
  intros H. apply Some_injective in H. subst p.
  destruct (analyzeProductAdvanced_classified item a Ha) as [Ht Hy].
  destruct (analyzeProductAdvanced_size item a size Ha Hs) as [Hd He].
  apply digitFirst_key; [exact Ht|].
  apply digitFirst_intro; unfold asTexts;
    cbn [displaySize processor storage memory year]; rewrite ?Hs;
    cbn [toStringValue]; assumption.
Qed.

(** The key of a classification whose display size is an object goes on
    with a letter there. *)
Lemma objectSized_key (item : Row) (a : Analysis.t) (k : string) :
  analyzeProductAdvanced item = Some a ->
  Analysis.displaySize a = VObject k ->
  startsWith isDigit
    (afterFirstUnderscore (createAdvancedGroupingKey (asTexts a)))
  = false.
Proof.
  intros Ha Hk.
  destruct (analyzeProductAdvanced_classified item a Ha) as [Ht _].
  assert (Hq : exists parts,
            filter truthy
              [displaySize (asTexts a); processor (asTexts a);
               storage (asTexts a); memory (asTexts a); year (asTexts a)]
            = toStringValue (VObject k) :: parts).
  { unfold asTexts. cbn [displaySize processor storage memory year filter].
    rewrite Hk. eexists.
    assert (Htext : truthy (toStringValue (VObject k)) = true).
    { unfold toStringValue. destruct (String.eqb k "__proto__"); reflexivity. }
    rewrite Htext. reflexivity. }
  destruct Hq as [parts Hq].
  destruct (createAdvancedGroupingKey_shape (asTexts a) _ parts
              (productTypes_truthy _ Ht) Hq) as [rest ->].
  rewrite (afterFirstUnderscore_type _ _ Ht).
  unfold toStringValue. destruct (String.eqb k "__proto__"); reflexivity.
Qed.

(** No spec that can be made a group has the key of a classification whose
    display size is an object, and that key names no property of
    [Object.prototype]: when the loop of [createProductGroups] comes to
    such a row, no group is found under its key. *)
Lemma objectSized_key_fresh (item item' : Row) (a : Analysis.t) (k : string)
    (p : ProductInfo) :
  analyzeProductAdvanced item = Some a ->
  Analysis.displaySize a = VObject k ->
  groupableSpec item' = Some p ->
  createAdvancedGroupingKey (asTexts a) <> createAdvancedGroupingKey p
  /\ inherited (createAdvancedGroupingKey (asTexts a)) = false.
Proof.
  intros Ha Hk Hp. split.
  - intros Heq. pose proof (objectSized_key item a k Ha Hk) as Ho.
    pose proof (groupableSpec_key item' p Hp) as Hd.
    rewrite Heq, Hd in Ho. discriminate.
  - apply productTypes_key.
    exact (proj1 (analyzeProductAdvanced_classified item a Ha)).
Qed.

(** Every key of the map goes on with a digit after its first underscore. *)
Definition digitKeys (o : Obj ProductGroup) : Prop :=
  forall k g, assoc k o = Some g ->
    startsWith isDigit (afterFirstUnderscore k) = true.

Lemma processItem_keys (classifier : Row -> option ProductInfo)
    (o : Obj ProductGroup) (item : Row) (k : string) (g : ProductGroup) :
  assoc k (processItem classifier o item) = Some g ->
  (exists p, classifier item = Some p /\ k = createAdvancedGroupingKey p)
  \/ exists g', assoc k o = Some g'.
Proof.
  unfold processItem.
  destruct (classifier item) as [p|]; [|intros H; right; exists g; exact H].
  destruct (String.eqb_spec k (createAdvancedGroupingKey p)) as [Heq|Hne];
    [intros _; left; exists p; split; [reflexivity | exact Heq]|].
  intros H. right.
  assert (Hset : forall (v : ProductGroup) (o' : Obj ProductGroup),
            assoc k (setProp (createAdvancedGroupingKey p) v o') = assoc k o').
  { intros v o'. apply assoc_setProp_other. exact Hne. }
  cbv zeta in H.
  destruct (getProp o (createAdvancedGroupingKey p)) as [g0|k0|];
    repeat match type of H with
           | context [match ?x with _ => _ end] => destruct x
           end;
    rewrite ?Hset in H; exists g; exact H.
Qed.

Lemma processRow_processItem (o : Obj ProductGroup) (item : Row) :
  digitKeys o ->
  processRow o item = processItem groupableSpec o item
  /\ digitKeys (processItem groupableSpec o item).
Proof.
  intros Hkeys. split.
  - unfold processRow, processItem, groupableSpec.
    destruct (analyzeProductAdvanced item) as [a|] eqn:Ha; [|reflexivity].
    destruct (Analysis.displaySize a) as [size|k] eqn:Hs; [reflexivity|].
    pose proof (objectSized_key item a k Ha Hs) as Hobj.
    cbv zeta. unfold getProp at 1.
    destruct (assoc (createAdvancedGroupingKey (asTexts a)) o) as [g|] eqn:E.
    + rewrite (Hkeys _ _ E) in Hobj. discriminate.
    + destruct (existsb _ objectPrototypeKeys); reflexivity.
  - intros k g H.
    destruct (processItem_keys groupableSpec o item k g H)
      as [(p & Hp & ->)|[g' Hg']].
    + exact (groupableSpec_key item p Hp).
    + exact (Hkeys _ _ Hg').
Qed.

(** X27. A row whose classification has an object as display size never
    changes the groups: folding the body of the loop as the source has it, with
    [analyzeProductAdvanced] itself, gives the groups of
    [createProductGroups] over the specs that can be made a group. *)
Theorem createProductGroups_skips_object_sized_rows :
  forall appleProducts : list Row,
    fold_left processRow appleProducts []
    = createProductGroups groupableSpec appleProducts.
Proof.
  intros rows. unfold createProductGroups.
  assert (H : forall o, digitKeys o ->
            fold_left processRow rows o
            = fold_left (processItem groupableSpec) rows o).
  { induction rows as [|item rows IH]; intros o Ho; [reflexivity|].
    cbn [fold_left].
    destruct (processRow_processItem o item Ho) as [-> Hkeys].
    apply IH. exact Hkeys. }
  apply H. intros k g Hk. discriminate.
Qed.
